(** * go-resilience: timeout, circuit breaker and retry composed into one executor

    A shallow embedding of the package [goresilience] (the policy
    executor, the retry policy, the circuit-breaker wrapper, the provider
    and its configuration) together with the parts of the Go standard
    library and of the two third-party packages it drives
    ([github.com/cenkalti/backoff/v4] and [github.com/sony/gobreaker]).

    Conventions.
    - A [time.Duration] and a point in time are a [Z] count of nanoseconds;
      64-bit and 32-bit arithmetic is written with its wrap-around.
    - A Go [error] value is [option error]: [None] is [nil].
    - A Go [string] is a [string] of bytes.
    - Code that reads the clock, touches a circuit breaker or calls the
      caller's operation runs in the monad [M] over a [World].
    - Time is virtual: a call takes as long as its script says, and a
      [select] takes the case that is ready first; when two cases are ready
      at the same instant the scheduler of the world picks one.
    - The goroutine of the timeout guard is the one place where two things
      run at once; the operation it runs is followed to its end, and the
      guard decides from the instant of that end what its caller sees. *)

From Stdlib Require Import ZArith Lia Bool Ascii String.
From Stdlib Require Floats.
From stdpp Require Import gmap strings list.

Local Open Scope Z_scope.

(** ** Results of fallible constructors: [(v, nil)] or [(zero, err)]. *)

Inductive result (E A : Type) : Type :=
| Ok (a : A)
| Err (e : E).
Arguments Ok {E A} a.
Arguments Err {E A} e.

Definition is_Err {E A} (r : result E A) : bool :=
  match r with Ok _ => false | Err _ => true end.

(** ** Machine integers *)

Definition wrap_int64 (z : Z) : Z := (z + 2 ^ 63) mod 2 ^ 64 - 2 ^ 63.
Definition wrap_uint64 (z : Z) : Z := z mod 2 ^ 64.
Definition wrap_uint32 (z : Z) : Z := z mod 2 ^ 32.

Definition in_int64 (z : Z) : Prop := - 2 ^ 63 <= z < 2 ^ 63.

(** ** Package errors (Go standard library) and the error values of the program *)

Module errors.

(** The error values that occur in the program.  [errorString] is what
    [errors.New] and a [fmt.Errorf] without [%w] build, [wrapError] is a
    [fmt.Errorf] with one [%w] (its [Unwrap] returns [err]), and
    [PermanentError] is [*backoff.PermanentError] (its [Unwrap] returns
    [Err]).  [msg] of a [wrapError] is the formatted text before the
    wrapped error's own text. *)
Inductive error : Type :=
| ErrOpenState                       (* gobreaker.ErrOpenState *)
| ErrTooManyRequests                 (* gobreaker.ErrTooManyRequests *)
| DeadlineExceeded                   (* context.DeadlineExceeded *)
| Canceled                           (* context.Canceled *)
| errorString (msg : string)
| wrapError (msg : string) (err : error)
| PermanentError (err : error).

Fixpoint error_eqb (a b : error) : bool :=
  match a, b with
  | ErrOpenState, ErrOpenState => true
  | ErrTooManyRequests, ErrTooManyRequests => true
  | DeadlineExceeded, DeadlineExceeded => true
  | Canceled, Canceled => true
  | errorString m, errorString m' => bool_decide (m = m')
  | wrapError m e, wrapError m' e' => bool_decide (m = m') && error_eqb e e'
  | PermanentError e, PermanentError e' => error_eqb e e'
  | _, _ => false
  end.

(** The optional method [Is(error) bool] of an error value.  Only
    [*backoff.PermanentError] has one: it answers whether the target is
    itself a [*PermanentError]. *)
Definition method_Is (err target : error) : bool :=
  match err, target with
  | PermanentError _, PermanentError _ => true
  | _, _ => false
  end.

(** The loop of [errors.is]: compare, ask the [Is] method, unwrap. *)
Fixpoint is_chain (err target : error) : bool :=
  if error_eqb err target then true
  else if method_Is err target then true
  else match err with
       | wrapError _ e => is_chain e target
       | PermanentError e => is_chain e target
       | _ => false
       end.

(** [errors.Is(err, target)]. *)
Definition Is (err target : option error) : bool :=
  match err, target with
  | Some e, Some t => is_chain e t
  | None, None => true
  | _, _ => false
  end.

(** [errors.As(err, &permanent)] with [permanent] a
    [*backoff.PermanentError]: the first permanent marker on the unwrap
    chain; the result is that marker's [Err] field. *)
Fixpoint As_PermanentError (err : error) : option error :=
  match err with
  | PermanentError e => Some e
  | wrapError _ e => As_PermanentError e
  | _ => None
  end.

(** The errors reached from [err] by repeated [Unwrap], [err] first. *)
Fixpoint chain (err : error) : list error :=
  err :: match err with
         | wrapError _ e => chain e
         | PermanentError e => chain e
         | _ => []
         end.

End errors.
Export errors.

(** ** Package strconv (Go standard library): [ParseInt(s, 10, 64)] *)

Module strconv.

Inductive NumError := ErrSyntax | ErrRange.

Definition is_digit (c : ascii) : bool :=
  (48 <=? Z.of_nat (nat_of_ascii c)) && (Z.of_nat (nat_of_ascii c) <=? 57).

Definition digit_val (c : ascii) : Z := Z.of_nat (nat_of_ascii c) - 48.

Definition maxUint64 : Z := 2 ^ 64 - 1.

(** The digit loop of [ParseUint] at base 10 and bit size 64.  [cutoff]
    is the smallest number such that [cutoff * 10 > maxUint64]. *)
Fixpoint ParseUint_loop (s : string) (n : Z) : result NumError Z :=
  match s with
  | EmptyString => Ok n
  | String c s' =>
      if is_digit c then
        if maxUint64 / 10 + 1 <=? n then Err ErrRange
        else
          let n10 := n * 10 in
          let n1 := wrap_uint64 (n10 + digit_val c) in
          if (n1 <? n10) || (maxUint64 <? n1) then Err ErrRange
          else ParseUint_loop s' n1
      else Err ErrSyntax
  end.

Definition ParseUint (s : string) : result NumError Z :=
  match s with
  | EmptyString => Err ErrSyntax
  | _ => ParseUint_loop s 0
  end.

(** [strconv.ParseInt(s, 10, 64)]. *)
Definition ParseInt (s : string) : result NumError Z :=
  match s with
  | EmptyString => Err ErrSyntax
  | String c s' =>
      let neg := bool_decide (c = "-"%char) in
      let s1 := if bool_decide (c = "+"%char) || neg then s' else s in
      match ParseUint s1 with
      | Err ErrSyntax => Err ErrSyntax
      | Err ErrRange => Err ErrRange
      | Ok un =>
          let cutoff := 2 ^ 63 in
          if negb neg && (cutoff <=? un) then Err ErrRange
          else if neg && (cutoff <? un) then Err ErrRange
          else Ok (if neg then - un else un)
      end
  end.

End strconv.

(** ** Package time (Go standard library): [ParseDuration] *)

Module time.

Import strconv.

Definition float64 : Type := PrimFloat.float.
Definition float64_of_small (n : Z) : float64 := PrimFloat.of_uint63 (Uint63.of_Z n).

Definition Nanosecond : Z := 1.
Definition Microsecond : Z := 1000 * Nanosecond.
Definition Millisecond : Z := 1000 * Microsecond.
Definition Second : Z := 1000 * Millisecond.
Definition Minute : Z := 60 * Second.
Definition Hour : Z := 60 * Minute.

Definition unitMap (u : string) : option Z :=
  if bool_decide (u = "ns") then Some Nanosecond
  else if bool_decide (u = "us") then Some Microsecond
  else if bool_decide (u = "µs") then Some Microsecond  (* U+00B5 *)
  else if bool_decide (u = "μs") then Some Microsecond  (* U+03BC *)
  else if bool_decide (u = "ms") then Some Millisecond
  else if bool_decide (u = "s") then Some Second
  else if bool_decide (u = "m") then Some Minute
  else if bool_decide (u = "h") then Some Hour
  else None.

Definition quote (s : string) : string :=
  String (ascii_of_nat 34) (s +:+ String (ascii_of_nat 34) EmptyString).

Definition invalid_duration (orig : string) : error :=
  errorString ("time: invalid duration " +:+ quote orig).

(** [leadingInt]: the leading [[0-9]*] of [s], continuing from [x];
    [None] is [errLeadingInt] (the value passed [1<<63]). *)
Fixpoint leadingInt (s : string) (x : Z) : option (Z * string) :=
  match s with
  | EmptyString => Some (x, s)
  | String c s' =>
      if is_digit c then
        if 2 ^ 63 / 10 <? x then None
        else
          let x' := x * 10 + digit_val c in
          if 2 ^ 63 <? x' then None else leadingInt s' x'
      else Some (x, s)
  end.

(** [leadingFraction]: the leading [[0-9]*] of [s] as a numerator [x]
    over [scale]; digits past the precision of 64 bits are dropped. *)
Fixpoint leadingFraction (s : string) (x : Z) (scale : float64)
    (overflow : bool) : Z * float64 * string :=
  match s with
  | EmptyString => (x, scale, s)
  | String c s' =>
      if is_digit c then
        if overflow then leadingFraction s' x scale true
        else if (2 ^ 63 - 1) / 10 <? x then leadingFraction s' x scale true
        else
          let y := x * 10 + digit_val c in
          if 2 ^ 63 <? y then leadingFraction s' x scale true
          else leadingFraction s' y (PrimFloat.mul scale (float64_of_small 10)) false
      else (x, scale, s)
  end.

(** The unit: the longest prefix without ['.'] and digits. *)
Fixpoint span_unit (s : string) : string * string :=
  match s with
  | EmptyString => (EmptyString, EmptyString)
  | String c s' =>
      if bool_decide (c = "."%char) || is_digit c then (EmptyString, s)
      else let '(u, r) := span_unit s' in (String c u, r)
  end.

(** [float64(f)] for an unsigned 64-bit [f <= 1<<63]. *)
Definition float64_of_uint64 (f : Z) : float64 :=
  if f =? 2 ^ 63
  then PrimFloat.mul (PrimFloat.of_uint63 (Uint63.of_Z (2 ^ 62))) (float64_of_small 2)
  else PrimFloat.of_uint63 (Uint63.of_Z f).

(** [uint64(x)] for a non-negative finite [x]: truncation. *)
Definition uint64_of_float64 (x : float64) : Z :=
  match FloatOps.Prim2SF x with
  | SpecFloat.S754_finite false m e =>
      if 0 <=? e then Z.shiftl (Zpos m) e else Z.shiftr (Zpos m) (- e)
  | _ => 0
  end.

(** [uint64(float64(f) * (float64(unit) / scale))]. *)
Definition fraction_of_unit (f : Z) (scale : float64) (unit : Z) : Z :=
  uint64_of_float64
    (PrimFloat.mul (float64_of_uint64 f)
       (PrimFloat.div (float64_of_uint64 unit) scale)).

(** One [number unit] group of the loop [for s != ""]; each round
    consumes at least one byte, [fuel] bounds the number of rounds. *)
Fixpoint ParseDuration_loop (fuel : nat) (orig s : string) (d : Z)
    : result error Z :=
  match s with
  | EmptyString => Ok d
  | String c0 _ =>
      match fuel with
      | O => Err (invalid_duration orig)
      | S fuel' =>
          if negb (bool_decide (c0 = "."%char) || is_digit c0)
          then Err (invalid_duration orig)
          else
            match leadingInt s 0 with
            | None => Err (invalid_duration orig)
            | Some (v, s1) =>
                let pre := negb (Nat.eqb (String.length s) (String.length s1)) in
                let '(f, scale, s2, post) :=
                  match s1 with
                  | String c1 s1' =>
                      if bool_decide (c1 = "."%char) then
                        let '(f, scale, s2) :=
                          leadingFraction s1' 0 (float64_of_small 1) false in
                        (f, scale, s2,
                         negb (Nat.eqb (String.length s1') (String.length s2)))
                      else (0, float64_of_small 1, s1, false)
                  | EmptyString => (0, float64_of_small 1, s1, false)
                  end in
                if negb pre && negb post then Err (invalid_duration orig)
                else
                  let '(u, s3) := span_unit s2 in
                  match u with
                  | EmptyString =>
                      Err (errorString
                             ("time: missing unit in duration " +:+ quote orig))
                  | _ =>
                      match unitMap u with
                      | None =>
                          Err (errorString
                                 ("time: unknown unit " +:+ quote u +:+
                                  " in duration " +:+ quote orig))
                      | Some unit =>
                          if 2 ^ 63 / unit <? v then Err (invalid_duration orig)
                          else
                            let v1 := v * unit in
                            let v2 :=
                              if 0 <? f
                              then wrap_uint64 (v1 + fraction_of_unit f scale unit)
                              else v1 in
                            if (0 <? f) && (2 ^ 63 <? v2)
                            then Err (invalid_duration orig)
                            else
                              let d' := wrap_uint64 (d + v2) in
                              if 2 ^ 63 <? d' then Err (invalid_duration orig)
                              else ParseDuration_loop fuel' orig s3 d'
                      end
                  end
            end
      end
  end.

(** [time.ParseDuration(s)]: an optional sign, then one or more groups of
    a decimal number (with an optional fraction) and a unit. *)
Definition ParseDuration (orig : string) : result error Z :=
  let '(neg, s) :=
    match orig with
    | String c s' =>
        if bool_decide (c = "-"%char) || bool_decide (c = "+"%char)
        then (bool_decide (c = "-"%char), s')
        else (false, orig)
    | EmptyString => (false, orig)
    end in
  if bool_decide (s = "0") then Ok 0
  else if bool_decide (s = "") then Err (invalid_duration orig)
  else
    match ParseDuration_loop (String.length s) orig s 0 with
    | Err e => Err e
    | Ok d =>
        if neg then Ok (wrap_int64 (- wrap_int64 d))
        else if 2 ^ 63 - 1 <? d then Err (invalid_duration orig)
        else Ok d
    end.

End time.

(** ** Package context (Go standard library)

    A context is described by the instants at which it ends: its deadline,
    if it has one, and the instant at which its owner calls [cancel], if
    that ever happens. *)

Module context.

Record Context : Type := {
  deadline : option Z;
  cancel_at : option Z
}.

Definition Background : Context := {| deadline := None; cancel_at := None |}.

(** The instant at which the channel [ctx.Done()] is closed. *)
Definition done_at (ctx : Context) : option Z :=
  match deadline ctx, cancel_at ctx with
  | Some d, Some c => Some (Z.min d c)
  | Some d, None => Some d
  | None, Some c => Some c
  | None, None => None
  end.

Definition is_done (ctx : Context) (now : Z) : bool :=
  match done_at ctx with
  | Some t => t <=? now
  | None => false
  end.

(** [ctx.Err()] read at the instant [now]. *)
Definition Err (ctx : Context) (now : Z) : option error :=
  if is_done ctx now then
    match deadline ctx, cancel_at ctx with
    | Some d, Some c => if c <? d then Some Canceled else Some DeadlineExceeded
    | Some _, None => Some DeadlineExceeded
    | _, _ => Some Canceled
    end
  else None.

(** [context.WithTimeout(parent, timeout)] called at the instant [now];
    a parent deadline that comes earlier is kept. *)
Definition WithTimeout (parent : Context) (now timeout : Z) : Context :=
  {| deadline := Some (match deadline parent with
                       | Some d => Z.min d (now + timeout)
                       | None => now + timeout
                       end);
     cancel_at := cancel_at parent |}.

End context.

(** ** Package github.com/sony/gobreaker: the state machine

    The package is a dependency of the repository and its source is not
    part of it.  The definitions follow section 4.3 of the specification
    (the three states, the transitions, the fail-fast contract, the
    periodic reset of the counters); the bookkeeping that the
    specification leaves open (generations, the expiry instant, the
    defaults of the settings) follows the package's documentation. *)

Module gobreaker.

Inductive State := StateClosed | StateHalfOpen | StateOpen.

Record Counts : Type := {
  Requests : Z;
  TotalSuccesses : Z;
  TotalFailures : Z;
  ConsecutiveSuccesses : Z;
  ConsecutiveFailures : Z
}.

Definition Counts_onRequest (c : Counts) : Counts :=
  {| Requests := wrap_uint32 (Requests c + 1);
     TotalSuccesses := TotalSuccesses c;
     TotalFailures := TotalFailures c;
     ConsecutiveSuccesses := ConsecutiveSuccesses c;
     ConsecutiveFailures := ConsecutiveFailures c |}.

Definition Counts_onSuccess (c : Counts) : Counts :=
  {| Requests := Requests c;
     TotalSuccesses := wrap_uint32 (TotalSuccesses c + 1);
     TotalFailures := TotalFailures c;
     ConsecutiveSuccesses := wrap_uint32 (ConsecutiveSuccesses c + 1);
     ConsecutiveFailures := 0 |}.

Definition Counts_onFailure (c : Counts) : Counts :=
  {| Requests := Requests c;
     TotalSuccesses := TotalSuccesses c;
     TotalFailures := wrap_uint32 (TotalFailures c + 1);
     ConsecutiveSuccesses := 0;
     ConsecutiveFailures := wrap_uint32 (ConsecutiveFailures c + 1) |}.

Definition Counts_clear : Counts :=
  {| Requests := 0; TotalSuccesses := 0; TotalFailures := 0;
     ConsecutiveSuccesses := 0; ConsecutiveFailures := 0 |}.

Record Settings : Type := {
  Name : string;
  MaxRequests : Z;                        (* uint32 *)
  Interval : Z;
  Timeout : Z;
  ReadyToTrip : option (Counts -> bool)
}.

(** [expiry] is [None] for the zero [time.Time]. *)
Record CircuitBreaker : Type := {
  name : string;
  maxRequests : Z;
  interval : Z;
  timeout : Z;
  readyToTrip : Counts -> bool;
  state : State;
  generation : Z;                         (* uint64 *)
  counts : Counts;
  expiry : option Z
}.

Definition defaultInterval : Z := 0.
Definition defaultTimeout : Z := 60 * time.Second.
Definition defaultReadyToTrip (c : Counts) : bool := 5 <? ConsecutiveFailures c.

(** The default [isSuccessful]: [err == nil]. *)
Definition isSuccessful (err : option error) : bool :=
  match err with None => true | Some _ => false end.

(** Modelled from the spec: gobreaker's [toNewGeneration], not under src/;
    a new counting window starts: the counters are cleared, and the expiry
    is the end of the interval (closed) or of the cool-down (open). *)
Definition toNewGeneration (cb : CircuitBreaker) (now : Z) : CircuitBreaker :=
  {| name := name cb; maxRequests := maxRequests cb; interval := interval cb;
     timeout := timeout cb; readyToTrip := readyToTrip cb;
     state := state cb;
     generation := wrap_uint64 (generation cb + 1);
     counts := Counts_clear;
     expiry := match state cb with
               | StateClosed =>
                   if interval cb =? 0 then None else Some (now + interval cb)
               | StateOpen => Some (now + timeout cb)
               | StateHalfOpen => None
               end |}.

Definition State_eqb (a b : State) : bool :=
  match a, b with
  | StateClosed, StateClosed | StateHalfOpen, StateHalfOpen
  | StateOpen, StateOpen => true
  | _, _ => false
  end.

Definition with_state (cb : CircuitBreaker) (st : State) : CircuitBreaker :=
  {| name := name cb; maxRequests := maxRequests cb; interval := interval cb;
     timeout := timeout cb; readyToTrip := readyToTrip cb;
     state := st; generation := generation cb; counts := counts cb;
     expiry := expiry cb |}.

Definition with_counts (cb : CircuitBreaker) (c : Counts) : CircuitBreaker :=
  {| name := name cb; maxRequests := maxRequests cb; interval := interval cb;
     timeout := timeout cb; readyToTrip := readyToTrip cb;
     state := state cb; generation := generation cb; counts := c;
     expiry := expiry cb |}.

(** Modelled from the spec: gobreaker's [setState], not under src/. *)
Definition setState (cb : CircuitBreaker) (st : State) (now : Z) : CircuitBreaker :=
  if State_eqb (state cb) st then cb
  else toNewGeneration (with_state cb st) now.

(** [expiry.Before(now)]; the zero time is before every instant. *)
Definition expiry_Before (e : option Z) (now : Z) : bool :=
  match e with
  | None => true
  | Some t => t <? now
  end.

Definition expiry_IsZero (e : option Z) : bool :=
  match e with None => true | Some _ => false end.

(** Modelled from the spec: gobreaker's [currentState], not under src/;
    the breaker after the time-driven transitions (closed: the counters
    are reset when the interval has passed; open to half-open when the
    cool-down has passed); the
    state and the generation it returns are those of the result. *)
Definition currentState (cb : CircuitBreaker) (now : Z) : CircuitBreaker :=
  match state cb with
  | StateClosed =>
      if negb (expiry_IsZero (expiry cb)) && expiry_Before (expiry cb) now
      then toNewGeneration cb now else cb
  | StateOpen =>
      if expiry_Before (expiry cb) now then setState cb StateHalfOpen now else cb
  | StateHalfOpen => cb
  end.

(** Modelled from the spec: gobreaker's [beforeRequest], not under src/;
    open rejects with the open-state error, half-open rejects with the
    too-many-requests error once the probes in flight reach the cap. *)
Definition beforeRequest (cb : CircuitBreaker) (now : Z)
    : CircuitBreaker * (Z * option error) :=
  let cb1 := currentState cb now in
  match state cb1 with
  | StateOpen => (cb1, (generation cb1, Some ErrOpenState))
  | StateHalfOpen =>
      if maxRequests cb1 <=? Requests (counts cb1)
      then (cb1, (generation cb1, Some ErrTooManyRequests))
      else (with_counts cb1 (Counts_onRequest (counts cb1)), (generation cb1, None))
  | StateClosed =>
      (with_counts cb1 (Counts_onRequest (counts cb1)), (generation cb1, None))
  end.

(** Modelled from the spec: gobreaker's [onSuccess], not under src/. *)
Definition onSuccess (cb : CircuitBreaker) (st : State) (now : Z) : CircuitBreaker :=
  match st with
  | StateClosed => with_counts cb (Counts_onSuccess (counts cb))
  | StateHalfOpen =>
      let cb1 := with_counts cb (Counts_onSuccess (counts cb)) in
      if maxRequests cb1 <=? ConsecutiveSuccesses (counts cb1)
      then setState cb1 StateClosed now else cb1
  | StateOpen => cb
  end.

(** Modelled from the spec: gobreaker's [onFailure], not under src/;
    closed trips to open when [readyToTrip] says so, a failed probe
    reopens. *)
Definition onFailure (cb : CircuitBreaker) (st : State) (now : Z) : CircuitBreaker :=
  match st with
  | StateClosed =>
      let cb1 := with_counts cb (Counts_onFailure (counts cb)) in
      if readyToTrip cb1 (counts cb1) then setState cb1 StateOpen now else cb1
  | StateHalfOpen => setState cb StateOpen now
  | StateOpen => cb
  end.

(** Modelled from the spec: gobreaker's [afterRequest], not under src/;
    an outcome is recorded only in the generation that admitted the
    request. *)
Definition afterRequest (cb : CircuitBreaker) (now before : Z) (success : bool)
    : CircuitBreaker :=
  let cb1 := currentState cb now in
  if negb (generation cb1 =? before) then cb1
  else if success then onSuccess cb1 (state cb1) now
  else onFailure cb1 (state cb1) now.

(** Modelled from the spec: gobreaker's [NewCircuitBreaker], not under
    src/, called at the instant [now]; a setting left at zero takes the
    package's default. *)
Definition NewCircuitBreaker (st : Settings) (now : Z) : CircuitBreaker :=
  toNewGeneration
    {| name := Name st;
       maxRequests := if MaxRequests st =? 0 then 1 else MaxRequests st;
       interval := if Interval st <=? 0 then defaultInterval else Interval st;
       timeout := if Timeout st <=? 0 then defaultTimeout else Timeout st;
       readyToTrip := match ReadyToTrip st with
                      | Some f => f
                      | None => defaultReadyToTrip
                      end;
       state := StateClosed;
       generation := 0;
       counts := Counts_clear;
       expiry := None |}
    now.

End gobreaker.

(** ** The world the program runs in

    [now] is the clock; [log] records every invocation of a caller's
    operation, newest first; [heap] holds the circuit breakers by address
    (they are shared and mutated in place); [sched] and [ties] resolve a
    [select] whose two cases become ready at the same instant. *)

Definition any : Type := option string.

Inductive Behaviour : Type :=
| Returns (elapsed : N) (value : any) (err : option error)
| Panics (elapsed : N) (r : string)
| Hangs.

Record World : Type := {
  now : Z;
  log : list Behaviour;
  heap : list gobreaker.CircuitBreaker;
  sched : nat -> bool;
  ties : nat
}.

Definition set_now (t : Z) (w : World) : World :=
  {| now := t; log := log w; heap := heap w; sched := sched w; ties := ties w |}.
Definition set_log (l : list Behaviour) (w : World) : World :=
  {| now := now w; log := l; heap := heap w; sched := sched w; ties := ties w |}.
Definition set_heap (h : list gobreaker.CircuitBreaker) (w : World) : World :=
  {| now := now w; log := log w; heap := h; sched := sched w; ties := ties w |}.
Definition next_tie (w : World) : World :=
  {| now := now w; log := log w; heap := heap w; sched := sched w;
     ties := S (ties w) |}.

(** How a call ends: it returns, it panics with a value (printed with
    [%v]), it never returns, or the model ran out of [fuel]. *)
Inductive Outcome (A : Type) : Type :=
| Return (a : A)
| Panic (r : string)
| Hang
| OutOfFuel.
Arguments Return {A} a.
Arguments Panic {A} r.
Arguments Hang {A}.
Arguments OutOfFuel {A}.

Definition M (A : Type) : Type := World -> Outcome A * World.

Definition ret {A} (a : A) : M A := fun w => (Return a, w).

Definition bind {A B} (m : M A) (k : A -> M B) : M B :=
  fun w =>
    match m w with
    | (Return a, w') => k a w'
    | (Panic r, w') => (Panic r, w')
    | (Hang, w') => (Hang, w')
    | (OutOfFuel, w') => (OutOfFuel, w')
    end.

Notation "'let*' x ':=' m 'in' k" := (bind m (fun x => k))
  (at level 10, x name, m at level 100, k at level 200).

(** The winner of a [select] between a case that becomes ready at [t_a]
    (if ever) and one that becomes ready at [t_b] (if ever): [true] when
    the first case is taken.  The scheduler decides a tie. *)
Definition select_first (w : World) (t_a t_b : option Z) : bool :=
  match t_a, t_b with
  | Some a, Some b => if a <? b then true else if b <? a then false else sched w (ties w)
  | Some _, None => true
  | None, _ => false
  end.

Definition is_tie (t_a t_b : option Z) : bool :=
  match t_a, t_b with
  | Some a, Some b => a =? b
  | _, _ => false
  end.

Definition after_select (t_a t_b : option Z) (w : World) : World :=
  if is_tie t_a t_b then next_tie w else w.

(** An operation as the caller writes it, [func(ctx) (any, error)], and the
    operations the theorems quantify over: a [Script] tells, for the context
    handed in, the instant of the call and the number of earlier calls, how
    this call behaves and how long it takes. *)
Definition Operation : Type := context.Context -> M (any * option error).

Definition Script : Type := context.Context -> Z -> nat -> Behaviour.

Definition call (s : Script) : Operation :=
  fun ctx w =>
    let b := s ctx (now w) (length (log w)) in
    let w1 := set_log (b :: log w) w in
    match b with
    | Returns d v e => (Return (v, e), set_now (now w + Z.of_N d) w1)
    | Panics d r => (Panic r, set_now (now w + Z.of_N d) w1)
    | Hangs => (Hang, w1)
    end.

(** ** The breakers on the heap *)

Module gobreaker_run.

Import gobreaker.

(** Modelled from the spec: the method [Execute] of gobreaker's
    [CircuitBreaker], not under src/, on the breaker at address [cb];
    section 4.3, contract of [execute(operation)].  A request that panics
    is recorded as a failure and the panic goes on. *)
Definition Execute (cb : nat) (req : M (any * option error))
    : M (any * option error) :=
  fun w =>
    match heap w !! cb with
    | None => (Panic "invalid memory address or nil pointer dereference", w)
    | Some b =>
        let '(b1, (generation, err)) := beforeRequest b (now w) in
        let w1 := set_heap (<[cb := b1]> (heap w)) w in
        match err with
        | Some e => (Return (None, Some e), w1)
        | None =>
            let record (success : bool) (w2 : World) : World :=
              set_heap
                (alter (fun b2 => afterRequest b2 (now w2) generation success)
                   cb (heap w2)) w2 in
            match req w1 with
            | (Return (result, err), w2) =>
                (Return (result, err), record (isSuccessful err) w2)
            | (Panic r, w2) => (Panic r, record false w2)
            | (Hang, w2) => (Hang, w2)
            | (OutOfFuel, w2) => (OutOfFuel, w2)
            end
        end
    end.

(** Modelled from the spec: [gobreaker.NewCircuitBreaker(st)], not under
    src/: a new breaker on the heap. *)
Definition NewCircuitBreaker (st : Settings) : M nat :=
  fun w =>
    (Return (length (heap w)),
     set_heap (heap w ++ [gobreaker.NewCircuitBreaker st (now w)]) w).

End gobreaker_run.

(** ** Package github.com/cenkalti/backoff/v4

    The package is a dependency of the repository and its source is not
    part of it.  The definitions follow section 4.2 of the specification
    (the delay sequence of [backoff(ctx)] and the retry loop with its
    permanent-error marker) in the shape of the package's
    [ConstantBackOff], [WithMaxRetries], [WithContext], [Permanent] and
    [RetryWithData]. *)

Module backoff.

(** Modelled from the spec: the package's constant [Stop], not under
    src/: the duration with which [NextBackOff] says that the sequence is
    exhausted. *)
Definition Stop : Z := -1.

Inductive BackOff : Type :=
| ConstantBackOff (Interval : Z)
| backOffTries (delegate : BackOff) (maxTries numTries : Z)
| backOffContext (b : BackOff) (ctx : context.Context).

Definition NewConstantBackOff (d : Z) : BackOff := ConstantBackOff d.
Definition WithMaxRetries (b : BackOff) (max : Z) : BackOff := backOffTries b max 0.

(** Modelled from the spec: [backoff.WithContext], not under src/; a
    back-off that is already bound to a context is bound anew. *)
Definition WithContext (b : BackOff) (ctx : context.Context) : BackOff :=
  match b with
  | backOffContext b0 _ => backOffContext b0 ctx
  | _ => backOffContext b ctx
  end.

(** Modelled from the spec: the method [NextBackOff] of the three
    back-offs, not under src/, called at the instant [now]: the delay and
    the back-off with its counters advanced.  The constant back-off gives
    its interval, the capped one stops after [maxTries] delays, the bound
    one stops once its context is done. *)
Fixpoint NextBackOff (b : BackOff) (now : Z) : Z * BackOff :=
  match b with
  | ConstantBackOff d => (d, b)
  | backOffTries delegate maxTries numTries =>
      if maxTries =? 0 then (Stop, b)
      else if maxTries <=? numTries then (Stop, b)
      else
        let '(d, delegate') := NextBackOff delegate now in
        (d, backOffTries delegate' maxTries (wrap_uint64 (numTries + 1)))
  | backOffContext b0 ctx =>
      if context.is_done ctx now then (Stop, b)
      else let '(d, b0') := NextBackOff b0 now in (d, backOffContext b0' ctx)
  end.

(** Modelled from the spec: the method [Reset], not under src/. *)
Fixpoint Reset (b : BackOff) : BackOff :=
  match b with
  | ConstantBackOff d => b
  | backOffTries delegate maxTries _ => backOffTries (Reset delegate) maxTries 0
  | backOffContext b0 ctx => backOffContext (Reset b0) ctx
  end.

(** Modelled from the spec: the package's [getContext], not under src/:
    the context a back-off is bound to. *)
Fixpoint getContext (b : BackOff) : context.Context :=
  match b with
  | backOffContext _ ctx => ctx
  | backOffTries delegate _ _ => getContext delegate
  | ConstantBackOff _ => context.Background
  end.

(** Modelled from the spec: [backoff.Permanent(err)], not under src/:
    the permanent-error marker of section 4.2. *)
Definition Permanent (err : option error) : option error :=
  match err with
  | None => None
  | Some e => Some (PermanentError e)
  end.

(** Modelled from the spec: the loop of [backoff.RetryWithData], not under
    src/; section 4.2, retry loop semantics.  One round is one call of
    [operation] and, unless the loop ends, the wait before the next. *)
Fixpoint retry_loop (fuel : nat) (operation : M (any * option error))
    (b : BackOff) (ctx : context.Context) : M (any * option error) :=
  fun w =>
    match fuel with
    | O => (OutOfFuel, w)
    | S fuel' =>
        match operation w with
        | (Return (res, None), w1) => (Return (res, None), w1)
        | (Return (res, Some err), w1) =>
            match As_PermanentError err with
            | Some perr => (Return (res, Some perr), w1)
            | None =>
                let '(next, b') := NextBackOff b (now w1) in
                if next =? Stop then
                  match context.Err ctx (now w1) with
                  | Some cerr => (Return (res, Some cerr), w1)
                  | None => (Return (res, Some err), w1)
                  end
                else
                  let fire := Some (now w1 + Z.max 0 next) in
                  let w2 := after_select fire (context.done_at ctx) w1 in
                  if select_first w1 fire (context.done_at ctx)
                  then retry_loop fuel' operation b' ctx
                         (set_now (now w1 + Z.max 0 next) w2)
                  else
                    let t := Z.max (now w1) (default (now w1) (context.done_at ctx)) in
                    (Return (res, context.Err ctx t), set_now t w2)
            end
        | (Panic r, w1) => (Panic r, w1)
        | (Hang, w1) => (Hang, w1)
        | (OutOfFuel, w1) => (OutOfFuel, w1)
        end
    end.

(** Modelled from the spec: [backoff.RetryWithData(operation, b)], not
    under src/. *)
Definition RetryWithData (fuel : nat) (operation : M (any * option error))
    (b : BackOff) : M (any * option error) :=
  retry_loop fuel operation (Reset b) (getContext b).

End backoff.

(** ** Package goresilience *)

Module goresilience.

Import backoff.

(** *** config.go *)

Record Retry : Type := {
  Retry_Duration : string;
  Retry_MaxRetries : Z
}.

Record CircuitBreaker : Type := {
  CircuitBreaker_MaxRequests : Z;
  CircuitBreaker_Interval : string;
  CircuitBreaker_Timeout : string;
  CircuitBreaker_Failures : Z
}.

Record PolicyNames : Type := {
  PolicyNames_Timeout : string;
  PolicyNames_Retry : string;
  PolicyNames_CircuitBreaker : string
}.

Record Config : Type := {
  Timeouts : gmap string string;
  Retries : gmap string Retry;
  CircuitBreakers : gmap string CircuitBreaker;
  Targets : gmap string PolicyNames
}.

(** *** provider.go: the duration resolver *)

Definition parseDuration (val : string) : result error Z :=
  if bool_decide (val = "") then Ok 0
  else
    match strconv.ParseInt val with
    | Ok i => Ok (wrap_int64 (i * time.Microsecond))
    | Err _ => time.ParseDuration val
    end.

(** *** retry.go *)

Record retry : Type := {
  retry_duration : Z;
  retry_maxRetries : Z
}.

Definition newRetry (name : string) (r : Retry) : result error retry :=
  match parseDuration (Retry_Duration r) with
  | Err err =>
      Err (wrapError ("invalid retry duration " +:+ Retry_Duration r +:+
                      " for '" +:+ time.quote name +:+ "': ") err)
  | Ok duration =>
      Ok {| retry_duration := duration; retry_maxRetries := Retry_MaxRetries r |}
  end.

Definition retry_backoff (r : retry) (ctx : context.Context) : BackOff :=
  let b := NewConstantBackOff (retry_duration r) in
  let b := if 0 <=? retry_maxRetries r
           then WithMaxRetries b (wrap_uint64 (retry_maxRetries r))
           else b in
  WithContext b ctx.

Definition OperationRetry (fuel : nat) (operation : M (any * option error))
    (b : BackOff) : M (any * option error) :=
  RetryWithData fuel operation b.

(** *** circuitbreaker.go *)

(** [breaker] is the address of the [gobreaker.CircuitBreaker]. *)
Record circuitBreaker : Type := {
  breaker : nat
}.

Definition tripFn (failures : Z) (counts : gobreaker.Counts) : bool :=
  failures <=? gobreaker.ConsecutiveFailures counts.

Definition newCircuitBreaker (name : string) (config : CircuitBreaker)
    : M (result error circuitBreaker) :=
  match parseDuration (CircuitBreaker_Interval config) with
  | Err err => ret (Err err)
  | Ok interval =>
      match parseDuration (CircuitBreaker_Timeout config) with
      | Err err => ret (Err err)
      | Ok timeout =>
          let maxRequest := wrap_uint32 (CircuitBreaker_MaxRequests config) in
          let failures := wrap_uint32 (CircuitBreaker_Failures config) in
          let* b := gobreaker_run.NewCircuitBreaker
                      {| gobreaker.Name := name;
                         gobreaker.MaxRequests := maxRequest;
                         gobreaker.Interval := interval;
                         gobreaker.Timeout := timeout;
                         gobreaker.ReadyToTrip := Some (tripFn failures) |} in
          ret (Ok {| breaker := b |})
      end
  end.

Definition IsErrorPermanent (err : option error) : bool :=
  errors.Is err (Some ErrOpenState) || errors.Is err (Some ErrTooManyRequests).

(** *** policy.go *)

Definition Executor : Type := Operation -> M (any * option error).

Record Policy : Type := {
  Policy_timeout : Z;
  Policy_retry : option retry;
  Policy_circuitBreaker : option circuitBreaker
}.

Definition nil_dereference {A} : M A :=
  fun w => (Panic "invalid memory address or nil pointer dereference", w).

(** The operation runs in a goroutine of its own and hands its result to
    a channel with one slot; a panic is recovered there and handed over
    as an error.  The caller waits for the channel or for
    [timeoutCtx.Done()], whichever is ready first; what the goroutine
    does after the context is done reaches nobody. *)
Definition withTimeout (p : Policy) (oper : Operation) : Operation :=
  fun ctx w =>
    let timeoutCtx := context.WithTimeout ctx (now w) (Policy_timeout p) in
    let t_done := Z.max (now w) (default (now w) (context.done_at timeoutCtx)) in
    let '(out, w1) := oper timeoutCtx w in
    let sent : option (any * option error) :=
      match out with
      | Return r => Some r
      | Panic r => Some (None, Some (errorString ("operation panicked: " +:+ r)))
      | _ => None
      end in
    match out with
    | OutOfFuel => (OutOfFuel, w1)
    | _ =>
        let t_sent := match sent with Some _ => Some (now w1) | None => None end in
        let w2 := after_select t_sent (Some t_done) w1 in
        match sent with
        | Some r =>
            if select_first w1 t_sent (Some t_done) then (Return r, w2)
            else (Return (None, context.Err timeoutCtx t_done), set_now t_done w2)
        | None =>
            (Return (None, context.Err timeoutCtx t_done), set_now t_done w2)
        end
    end.

Definition withCircuitBreaker (p : Policy) (oper : Operation) : Operation :=
  fun ctx =>
    match Policy_circuitBreaker p with
    | None => nil_dereference
    | Some cb =>
        let* r := gobreaker_run.Execute (breaker cb) (oper ctx) in
        let '(res, err) := r in
        let err := if bool_decide (Policy_retry p <> None) && IsErrorPermanent err
                   then Permanent err else err in
        ret (res, err)
    end.

Definition withRetry (fuel : nat) (p : Policy) (ctx : context.Context) (oper : Operation)
    : M (any * option error) :=
  match Policy_retry p with
  | None => nil_dereference
  | Some r => OperationRetry fuel (oper ctx) (retry_backoff r ctx)
  end.

(** [fuel] bounds the rounds of the retry loop, the only loop of the
    executor that the code itself does not bound. *)
Definition NewExecutor (fuel : nat) (ctx : context.Context) (policy : option Policy)
    : Executor :=
  match policy with
  | None => fun oper => oper ctx
  | Some policy =>
      fun oper =>
        let operation := oper in
        let operation :=
          if 0 <? Policy_timeout policy
          then withTimeout policy operation else operation in
        let operation :=
          match Policy_circuitBreaker policy with
          | Some _ => withCircuitBreaker policy operation
          | None => operation
          end in
        match Policy_retry policy with
        | None => operation ctx
        | Some _ => withRetry fuel policy ctx operation
        end
  end.

Definition NewExecWithPolicy (fuel : nat) (ctx : context.Context) (policy : option Policy)
    : Executor :=
  NewExecutor fuel ctx policy.

(** *** provider.go *)

Record target : Type := {
  target_timeout : string;
  target_retry : string;
  target_circuitBreaker : string
}.

Record Provider : Type := {
  timeouts : gmap string Z;
  retries : gmap string retry;
  circuitBreakers : gmap string circuitBreaker;
  targets : gmap string target
}.

(** The three loops of [configure] that can fail, over the entries of
    the map in the order the iteration yields them. *)
Fixpoint configure_timeouts (l : list (string * string)) (acc : gmap string Z)
    : result error (gmap string Z) :=
  match l with
  | [] => Ok acc
  | (name, val) :: l' =>
      match parseDuration val with
      | Err err =>
          Err (wrapError ("invalid timeout duration " +:+ val +:+ " for " +:+
                          time.quote name +:+ ": ") err)
      | Ok timeout => configure_timeouts l' (<[name := timeout]> acc)
      end
  end.

Fixpoint configure_retries (l : list (string * Retry)) (acc : gmap string retry)
    : result error (gmap string retry) :=
  match l with
  | [] => Ok acc
  | (name, retryCfg) :: l' =>
      match newRetry name retryCfg with
      | Err err =>
          Err (wrapError ("failed to create retry for " +:+ time.quote name +:+
                          ": ") err)
      | Ok retryInstance => configure_retries l' (<[name := retryInstance]> acc)
      end
  end.

Fixpoint configure_circuitBreakers (l : list (string * CircuitBreaker))
    (acc : gmap string circuitBreaker)
    : M (result error (gmap string circuitBreaker)) :=
  match l with
  | [] => ret (Ok acc)
  | (name, cbCfg) :: l' =>
      let* r := newCircuitBreaker name cbCfg in
      match r with
      | Err err =>
          ret (Err (wrapError ("failed to create circuit breaker for " +:+
                               time.quote name +:+ ": ") err))
      | Ok cb => configure_circuitBreakers l' (<[name := cb]> acc)
      end
  end.

Definition configure (p : Provider) (cfg : Config) : M (result error Provider) :=
  match configure_timeouts (map_to_list (Timeouts cfg)) (timeouts p) with
  | Err err => ret (Err err)
  | Ok ts =>
      match configure_retries (map_to_list (Retries cfg)) (retries p) with
      | Err err => ret (Err err)
      | Ok rs =>
          let* r := configure_circuitBreakers
                      (map_to_list (CircuitBreakers cfg)) (circuitBreakers p) in
          match r with
          | Err err => ret (Err err)
          | Ok cbs =>
              ret (Ok {| timeouts := ts; retries := rs; circuitBreakers := cbs;
                         targets :=
                           map_fold
                             (fun k n acc =>
                                <[k := {| target_timeout := PolicyNames_Timeout n;
                                          target_retry := PolicyNames_Retry n;
                                          target_circuitBreaker :=
                                            PolicyNames_CircuitBreaker n |}]> acc)
                             (targets p) (Targets cfg) |})
          end
      end
  end.

Definition FromConfig (cfg : Config) : M (result error Provider) :=
  configure {| timeouts := ∅; retries := ∅; circuitBreakers := ∅; targets := ∅ |}
    cfg.

Definition Provider_Policy (p : Provider) (name : string) : Policy :=
  match targets p !! name with
  | Some cfg =>
      {| Policy_timeout :=
           if bool_decide (target_timeout cfg <> "") then
             match timeouts p !! target_timeout cfg with
             | Some timeout => timeout
             | None => 0
             end
           else 0;
         Policy_retry :=
           if bool_decide (target_retry cfg <> "") then
             retries p !! target_retry cfg
           else None;
         Policy_circuitBreaker :=
           if bool_decide (target_circuitBreaker cfg <> "") then
             circuitBreakers p !! target_circuitBreaker cfg
           else None |}
  | None =>
      {| Policy_timeout := 0; Policy_retry := None; Policy_circuitBreaker := None |}
  end.

End goresilience.

(** ** The vocabulary of the specification

    The notions the specification speaks in, defined from its words and not
    from the code, so that the theorems can compare the two. *)

Module wording.

Import strconv goresilience.

(** The value of a run of decimal digits, continuing from [acc]. *)
Fixpoint decimal_value (s : string) (acc : Z) : option Z :=
  match s with
  | EmptyString => Some acc
  | String c s' =>
      if is_digit c then decimal_value s' (acc * 10 + digit_val c) else None
  end.

Definition unsigned_decimal (s : string) : option Z :=
  match s with
  | EmptyString => None
  | _ => decimal_value s 0
  end.

(** A bare integer: an optional sign and one or more decimal digits. *)
Definition bare_integer (s : string) : option Z :=
  match s with
  | EmptyString => None
  | String c s' =>
      if bool_decide (c = "-"%char) then Z.opp <$> unsigned_decimal s'
      else if bool_decide (c = "+"%char) then unsigned_decimal s'
      else unsigned_decimal s
  end.

(** The two errors with which a breaker turns a request away. *)
Definition sentinel (t : error) : Prop := t = ErrOpenState \/ t = ErrTooManyRequests.

(** The count [i] of microseconds is a [time.Duration]. *)
Definition fits_Duration_us (i : Z) : Prop := in_int64 (i * time.Microsecond).

(** Text that starts with none of a sign, a digit and a point. *)
Definition starts_malformed (s : string) : Prop :=
  match s with
  | EmptyString => False
  | String c _ =>
      c <> "-"%char /\ c <> "+"%char /\ c <> "."%char /\ is_digit c = false
  end.

Definition invalid_duration_string (s : string) : Prop :=
  is_Err (parseDuration s) = true.

(** Some duration string of the configuration does not parse. *)
Definition has_invalid_duration (cfg : Config) : Prop :=
  (exists name val, Timeouts cfg !! name = Some val /\ invalid_duration_string val)
  \/ (exists name r,
        Retries cfg !! name = Some r /\ invalid_duration_string (Retry_Duration r))
  \/ (exists name c,
        CircuitBreakers cfg !! name = Some c /\
        (invalid_duration_string (CircuitBreaker_Interval c) \/
         invalid_duration_string (CircuitBreaker_Timeout c))).

(** A target names a guard that the configuration does not define. *)
Definition has_unresolvable_name (cfg : Config) : Prop :=
  exists name t, Targets cfg !! name = Some t /\
    ((PolicyNames_Timeout t <> "" /\ Timeouts cfg !! PolicyNames_Timeout t = None)
     \/ (PolicyNames_Retry t <> "" /\ Retries cfg !! PolicyNames_Retry t = None)
     \/ (PolicyNames_CircuitBreaker t <> "" /\
         CircuitBreakers cfg !! PolicyNames_CircuitBreaker t = None)).

(** The target is absent, or none of the guards it names is defined. *)
Definition unresolved (p : Provider) (name : string) : Prop :=
  forall t, targets p !! name = Some t ->
    (target_timeout t = "" \/ timeouts p !! target_timeout t = None) /\
    (target_retry t = "" \/ retries p !! target_retry t = None) /\
    (target_circuitBreaker t = "" \/
     circuitBreakers p !! target_circuitBreaker t = None).

(** What a caller sees of a call that behaves as [b] and is handed on
    unchanged. *)
Definition outcome_of (b : Behaviour) : Outcome (any * option error) :=
  match b with
  | Returns _ v e => Return (v, e)
  | Panics _ r => Panic r
  | Hangs => Hang
  end.

Definition no_guards (p : Policy) : Prop :=
  Policy_timeout p <= 0 /\ Policy_retry p = None /\ Policy_circuitBreaker p = None.

(** The error with which the breaker turns a request away at [now]
    without running it, if it does. *)
Definition rejection (b : gobreaker.CircuitBreaker) (now : Z) : option error :=
  snd (snd (gobreaker.beforeRequest b now)).

(** The call returned an error that carries no permanent marker. *)
Definition fails_retryably (b : Behaviour) : Prop :=
  match b with
  | Returns _ _ (Some e) => As_PermanentError e = None
  | _ => False
  end.

Definition fails (b : Behaviour) : Prop :=
  match b with
  | Returns _ _ (Some _) => True
  | _ => False
  end.

Definition succeeds (b : Behaviour) : Prop :=
  match b with
  | Returns _ _ None => True
  | _ => False
  end.

(** The caller got the value and the error of a call that behaved as [b]. *)
Definition delivers (out : Outcome (any * option error)) (b : Behaviour) : Prop :=
  match b with
  | Returns _ v e => out = Return (v, e)
  | _ => False
  end.

(** The context is never cancelled and has no deadline. *)
Definition never_done (ctx : context.Context) : Prop := context.done_at ctx = None.

(** The world after [n] calls of [m] in a row. *)
Fixpoint calls {A} (n : nat) (m : M A) (w : World) : World :=
  match n with
  | O => w
  | S n' => calls n' m (snd (m w))
  end.

(** The instant at which the guard stops waiting for a call that starts
    at [now]: the end of [timeout], or the end of the caller's context if
    that comes first. *)
Definition guard_deadline (ctx : context.Context) (now timeout : Z) : Z :=
  Z.max now
    (default now (context.done_at (context.WithTimeout ctx now timeout))).

(** The instant at which a call that starts at [now] and behaves as [b]
    has its result; [None] when it never has one. *)
Definition completes_at (now : Z) (b : Behaviour) : option Z :=
  match b with
  | Returns d _ _ => Some (now + Z.of_N d)
  | Panics d _ => Some (now + Z.of_N d)
  | Hangs => None
  end.

(** The counting window of a closed breaker is still running at [t]: its
    counters are not yet due for their periodic reset. *)
Definition window_open (b : gobreaker.CircuitBreaker) (t : Z) : Prop :=
  match gobreaker.expiry b with
  | None => True
  | Some x => t <= x
  end.

(** The breaker after the failure, recorded at [t], of a request that it
    admitted while closed. *)
Definition after_failure (b : gobreaker.CircuitBreaker) (t : Z)
    : gobreaker.CircuitBreaker :=
  gobreaker.onFailure
    (gobreaker.with_counts b (gobreaker.Counts_onRequest (gobreaker.counts b)))
    gobreaker.StateClosed t.

(** What the goroutine of the timeout guard puts on the channel when the
    call behaves as [b]: its value and error, or the error made of the
    recovered panic. *)
Definition handed_over (b : Behaviour) : any * option error :=
  match b with
  | Returns _ v e => (v, e)
  | Panics _ r => (None, Some (errorString ("operation panicked: " +:+ r)))
  | Hangs => (None, None)
  end.

(** The call came back to its caller: it neither panicked nor hung. *)
Definition quiet {A} (out : Outcome A) : Prop :=
  match out with
  | Return _ | OutOfFuel => True
  | Panic _ | Hang => False
  end.

(** The breakers at the addresses below [n] exist. *)
Definition allocated (n : nat) (w : World) : Prop := (n <= length (heap w))%nat.

(** [m] comes back, and keeps the breakers in place, wherever it runs. *)
Definition calm (n : nat) {A} (m : M A) : Prop :=
  forall w, allocated n w -> quiet (fst (m w)) /\ allocated n (snd (m w)).

(** [m] returns, and keeps the breakers in place, wherever it runs. *)
Definition steady (n : nat) {A} (m : M A) : Prop :=
  forall w, allocated n w -> exists a w', m w = (Return a, w') /\ allocated n w'.

(** The time a call that behaved as [b] took. *)
Definition took (b : Behaviour) : Z :=
  match b with
  | Returns d _ _ => Z.of_N d
  | Panics d _ => Z.of_N d
  | Hangs => 0
  end.

(** The time spent inside the calls of a log. *)
Definition busy (l : list Behaviour) : Z := foldr (fun b acc => took b + acc) 0 l.

(** The call has no result within [timeout] of its start. *)
Definition slower_than (timeout : Z) (b : Behaviour) : Prop :=
  match b with
  | Returns d _ _ => timeout < Z.of_N d
  | Panics d _ => timeout < Z.of_N d
  | Hangs => True
  end.


(** The call returned an error that is neither marked permanent nor a
    rejection of a breaker. *)
Definition fails_transiently (b : Behaviour) : Prop :=
  match b with
  | Returns _ _ (Some e) =>
      As_PermanentError e = None /\ IsErrorPermanent (Some e) = false
  | _ => False
  end.

(** [val] is one of the duration strings of the configuration. *)
Definition configured_duration (cfg : Config) (val : string) : Prop :=
  (exists name, Timeouts cfg !! name = Some val)
  \/ (exists name r, Retries cfg !! name = Some r /\ Retry_Duration r = val)
  \/ (exists name c,
        CircuitBreakers cfg !! name = Some c /\
        (CircuitBreaker_Interval c = val \/ CircuitBreaker_Timeout c = val)).

(** The breaker [b] is as [newCircuitBreaker] builds it from [c]: closed,
    nothing counted, tripping at the configured number of failures. *)
Definition built_from (c : CircuitBreaker) (b : gobreaker.CircuitBreaker) : Prop :=
  gobreaker.state b = gobreaker.StateClosed
  /\ gobreaker.counts b = gobreaker.Counts_clear
  /\ gobreaker.readyToTrip b = tripFn (wrap_uint32 (CircuitBreaker_Failures c)).

(** From [w] to [w']: time has not gone back, the log has only grown, and
    the breakers at the addresses in [keep] are as they were. *)
Definition later (keep : nat -> Prop) (w w' : World) : Prop :=
  now w <= now w'
  /\ (exists new, log w' = new ++ log w)
  /\ length (heap w') = length (heap w)
  /\ (forall a, keep a -> heap w' !! a = heap w !! a).

End wording.

(** ** Sample operations, policies, breakers and configurations *)

Module examples.

Import goresilience.

Definition w0 : World :=
  {| now := 1000 * time.Second; log := []; heap := [];
     sched := fun _ => true; ties := 0 |}.

Definition always_fails : Script :=
  fun _ _ _ => Returns 0 None (Some (errorString "test error")).

(** Fails twice, then succeeds. *)
Definition flaky : Script :=
  fun _ _ i =>
    if (i <? 2)%nat then Returns 0 None (Some (errorString "temporary failure"))
    else Returns 0 (Some "success") None.

(** Fails with an error built by [backoff.Permanent]. *)
Definition permanent_failure : Script :=
  fun _ _ _ => Returns 0 None (Some (PermanentError (errorString "fatal"))).

Definition five_seconds : Script :=
  fun _ _ _ => Returns 5000000000 (Some "ok") None.

Definition two_seconds : Script :=
  fun _ _ _ => Returns 2000000000 (Some "") None.

Definition panics : Script := fun _ _ _ => Panics 0 "boom".

Definition no_policy : Policy :=
  {| Policy_timeout := 0; Policy_retry := None; Policy_circuitBreaker := None |}.

Definition retry3 : Policy :=
  {| Policy_timeout := 0;
     Policy_retry := Some {| retry_duration := 2 * time.Second;
                             retry_maxRetries := 3 |};
     Policy_circuitBreaker := None |}.

(** The retry of a configuration with [Duration: "-1ns"]. *)
Definition retry3_minus_1ns : Policy :=
  {| Policy_timeout := 0;
     Policy_retry := Some {| retry_duration := -1; retry_maxRetries := 3 |};
     Policy_circuitBreaker := None |}.

Definition timeout1 : Policy :=
  {| Policy_timeout := 1 * time.Second; Policy_retry := None;
     Policy_circuitBreaker := None |}.

Definition timeout10 : Policy :=
  {| Policy_timeout := 10 * time.Second; Policy_retry := None;
     Policy_circuitBreaker := None |}.

Definition breaker_only : Policy :=
  {| Policy_timeout := 0; Policy_retry := None;
     Policy_circuitBreaker := Some {| breaker := 0 |} |}.

Definition breaker_retry3 : Policy :=
  {| Policy_timeout := 0;
     Policy_retry := Some {| retry_duration := 10 * time.Millisecond;
                             retry_maxRetries := 3 |};
     Policy_circuitBreaker := Some {| breaker := 0 |} |}.

Definition all_guards : Policy :=
  {| Policy_timeout := 1 * time.Second;
     Policy_retry := Some {| retry_duration := 10 * time.Millisecond;
                             retry_maxRetries := 3 |};
     Policy_circuitBreaker := Some {| breaker := 0 |} |}.

Definition settings (failures interval : Z) : gobreaker.Settings :=
  {| gobreaker.Name := "test_cb"; gobreaker.MaxRequests := 1;
     gobreaker.Interval := interval; gobreaker.Timeout := 5 * time.Second;
     gobreaker.ReadyToTrip := Some (tripFn failures) |}.

(** A new breaker that trips at [failures] and resets its counters every
    [interval], alone on the heap. *)
Definition w_closed (failures interval : Z) : World :=
  set_heap [gobreaker.NewCircuitBreaker (settings failures interval) (now w0)] w0.

Definition open_breaker : gobreaker.CircuitBreaker :=
  {| gobreaker.name := "test_cb"; gobreaker.maxRequests := 1;
     gobreaker.interval := 10 * time.Second;
     gobreaker.timeout := 5 * time.Second;
     gobreaker.readyToTrip := tripFn 2;
     gobreaker.state := gobreaker.StateOpen; gobreaker.generation := 2;
     gobreaker.counts := gobreaker.Counts_clear;
     gobreaker.expiry := Some (now w0 + 5 * time.Second) |}.

Definition w_open : World := set_heap [open_breaker] w0.

(** The caller cancels one second from now. *)
Definition cancelled_in_1s : context.Context :=
  {| context.deadline := None;
     context.cancel_at := Some (now w0 + 1 * time.Second) |}.

(** A target that names a timeout, a retry and a breaker nobody defined. *)
Definition cfg_unresolved : Config :=
  {| Timeouts := ∅; Retries := ∅; CircuitBreakers := ∅;
     Targets := {[ "test_target" :=
                     {| PolicyNames_Timeout := "missing";
                        PolicyNames_Retry := "missing";
                        PolicyNames_CircuitBreaker := "missing" |} ]} |}.

Definition cfg_invalid_retry : Config :=
  {| Timeouts := ∅;
     Retries := {[ "invalid_retry" :=
                     {| Retry_Duration := "invalid_duration";
                        Retry_MaxRetries := 3 |} ]};
     CircuitBreakers := ∅;
     Targets := {[ "test_target" :=
                     {| PolicyNames_Timeout := "";
                        PolicyNames_Retry := "invalid_retry";
                        PolicyNames_CircuitBreaker := "" |} ]} |}.

Definition empty_provider : Provider :=
  {| timeouts := ∅; retries := ∅; circuitBreakers := ∅; targets := ∅ |}.

(** The configurations of the repository's tests. *)
Definition cfg_tests : Config :=
  {| Timeouts := {[ "long" := "10s"; "mid" := "8s"; "short" := "1s" ]};
     Retries := {[ "example_retry" :=
                     {| Retry_Duration := "2s"; Retry_MaxRetries := 3 |};
                   "success_retry" :=
                     {| Retry_Duration := "100ms"; Retry_MaxRetries := 5 |};
                   "no_retry" :=
                     {| Retry_Duration := "100ms"; Retry_MaxRetries := 0 |} ]};
     CircuitBreakers :=
       {[ "test_cb" := {| CircuitBreaker_MaxRequests := 1;
                          CircuitBreaker_Interval := "10s";
                          CircuitBreaker_Timeout := "2s";
                          CircuitBreaker_Failures := 2 |} ]};
     Targets :=
       {[ "timeout_target" := {| PolicyNames_Timeout := "short";
                                 PolicyNames_Retry := "";
                                 PolicyNames_CircuitBreaker := "" |};
          "retry_target" := {| PolicyNames_Timeout := "";
                               PolicyNames_Retry := "example_retry";
                               PolicyNames_CircuitBreaker := "" |};
          "success_target" := {| PolicyNames_Timeout := "";
                                 PolicyNames_Retry := "success_retry";
                                 PolicyNames_CircuitBreaker := "" |};
          "no_retry_target" := {| PolicyNames_Timeout := "";
                                  PolicyNames_Retry := "no_retry";
                                  PolicyNames_CircuitBreaker := "" |};
          "breaker_target" := {| PolicyNames_Timeout := "";
                                 PolicyNames_Retry := "";
                                 PolicyNames_CircuitBreaker := "test_cb" |};
          "guarded_target" := {| PolicyNames_Timeout := "short";
                                 PolicyNames_Retry := "";
                                 PolicyNames_CircuitBreaker := "test_cb" |} ]} |}.

(** The outcomes of [n] calls in a row, and the world after them. *)
Fixpoint run_n (n : nat) (e : M (any * option error)) (w : World)
    : list (Outcome (any * option error)) * World :=
  match n with
  | O => ([], w)
  | S n' =>
      let '(o, w1) := e w in
      let '(os, w2) := run_n n' e w1 in
      (o :: os, w2)
  end.

(** A test: build the provider, take the policy of the target, build the
    executor and call it [n] times with the operation; the outcomes and
    the number of times the operation ran. *)
Definition replay (cfg : Config) (name : string) (fuel : nat) (s : Script)
    (n : nat) : option (list (Outcome (any * option error)) * nat) :=
  match FromConfig cfg w0 with
  | (Return (Ok p), w) =>
      let '(os, w') :=
        run_n n (NewExecWithPolicy fuel context.Background
                   (Some (Provider_Policy p name)) (call s)) w in
      Some (os, length (log w'))
  | _ => None
  end.

(** The retry of a configuration with [MaxRetries: -1]. *)
Definition retry_forever : Policy :=
  {| Policy_timeout := 0;
     Policy_retry := Some {| retry_duration := 10 * time.Millisecond;
                             retry_maxRetries := -1 |};
     Policy_circuitBreaker := None |}.

Definition timeout_retry3 : Policy :=
  {| Policy_timeout := 1 * time.Second;
     Policy_retry := Some {| retry_duration := 10 * time.Millisecond;
                             retry_maxRetries := 3 |};
     Policy_circuitBreaker := None |}.

Definition timeout_breaker : Policy :=
  {| Policy_timeout := 1 * time.Second; Policy_retry := None;
     Policy_circuitBreaker := Some {| breaker := 0 |} |}.

(** Fails with the rejection of a breaker further down, wrapped. *)
Definition downstream_rejection : Script :=
  fun _ _ _ => Returns 0 None (Some (wrapError "downstream: " ErrOpenState)).

(** Two new breakers side by side. *)
Definition w_two_closed : World :=
  set_heap [gobreaker.NewCircuitBreaker (settings 2 0) (now w0);
            gobreaker.NewCircuitBreaker (settings 2 0) (now w0)] w0.

End examples.

(** * Proofs *)

Import goresilience wording examples.

(** ** The repository's tests, replayed on the model *)

Section Tests.

(* TestResilienceTimeout *)
Example TestResilienceTimeout :
  replay cfg_tests "timeout_target" 1 two_seconds 1 =
  Some ([Return (None, Some DeadlineExceeded)], 1%nat).
Proof. vm_compute. reflexivity. Qed.

(* TestResilienceRetry: three retries, four attempts *)
Example TestResilienceRetry :
  replay cfg_tests "retry_target" 4 always_fails 1 =
  Some ([Return (None, Some (errorString "test error"))], 4%nat).
Proof. vm_compute. reflexivity. Qed.

(* TestRetryWithSuccessAfterFailures *)
Example TestRetryWithSuccessAfterFailures :
  replay cfg_tests "success_target" 6 flaky 1 =
  Some ([Return (Some "success", None)], 3%nat).
Proof. vm_compute. reflexivity. Qed.

(* TestRetryWithZeroMaxRetries *)
Example TestRetryWithZeroMaxRetries :
  replay cfg_tests "no_retry_target" 1 always_fails 1 =
  Some ([Return (None, Some (errorString "test error"))], 1%nat).
Proof. vm_compute. reflexivity. Qed.

(* TestRetryWithNoTargetConfig *)
Example TestRetryWithNoTargetConfig :
  replay cfg_tests "non_existent_target" 1 always_fails 1 =
  Some ([Return (None, Some (errorString "test error"))], 1%nat).
Proof. vm_compute. reflexivity. Qed.

(* TestRetryWithInvalidDuration *)
Example TestRetryWithInvalidDuration :
  exists e w, FromConfig cfg_invalid_retry w0 = (Return (Err e), w).
Proof. eexists _, _. vm_compute. reflexivity. Qed.

(* TestCircuitBreakerTripping: the breaker trips at
   the second failure, the third and the fourth call do not reach the
   operation *)
Example TestCircuitBreakerTripping :
  replay cfg_tests "breaker_target" 1 always_fails 4 =
  Some ([Return (None, Some (errorString "test error"));
         Return (None, Some (errorString "test error"));
         Return (None, Some ErrOpenState);
         Return (None, Some ErrOpenState)], 2%nat).
Proof. vm_compute. reflexivity. Qed.

(* A call that times out inside the breaker is a failure to the breaker:
   two of them trip it. *)
Example timeout_counts_as_breaker_failure :
  replay cfg_tests "guarded_target" 1 two_seconds 3 =
  Some ([Return (None, Some DeadlineExceeded);
         Return (None, Some DeadlineExceeded);
         Return (None, Some ErrOpenState)], 2%nat).
Proof. vm_compute. reflexivity. Qed.

End Tests.

(** ** Errors *)

Section ErrorChains.

(** For the two rejection errors, which are plain values without methods,
    [errors.Is] is membership in the unwrap chain. *)
Lemma is_chain_sentinel e t :
  sentinel t -> errors.is_chain e t = true <-> In t (errors.chain e).
Proof.
  intros Ht. induction e; simpl;
    destruct Ht as [-> | ->]; simpl; intuition (auto; discriminate).
Qed.

End ErrorChains.

Lemma IsErrorPermanent_chain (err : option error) :
    IsErrorPermanent err = true <->
    exists e, err = Some e /\
      (In ErrOpenState (errors.chain e) \/ In ErrTooManyRequests (errors.chain e)).
Proof.
  unfold IsErrorPermanent. rewrite orb_true_iff. destruct err as [e|]; simpl.
  - rewrite !is_chain_sentinel by (red; auto). split.
    + intros H. exists e. auto.
    + intros (e' & [= <-] & H). exact H.
  - split; [intros [H|H]; discriminate | intros (e & H & _); discriminate].
Qed.

(** ** Parsing integers and durations *)

Section Strconv.
Import strconv.

Lemma pow2_64 : 2 ^ 64 = 18446744073709551616.
Proof. reflexivity. Qed.
Lemma pow2_63 : 2 ^ 63 = 9223372036854775808.
Proof. reflexivity. Qed.
Lemma maxUint64_val : maxUint64 = 18446744073709551615.
Proof. reflexivity. Qed.
Lemma cutoff_val : maxUint64 / 10 + 1 = 1844674407370955162.
Proof. reflexivity. Qed.

Lemma is_digit_val c : is_digit c = true -> 0 <= digit_val c <= 9.
Proof. unfold is_digit, digit_val. rewrite andb_true_iff. lia. Qed.

Lemma decimal_value_ge s : forall n v,
  0 <= n -> decimal_value s n = Some v -> n <= v.
Proof.
  induction s as [|c s IH]; simpl; intros n v Hn H.
  - injection H as <-. lia.
  - destruct (is_digit c) eqn:Hc; [|discriminate].
    apply is_digit_val in Hc. apply IH in H; lia.
Qed.

Lemma ParseUint_loop_spec s : forall n,
  0 <= n <= maxUint64 ->
  match decimal_value s n with
  | None => exists e, ParseUint_loop s n = Err e
  | Some v => ParseUint_loop s n = if v <=? maxUint64 then Ok v else Err ErrRange
  end.
Proof.
  induction s as [|c s IH]; simpl; intros n Hn.
  - destruct (Z.leb_spec n maxUint64); [reflexivity | lia].
  - destruct (is_digit c) eqn:Hc; [|eauto].
    pose proof (is_digit_val c Hc) as Hd.
    rewrite cutoff_val. rewrite maxUint64_val in *.
    destruct (Z.leb_spec 1844674407370955162 n) as [Hcut|Hcut].
    + destruct (decimal_value s (n * 10 + digit_val c)) as [v|] eqn:Hv; [|eauto].
      apply decimal_value_ge in Hv; [|lia].
      destruct (Z.leb_spec v 18446744073709551615); [lia | reflexivity].
    + unfold wrap_uint64. rewrite pow2_64.
      destruct (Z_lt_le_dec (n * 10 + digit_val c) 18446744073709551616) as [Hs|Hl].
      * rewrite Z.mod_small by lia.
        destruct (Z.ltb_spec (n * 10 + digit_val c) (n * 10)); [lia|].
        destruct (Z.ltb_spec 18446744073709551615 (n * 10 + digit_val c)); [lia|].
        simpl. apply IH. lia.
      * assert (Hm : (n * 10 + digit_val c) mod 18446744073709551616
                     = n * 10 + digit_val c - 18446744073709551616).
        { symmetry. apply Z.mod_unique with 1; lia. }
        rewrite Hm.
        destruct (Z.ltb_spec (n * 10 + digit_val c - 18446744073709551616) (n * 10));
          [|lia]. simpl.
        destruct (decimal_value s (n * 10 + digit_val c)) as [v|] eqn:Hv; [|eauto].
        apply decimal_value_ge in Hv; [|lia].
        destruct (Z.leb_spec v 18446744073709551615); [lia | reflexivity].
Qed.

Lemma ParseUint_spec s :
  match unsigned_decimal s with
  | None => exists e, ParseUint s = Err e
  | Some v => ParseUint s = if v <=? maxUint64 then Ok v else Err ErrRange
  end.
Proof.
  destruct s as [|c s]; [simpl; eauto|].
  change (unsigned_decimal (String c s)) with (decimal_value (String c s) 0).
  change (ParseUint (String c s)) with (ParseUint_loop (String c s) 0).
  apply ParseUint_loop_spec. rewrite maxUint64_val. lia.
Qed.

Lemma unsigned_decimal_nonneg s v : unsigned_decimal s = Some v -> 0 <= v.
Proof.
  destruct s as [|c s]; [discriminate|].
  change (unsigned_decimal (String c s)) with (decimal_value (String c s) 0).
  intros H. apply decimal_value_ge in H; lia.
Qed.

Lemma ParseInt_tail (neg : bool) s1 i :
  match ParseUint s1 with
  | Err ErrSyntax => Err ErrSyntax
  | Err ErrRange => Err ErrRange
  | Ok un =>
      if negb neg && (2 ^ 63 <=? un) then Err ErrRange
      else if neg && (2 ^ 63 <? un) then Err ErrRange
      else Ok (if neg then - un else un)
  end = Ok i
  <-> (exists v, unsigned_decimal s1 = Some v /\ i = if neg then - v else v)
      /\ in_int64 i.
Proof.
  unfold in_int64. rewrite pow2_63.
  pose proof (ParseUint_spec s1) as H.
  destruct (unsigned_decimal s1) as [v|] eqn:Hv.
  - pose proof (unsigned_decimal_nonneg _ _ Hv) as Hv0.
    rewrite H, maxUint64_val. clear H.
    destruct (Z.leb_spec v 18446744073709551615) as [Hle|Hgt].
    + destruct neg; simpl.
      * destruct (Z.ltb_spec 9223372036854775808 v); split.
        -- discriminate.
        -- intros [(v' & [= <-] & ->) ?]. lia.
        -- intros [= <-]. split; [eauto | lia].
        -- intros [(v' & [= <-] & ->) ?]. reflexivity.
      * destruct (Z.leb_spec 9223372036854775808 v); split.
        -- discriminate.
        -- intros [(v' & [= <-] & ->) ?]. lia.
        -- intros [= <-]. split; [eauto | lia].
        -- intros [(v' & [= <-] & ->) ?]. reflexivity.
    + split; [discriminate|].
      intros [(v' & [= <-] & ->) ?]. destruct neg; lia.
  - destruct H as [e ->]. split.
    + destruct e; discriminate.
    + intros [(v' & [=] & _) _].
Qed.

(** [ParseInt] accepts exactly the bare integers that fit 64 bits. *)
Lemma ParseInt_spec s i :
  ParseInt s = Ok i <-> bare_integer s = Some i /\ in_int64 i.
Proof.
  destruct s as [|c s]; [simpl; intuition discriminate|].
  unfold ParseInt, bare_integer.
  destruct (bool_decide (c = "-"%char)) eqn:Hneg.
  - rewrite orb_true_r. cbv zeta. rewrite (ParseInt_tail true).
    destruct (unsigned_decimal s) as [v|]; simpl; split.
    + intros [(v' & [= <-] & ->) ?]. auto.
    + intros [[= <-] ?]. eauto.
    + intros [(v' & [=] & _) _].
    + intros [[=] _].
  - rewrite orb_false_r. cbv zeta.
    destruct (bool_decide (c = "+"%char)) eqn:Hpos; rewrite (ParseInt_tail false).
    + destruct (unsigned_decimal s) as [v|]; simpl; split.
      * intros [(v' & [= <-] & ->) ?]. auto.
      * intros [[= <-] ?]. eauto.
      * intros [(v' & [=] & _) _].
      * intros [[=] _].
    + destruct (unsigned_decimal (String c s)) as [v|]; simpl; split.
      * intros [(v' & [= <-] & ->) ?]. auto.
      * intros [[= <-] ?]. eauto.
      * intros [(v' & [=] & _) _].
      * intros [[=] _].
Qed.
End Strconv.

Section Durations.
Import strconv time.

Lemma wrap_int64_small z : in_int64 z -> wrap_int64 z = z.
Proof.
  unfold in_int64, wrap_int64. rewrite pow2_63, pow2_64. intros H.
  rewrite Z.mod_small; lia.
Qed.

Lemma leadingInt_digits s : forall x v,
  decimal_value s x = Some v ->
  leadingInt s x = None \/ leadingInt s x = Some (v, EmptyString).
Proof.
  induction s as [|c s IH]; simpl; intros x v H.
  - right. congruence.
  - destruct (is_digit c); [|discriminate].
    destruct (2 ^ 63 / 10 <? x); [auto|].
    destruct (2 ^ 63 <? x * 10 + digit_val c); [auto|]. apply IH, H.
Qed.

Lemma unsigned_decimal_first_digit c s v :
  unsigned_decimal (String c s) = Some v -> is_digit c = true.
Proof. simpl. destruct (is_digit c); [reflexivity | discriminate]. Qed.

(** A run of digits without a unit is no duration. *)
Lemma ParseDuration_loop_digits fuel orig s v d :
  unsigned_decimal s = Some v ->
  exists e, ParseDuration_loop (S fuel) orig s d = Err e.
Proof.
  intros Hv. destruct s as [|c s]; [discriminate|].
  pose proof (unsigned_decimal_first_digit _ _ _ Hv) as Hc.
  change (unsigned_decimal (String c s)) with (decimal_value (String c s) 0) in Hv.
  cbn [ParseDuration_loop]. rewrite Hc, orb_true_r. cbn [negb].
  destruct (leadingInt_digits _ _ _ Hv) as [-> | ->]; [eauto|].
  cbn. eauto.
Qed.

Lemma ParseDuration_digits s v orig :
  unsigned_decimal s = Some v -> v <> 0 ->
  bool_decide (s = "0") = false /\ bool_decide (s = "") = false /\
  exists e, ParseDuration_loop (String.length s) orig s 0 = Err e.
Proof.
  intros Hv Hne. split; [|split].
  - apply bool_decide_eq_false_2. intros ->. apply Hne.
    vm_compute in Hv. congruence.
  - apply bool_decide_eq_false_2. intros ->. discriminate.
  - destruct s as [|c s]; [discriminate|]. cbn [String.length].
    apply (ParseDuration_loop_digits _ _ _ _ _ Hv).
Qed.

Lemma ParseDuration_bare_integer s i :
  bare_integer s = Some i -> i <> 0 -> exists e, ParseDuration s = Err e.
Proof.
  destruct s as [|c s]; [discriminate|].
  unfold bare_integer, ParseDuration.
  destruct (bool_decide (c = "-"%char)) eqn:Hneg; cbn [orb].
  - destruct (unsigned_decimal s) as [v|] eqn:Hv; [|discriminate].
    intros [= <-] Hi.
    destruct (ParseDuration_digits s v (String c s) Hv) as (-> & -> & e & ->);
      [lia | eauto].
  - destruct (bool_decide (c = "+"%char)) eqn:Hpos.
    + intros Hv Hi.
      destruct (ParseDuration_digits s i (String c s) Hv Hi) as (-> & -> & e & ->).
      eauto.
    + intros Hv Hi.
      destruct (ParseDuration_digits _ i (String c s) Hv Hi) as (-> & -> & e & ->).
      eauto.
Qed.

Lemma ParseDuration_starts_malformed s :
  starts_malformed s -> ParseDuration s = Err (invalid_duration s).
Proof.
  destruct s as [|c s]; [intros []|]. intros (H1 & H2 & H3 & H4).
  unfold ParseDuration.
  rewrite (bool_decide_eq_false_2 _ H1), (bool_decide_eq_false_2 _ H2). cbn [orb].
  rewrite bool_decide_eq_false_2.
  2:{ intros [= -> ->]. discriminate H4. }
  rewrite bool_decide_eq_false_2 by discriminate.
  cbn [String.length ParseDuration_loop].
  rewrite (bool_decide_eq_false_2 _ H3), H4. reflexivity.
Qed.

Lemma bare_integer_starts_malformed s :
  starts_malformed s -> bare_integer s = None.
Proof.
  destruct s as [|c s]; [intros []|]. intros (H1 & H2 & H3 & H4).
  unfold bare_integer.
  rewrite (bool_decide_eq_false_2 _ H1), (bool_decide_eq_false_2 _ H2).
  simpl. rewrite H4. reflexivity.
Qed.

Lemma ParseInt_not_bare s :
  bare_integer s = None -> exists e, ParseInt s = Err e.
Proof.
  intros H. destruct (ParseInt s) as [i|e] eqn:Hp; [|eauto].
  apply ParseInt_spec in Hp. destruct Hp as [Hp _]. congruence.
Qed.

Lemma ParseInt_out_of_range s i :
  bare_integer s = Some i -> ~ in_int64 i -> exists e, ParseInt s = Err e.
Proof.
  intros H Hr. destruct (ParseInt s) as [j|e] eqn:Hp; [|eauto].
  apply ParseInt_spec in Hp. destruct Hp as [Hp Hj]. congruence.
Qed.

End Durations.

Section Fuel.
Import strconv time.

Lemma leadingInt_length s : forall x v r,
  leadingInt s x = Some (v, r) -> (String.length r <= String.length s)%nat.
Proof.
  induction s as [|c s IH]; simpl; intros x v r H.
  - injection H as <- <-. simpl. lia.
  - destruct (is_digit c).
    + destruct (2 ^ 63 / 10 <? x); [discriminate|].
      destruct (2 ^ 63 <? x * 10 + digit_val c); [discriminate|].
      apply IH in H. lia.
    + injection H as <- <-. simpl. lia.
Qed.

Lemma leadingFraction_length s : forall x sc o f sc' r,
  leadingFraction s x sc o = (f, sc', r) ->
  (String.length r <= String.length s)%nat.
Proof.
  induction s as [|c s IH]; simpl; intros x sc o f sc' r H.
  - injection H as <- <- <-. simpl. lia.
  - destruct (is_digit c).
    + destruct o; [apply IH in H; lia|].
      destruct ((2 ^ 63 - 1) / 10 <? x); [apply IH in H; lia|].
      destruct (2 ^ 63 <? x * 10 + digit_val c); apply IH in H; lia.
    + injection H as <- <- <-. simpl. lia.
Qed.

Lemma span_unit_length s : forall u r,
  span_unit s = (u, r) ->
  String.length s = (String.length u + String.length r)%nat.
Proof.
  induction s as [|c s IH]; simpl; intros u r H.
  - injection H as <- <-. reflexivity.
  - destruct (bool_decide (c = "."%char) || is_digit c).
    + injection H as <- <-. reflexivity.
    + destruct (span_unit s) as [u0 r0]. injection H as <- <-.
      simpl. rewrite (IH u0 r0 eq_refl). reflexivity.
Qed.

(** The rounds of [ParseDuration_loop] never outnumber the bytes. *)
Lemma ParseDuration_loop_fuel orig : forall n fuel s d,
  (String.length s <= n)%nat -> (n <= fuel)%nat ->
  ParseDuration_loop fuel orig s d = ParseDuration_loop n orig s d.
Proof.
  induction n as [|n IH]; intros fuel s d Hs Hf.
  - destruct s; [|simpl in Hs; lia]. destruct fuel; reflexivity.
  - destruct s as [|c0 s0]; [destruct fuel; reflexivity|].
    destruct fuel as [|fuel]; [lia|].
    cbn [ParseDuration_loop].
    destruct (negb (bool_decide (c0 = "."%char) || is_digit c0)); [reflexivity|].
    destruct (leadingInt (String c0 s0) 0) as [[v s1]|] eqn:Hli; [|reflexivity].
    apply leadingInt_length in Hli.
    set (pre := negb (String.length (String c0 s0) =? String.length s1)%nat).
    assert (Hstep : forall f sc s2 post,
      (String.length s2 <= String.length s1)%nat ->
      (if negb pre && negb post then Err (invalid_duration orig)
       else let '(u, s3) := span_unit s2 in
         match u with
         | EmptyString =>
             Err (errorString ("time: missing unit in duration " +:+ quote orig))
         | String _ _ =>
             match unitMap u with
             | None => Err (errorString ("time: unknown unit " +:+ quote u +:+
                                         " in duration " +:+ quote orig))
             | Some unit =>
                 if 2 ^ 63 / unit <? v then Err (invalid_duration orig)
                 else
                   let v1 := v * unit in
                   let v2 := if 0 <? f
                             then wrap_uint64 (v1 + fraction_of_unit f sc unit)
                             else v1 in
                   if (0 <? f) && (2 ^ 63 <? v2) then Err (invalid_duration orig)
                   else
                     let d' := wrap_uint64 (d + v2) in
                     if 2 ^ 63 <? d' then Err (invalid_duration orig)
                     else ParseDuration_loop fuel orig s3 d'
             end
         end) =
      (if negb pre && negb post then Err (invalid_duration orig)
       else let '(u, s3) := span_unit s2 in
         match u with
         | EmptyString =>
             Err (errorString ("time: missing unit in duration " +:+ quote orig))
         | String _ _ =>
             match unitMap u with
             | None => Err (errorString ("time: unknown unit " +:+ quote u +:+
                                         " in duration " +:+ quote orig))
             | Some unit =>
                 if 2 ^ 63 / unit <? v then Err (invalid_duration orig)
                 else
                   let v1 := v * unit in
                   let v2 := if 0 <? f
                             then wrap_uint64 (v1 + fraction_of_unit f sc unit)
                             else v1 in
                   if (0 <? f) && (2 ^ 63 <? v2) then Err (invalid_duration orig)
                   else
                     let d' := wrap_uint64 (d + v2) in
                     if 2 ^ 63 <? d' then Err (invalid_duration orig)
                     else ParseDuration_loop n orig s3 d'
             end
         end)).
    { intros f sc s2 post Hs2.
      destruct (negb pre && negb post); [reflexivity|].
      destruct (span_unit s2) as [u s3] eqn:Hu. apply span_unit_length in Hu.
      destruct u as [|cu u]; [reflexivity|].
      destruct (unitMap (String cu u)) as [unit|]; [|reflexivity].
      destruct (2 ^ 63 / unit <? v); [reflexivity|]. cbv zeta.
      destruct ((0 <? f) && _); [reflexivity|].
      destruct (2 ^ 63 <? _); [reflexivity|].
      apply IH; simpl in *; lia. }
    destruct s1 as [|c1 s1'].
    + apply Hstep. lia.
    + destruct (bool_decide (c1 = "."%char)).
      * destruct (leadingFraction s1' 0 (float64_of_small 1) false)
          as [[f sc] s2] eqn:Hlf.
        apply leadingFraction_length in Hlf. apply Hstep. simpl. lia.
      * apply Hstep. lia.
Qed.

End Fuel.

(** ** The duration resolver and the permanent-error predicate *)

(** C6, as amended: [IsErrorPermanent err] is true exactly when the
    open-state error or the too-many-requests error is [err] itself or is
    reached from [err] by unwrapping; it is false for [nil]; and for an
    error that wraps nothing it is true exactly for the two errors
    themselves. *)
Theorem IsErrorPermanent_exactly_rejections_on_chain :
  (forall err,
     IsErrorPermanent err = true <->
     exists e, err = Some e /\
       (In ErrOpenState (errors.chain e) \/ In ErrTooManyRequests (errors.chain e)))
  /\ IsErrorPermanent None = false
  /\ (forall e, errors.chain e = [e] ->
        (IsErrorPermanent (Some e) = true <->
         e = ErrOpenState \/ e = ErrTooManyRequests)).
Proof.
  split; [exact IsErrorPermanent_chain|]. split; [reflexivity|].
  intros e He. rewrite IsErrorPermanent_chain. split.
  - intros (e' & [= <-] & H). rewrite He in H. simpl in H.
    destruct H as [[H|[]]|[H|[]]]; auto.
  - intros H. exists e. split; [reflexivity|]. rewrite He. simpl.
    destruct H as [-> | ->]; auto.
Qed.

Lemma IsErrorPermanent_exactly_rejections_on_chain_witness :
  IsErrorPermanent (Some (errorString "test error")) = true <->
  errorString "test error" = ErrOpenState \/
  errorString "test error" = ErrTooManyRequests.
Proof.
  apply (proj2 (proj2 IsErrorPermanent_exactly_rejections_on_chain)).
  reflexivity.
Defined.

(** C6 as stated fails: an error that wraps the open-state error is
    another error value, and the predicate is true of it.  The breaker
    guard itself builds such a value with [backoff.Permanent]. *)
Lemma IsErrorPermanent_true_of_wrapping_error :
  ~ (forall err,
       IsErrorPermanent err = true <->
       err = Some ErrOpenState \/ err = Some ErrTooManyRequests).
Proof.
  intros H.
  destruct (proj1 (H (backoff.Permanent (Some ErrOpenState))) eq_refl)
    as [E|E]; discriminate E.
Qed.

(** C8, as amended: [parseDuration] gives zero for the empty string; for
    a bare integer whose count of microseconds is a [Duration], that
    count; for a bare integer that does not fit 64 bits, an error; for
    text that is no bare integer, what [time.ParseDuration] gives, as
    for "100ms", "2s" and "1000ns"; and an error for text that starts
    with none of a sign, a digit and a point. *)
Theorem parseDuration_resolves :
  parseDuration "" = Ok 0
  /\ (forall s i, bare_integer s = Some i -> fits_Duration_us i ->
        parseDuration s = Ok (i * time.Microsecond))
  /\ (forall s i, bare_integer s = Some i -> ~ in_int64 i ->
        exists e, parseDuration s = Err e)
  /\ (parseDuration "100ms" = Ok (100 * time.Millisecond)
      /\ parseDuration "2s" = Ok (2 * time.Second)
      /\ parseDuration "1000ns" = Ok (1000 * time.Nanosecond))
  /\ (forall s, s <> "" -> bare_integer s = None ->
        parseDuration s = time.ParseDuration s)
  /\ (forall s, starts_malformed s ->
        parseDuration s = Err (time.invalid_duration s)).
Proof.
  split; [reflexivity|]. split; [|split; [|split; [|split]]].
  - intros s i Hs Hi. unfold parseDuration.
    assert (s <> "") as Hne by (intros ->; discriminate).
    rewrite (bool_decide_eq_false_2 _ Hne).
    assert (in_int64 i) as Hi64.
    { unfold fits_Duration_us, in_int64, time.Microsecond, time.Nanosecond in *.
      lia. }
    rewrite (proj2 (ParseInt_spec s i) (conj Hs Hi64)).
    rewrite wrap_int64_small by exact Hi. reflexivity.
  - intros s i Hs Hi. unfold parseDuration.
    assert (s <> "") as Hne by (intros ->; discriminate).
    rewrite (bool_decide_eq_false_2 _ Hne).
    destruct (ParseInt_out_of_range s i Hs Hi) as [e ->].
    apply (ParseDuration_bare_integer s i Hs).
    intros ->. apply Hi. unfold in_int64. rewrite pow2_63. lia.
  - repeat split; vm_compute; reflexivity.
  - intros s Hne Hs. unfold parseDuration.
    rewrite (bool_decide_eq_false_2 _ Hne).
    destruct (ParseInt_not_bare s Hs) as [e ->]. reflexivity.
  - intros s Hs. unfold parseDuration.
    assert (s <> "") as Hne by (intros ->; destruct Hs).
    rewrite (bool_decide_eq_false_2 _ Hne).
    destruct (ParseInt_not_bare s (bare_integer_starts_malformed s Hs)) as [e ->].
    apply ParseDuration_starts_malformed, Hs.
Qed.

Lemma parseDuration_resolves_witness :
  parseDuration "250" = Ok (250 * time.Microsecond)
  /\ parseDuration "invalid_duration" =
     Err (time.invalid_duration "invalid_duration").
Proof.
  split.
  - apply (proj1 (proj2 parseDuration_resolves) "250" 250).
    + reflexivity.
    + unfold fits_Duration_us, in_int64, time.Microsecond, time.Nanosecond. lia.
  - apply (proj2 (proj2 (proj2 (proj2 (proj2 parseDuration_resolves))))).
    simpl. repeat split; discriminate.
Defined.

(** C8 as stated fails at the bare integer 9223372036854775808: it does
    not fit 64 bits, and [parseDuration] answers with an error, not with
    a count of microseconds. *)
Lemma parseDuration_rejects_bare_integer_beyond_int64 :
  bare_integer "9223372036854775808" = Some 9223372036854775808
  /\ parseDuration "9223372036854775808" =
     Err (errorString ("time: missing unit in duration " +:+
                       time.quote "9223372036854775808")).
Proof. split; vm_compute; reflexivity. Qed.

(** ** Calls of a scripted operation *)

Section Worlds.

Lemma call_outcome s ctx w :
  fst (call s ctx w) = outcome_of (s ctx (now w) (length (log w))).
Proof. unfold call. destruct (s ctx (now w) (length (log w))); reflexivity. Qed.

Lemma call_log s ctx w :
  log (snd (call s ctx w)) = s ctx (now w) (length (log w)) :: log w.
Proof. unfold call. destruct (s ctx (now w) (length (log w))); reflexivity. Qed.

Lemma call_heap s ctx w : heap (snd (call s ctx w)) = heap w.
Proof. unfold call. destruct (s ctx (now w) (length (log w))); reflexivity. Qed.

Lemma call_now s ctx w : now w <= now (snd (call s ctx w)).
Proof. unfold call. destruct (s ctx (now w) (length (log w))); simpl; lia. Qed.

Lemma set_heap_id w : set_heap (heap w) w = w.
Proof. destruct w; reflexivity. Qed.

End Worlds.

(** ** Building a provider from a configuration *)

Section Construction.

Lemma configure_timeouts_Err l : forall acc,
  (exists e, configure_timeouts l acc = Err e) <->
  Exists (fun nv => invalid_duration_string (snd nv)) l.
Proof.
  unfold invalid_duration_string.
  induction l as [|[name val] l IH]; simpl; intros acc.
  - split; [intros [e He]; discriminate | intros H; inversion H].
  - rewrite Exists_cons. simpl. destruct (parseDuration val) as [t|e0]; simpl.
    + rewrite IH. intuition congruence.
    + split; eauto.
Qed.

Lemma newRetry_Err name r :
  (exists e, newRetry name r = Err e) <-> invalid_duration_string (Retry_Duration r).
Proof.
  unfold newRetry, invalid_duration_string.
  destruct (parseDuration (Retry_Duration r)); simpl; split; eauto;
    try discriminate. intros [e He]. discriminate.
Qed.

Lemma configure_retries_Err l : forall acc,
  (exists e, configure_retries l acc = Err e) <->
  Exists (fun nr => invalid_duration_string (Retry_Duration (snd nr))) l.
Proof.
  induction l as [|[name r] l IH]; simpl; intros acc.
  - split; [intros [e He]; discriminate | intros H; inversion H].
  - rewrite Exists_cons. simpl. rewrite <- (newRetry_Err name r).
    destruct (newRetry name r) as [t|e0]; simpl.
    + rewrite IH. split; [auto | intros [[e He]|H]; [discriminate | exact H]].
    + split; eauto.
Qed.

Lemma newCircuitBreaker_returns name c w :
  exists r w', newCircuitBreaker name c w = (Return r, w') /\
    (is_Err r = true <->
     invalid_duration_string (CircuitBreaker_Interval c) \/
     invalid_duration_string (CircuitBreaker_Timeout c)).
Proof.
  unfold newCircuitBreaker, invalid_duration_string.
  destruct (parseDuration (CircuitBreaker_Interval c)) as [i|e1]; simpl.
  - destruct (parseDuration (CircuitBreaker_Timeout c)) as [t|e2]; simpl.
    + eexists _, _. split; [reflexivity|]. simpl. intuition congruence.
    + eexists _, _. split; [reflexivity|]. simpl. intuition congruence.
  - eexists _, _. split; [reflexivity|]. simpl. intuition congruence.
Qed.

Lemma configure_circuitBreakers_returns l : forall acc w,
  exists r w', configure_circuitBreakers l acc w = (Return r, w') /\
    (is_Err r = true <->
     Exists (fun nc => invalid_duration_string (CircuitBreaker_Interval (snd nc)) \/
                       invalid_duration_string (CircuitBreaker_Timeout (snd nc))) l).
Proof.
  induction l as [|[name c] l IH]; simpl; intros acc w.
  - eexists _, _. split; [reflexivity|]. simpl.
    split; [discriminate | intros H; inversion H].
  - destruct (newCircuitBreaker_returns name c w) as (r & w1 & Hr & Hiff).
    unfold bind. rewrite Hr. setoid_rewrite Exists_cons. simpl.
    destruct r as [cb|e]; simpl in *.
    + destruct (IH (<[name:=cb]> acc) w1) as (r2 & w2 & -> & Hiff2).
      eexists _, _. split; [reflexivity|]. rewrite Hiff2.
      split; [auto | intros [H|H]; [apply Hiff in H; discriminate | exact H]].
    + eexists _, _. split; [reflexivity|]. simpl. intuition congruence.
Qed.

Lemma Exists_map_to_list {V} (m : gmap string V) (P : V -> Prop) :
  Exists (fun kv => P (snd kv)) (map_to_list m) <->
  exists k v, m !! k = Some v /\ P v.
Proof.
  rewrite Exists_exists. split.
  - intros ([k v] & Hin & HP). apply elem_of_map_to_list in Hin. eauto.
  - intros (k & v & Hm & HP). exists (k, v). split; [|exact HP].
    apply elem_of_map_to_list, Hm.
Qed.

Lemma has_invalid_duration_entries cfg :
  has_invalid_duration cfg <->
  (exists e, configure_timeouts (map_to_list (Timeouts cfg)) ∅ = Err e)
  \/ (exists e, configure_retries (map_to_list (Retries cfg)) ∅ = Err e)
  \/ Exists (fun nc => invalid_duration_string (CircuitBreaker_Interval (snd nc)) \/
                       invalid_duration_string (CircuitBreaker_Timeout (snd nc)))
       (map_to_list (CircuitBreakers cfg)).
Proof.
  unfold has_invalid_duration.
  rewrite configure_timeouts_Err, configure_retries_Err.
  rewrite (Exists_map_to_list (Timeouts cfg) invalid_duration_string).
  rewrite (Exists_map_to_list (Retries cfg)
             (fun r => invalid_duration_string (Retry_Duration r))).
  rewrite (Exists_map_to_list (CircuitBreakers cfg)
             (fun c => invalid_duration_string (CircuitBreaker_Interval c) \/
                       invalid_duration_string (CircuitBreaker_Timeout c))).
  reflexivity.
Qed.

End Construction.

(** ** The order of the guards *)

Section Composition.

Lemma NewExecutor_table fuel ctx p oper :
  NewExecutor fuel ctx (Some p) oper =
  match 0 <? Policy_timeout p, Policy_circuitBreaker p, Policy_retry p with
  | false, None, None => oper ctx
  | true, None, None => withTimeout p oper ctx
  | false, Some _, None => withCircuitBreaker p oper ctx
  | true, Some _, None => withCircuitBreaker p (withTimeout p oper) ctx
  | false, None, Some _ => withRetry fuel p ctx oper
  | true, None, Some _ => withRetry fuel p ctx (withTimeout p oper)
  | false, Some _, Some _ => withRetry fuel p ctx (withCircuitBreaker p oper)
  | true, Some _, Some _ =>
      withRetry fuel p ctx (withCircuitBreaker p (withTimeout p oper))
  end.
Proof.
  unfold NewExecutor.
  destruct (0 <? Policy_timeout p), (Policy_circuitBreaker p), (Policy_retry p);
    reflexivity.
Qed.

Lemma NewExecutor_no_guards fuel ctx p oper :
  no_guards p -> NewExecutor fuel ctx (Some p) oper = oper ctx.
Proof.
  intros (Ht & Hr & Hc). rewrite NewExecutor_table, Hr, Hc.
  destruct (Z.ltb_spec 0 (Policy_timeout p)); [lia | reflexivity].
Qed.

Lemma NewExecutor_unguarded fuel ctx policy s w :
  policy = None \/ (exists p, policy = Some p /\ no_guards p) ->
  let b := s ctx (now w) (length (log w)) in
  let '(out, w') := NewExecutor fuel ctx policy (call s) w in
  out = outcome_of b /\ log w' = b :: log w /\ heap w' = heap w.
Proof.
  intros Hp b.
  assert (NewExecutor fuel ctx policy (call s) = call s ctx) as ->.
  { destruct Hp as [-> | (p & -> & Hp)]; [reflexivity|].
    apply NewExecutor_no_guards, Hp. }
  pose proof (call_outcome s ctx w). pose proof (call_log s ctx w).
  pose proof (call_heap s ctx w).
  destruct (call s ctx w) as [out w']. auto.
Qed.

End Composition.

Section ProviderPolicy.

Lemma Provider_Policy_absent p name :
  targets p !! name = None -> Provider_Policy p name = no_policy.
Proof. unfold Provider_Policy. intros ->. reflexivity. Qed.

Lemma Provider_Policy_timeout_unresolved p name t :
  targets p !! name = Some t ->
  target_timeout t = "" \/ timeouts p !! target_timeout t = None ->
  Policy_timeout (Provider_Policy p name) = 0.
Proof.
  unfold Provider_Policy. intros -> [Ht|Ht]; simpl; rewrite Ht.
  - reflexivity.
  - destruct (bool_decide _); reflexivity.
Qed.

Lemma Provider_Policy_retry_unresolved p name t :
  targets p !! name = Some t ->
  target_retry t = "" \/ retries p !! target_retry t = None ->
  Policy_retry (Provider_Policy p name) = None.
Proof.
  unfold Provider_Policy. intros -> [Ht|Ht]; simpl; rewrite Ht.
  - reflexivity.
  - destruct (bool_decide _); reflexivity.
Qed.

Lemma Provider_Policy_circuitBreaker_unresolved p name t :
  targets p !! name = Some t ->
  target_circuitBreaker t = "" \/
  circuitBreakers p !! target_circuitBreaker t = None ->
  Policy_circuitBreaker (Provider_Policy p name) = None.
Proof.
  unfold Provider_Policy. intros -> [Ht|Ht]; simpl; rewrite Ht.
  - reflexivity.
  - destruct (bool_decide _); reflexivity.
Qed.

Lemma Provider_Policy_unresolved p name :
  unresolved p name -> no_guards (Provider_Policy p name).
Proof.
  intros Hu. destruct (targets p !! name) as [t|] eqn:Ht.
  - destruct (Hu t Ht) as (H1 & H2 & H3). unfold no_guards.
    rewrite (Provider_Policy_timeout_unresolved _ _ _ Ht H1),
      (Provider_Policy_retry_unresolved _ _ _ Ht H2),
      (Provider_Policy_circuitBreaker_unresolved _ _ _ Ht H3).
    repeat split; lia.
  - rewrite (Provider_Policy_absent _ _ Ht). unfold no_guards. simpl.
    repeat split; lia.
Qed.

End ProviderPolicy.

(** ** The provider and the composition engine *)

(** C1: the executor of [NewExecutor] nests the guards in one order: the
    timeout guard around the raw operation exactly when the timeout is
    positive, the circuit breaker, when there is one, around that, and the
    retry loop, when there is one, around all of it; a guard that is
    absent is left out; with no policy, or with a policy without guards,
    the raw operation is called once with the ambient context and what it
    does reaches the caller unchanged. *)
Theorem NewExecutor_composes_in_order :
  (forall fuel ctx p oper,
     NewExecutor fuel ctx (Some p) oper =
     match 0 <? Policy_timeout p, Policy_circuitBreaker p, Policy_retry p with
     | false, None, None => oper ctx
     | true, None, None => withTimeout p oper ctx
     | false, Some _, None => withCircuitBreaker p oper ctx
     | true, Some _, None => withCircuitBreaker p (withTimeout p oper) ctx
     | false, None, Some _ => withRetry fuel p ctx oper
     | true, None, Some _ => withRetry fuel p ctx (withTimeout p oper)
     | false, Some _, Some _ => withRetry fuel p ctx (withCircuitBreaker p oper)
     | true, Some _, Some _ =>
         withRetry fuel p ctx (withCircuitBreaker p (withTimeout p oper))
     end)
  /\ (forall fuel ctx oper, NewExecutor fuel ctx None oper = oper ctx)
  /\ (forall fuel ctx policy s w,
        policy = None \/ (exists p, policy = Some p /\ no_guards p) ->
        let b := s ctx (now w) (length (log w)) in
        let '(out, w') := NewExecutor fuel ctx policy (call s) w in
        out = outcome_of b /\ log w' = b :: log w /\ heap w' = heap w).
Proof.
  split; [exact NewExecutor_table|]. split; [reflexivity|].
  exact NewExecutor_unguarded.
Qed.

Lemma NewExecutor_composes_in_order_witness :
  let '(out, w') :=
    NewExecutor 1 context.Background (Some no_policy) (call always_fails) w0 in
  out = Return (None, Some (errorString "test error"))
  /\ log w' = [Returns 0 None (Some (errorString "test error"))]
  /\ heap w' = [].
Proof.
  apply (proj2 (proj2 NewExecutor_composes_in_order)
           1%nat context.Background (Some no_policy) always_fails w0).
  right. exists no_policy. split; [reflexivity|].
  unfold no_guards, no_policy. simpl. repeat split; lia.
Defined.

(** C7, as amended: [FromConfig] returns an error, and no provider,
    exactly when a duration string of the configuration (a timeout, the
    delay of a retry, the interval or the timeout of a circuit breaker)
    does not parse; the names that the targets use play no part in it. *)
Theorem FromConfig_fails_exactly_on_invalid_duration :
  forall cfg w,
    exists r w', FromConfig cfg w = (Return r, w') /\
      (is_Err r = true <-> has_invalid_duration cfg).
Proof.
  intros cfg w.
  pose proof (has_invalid_duration_entries cfg) as Hinv.
  unfold FromConfig, configure.
  cbn [timeouts retries circuitBreakers targets].
  destruct (configure_timeouts _ ∅) as [ts|e1].
  - destruct (configure_retries _ ∅) as [rs|e2].
    + destruct (configure_circuitBreakers_returns
                  (map_to_list (CircuitBreakers cfg)) ∅ w) as (r & w1 & Hr & Hiff).
      unfold bind. rewrite Hr.
      destruct r as [cbs|e3]; simpl in Hiff.
      * eexists _, _. split; [reflexivity|]. simpl. rewrite Hinv, <- Hiff.
        split; [discriminate|]. intros [[e He]|[[e He]|H]]; discriminate.
      * eexists _, _. split; [reflexivity|]. simpl. rewrite Hinv, <- Hiff.
        split; auto.
    + eexists _, _. split; [reflexivity|]. simpl. rewrite Hinv. split; eauto.
  - eexists _, _. split; [reflexivity|]. simpl. rewrite Hinv. split; eauto.
Qed.

(** C7 as stated fails: a target that names a timeout, a retry and a
    circuit breaker that nobody defined is accepted. *)
Lemma FromConfig_accepts_unresolvable_names :
  has_unresolvable_name cfg_unresolved
  /\ exists p w', FromConfig cfg_unresolved w0 = (Return (Ok p), w').
Proof.
  split.
  - exists "test_target". eexists. split; [reflexivity|].
    left. split; [discriminate | reflexivity].
  - eexists _, _. vm_compute. reflexivity.
Qed.

(** C10: [Provider.Policy] always returns a policy; when the target is
    absent the policy has no guard; a guard whose name is empty or is not
    defined is left out; and when all are left out, the executor built
    from the policy calls the operation once and hands on what it does. *)
Theorem Provider_Policy_omits_unresolved_guards :
  (forall p name, targets p !! name = None -> Provider_Policy p name = no_policy)
  /\ (forall p name t, targets p !! name = Some t ->
        (target_timeout t = "" \/ timeouts p !! target_timeout t = None ->
           Policy_timeout (Provider_Policy p name) = 0)
        /\ (target_retry t = "" \/ retries p !! target_retry t = None ->
              Policy_retry (Provider_Policy p name) = None)
        /\ (target_circuitBreaker t = "" \/
            circuitBreakers p !! target_circuitBreaker t = None ->
              Policy_circuitBreaker (Provider_Policy p name) = None))
  /\ (forall p name fuel ctx s w,
        unresolved p name ->
        let b := s ctx (now w) (length (log w)) in
        let '(out, w') :=
          NewExecutor fuel ctx (Some (Provider_Policy p name)) (call s) w in
        out = outcome_of b /\ log w' = b :: log w /\ heap w' = heap w).
Proof.
  split; [exact Provider_Policy_absent|]. split.
  - intros p name t Ht.
    repeat split; intros;
      eauto using Provider_Policy_timeout_unresolved,
        Provider_Policy_retry_unresolved,
        Provider_Policy_circuitBreaker_unresolved.
  - intros p name fuel ctx s w Hu.
    apply NewExecutor_unguarded. right.
    eexists. split; [reflexivity|]. apply Provider_Policy_unresolved, Hu.
Qed.

Lemma Provider_Policy_omits_unresolved_guards_witness :
  let '(out, w') :=
    NewExecutor 1 context.Background
      (Some (Provider_Policy empty_provider "non_existent_target"))
      (call always_fails) w0 in
  out = Return (None, Some (errorString "test error"))
  /\ log w' = [Returns 0 None (Some (errorString "test error"))]
  /\ heap w' = [].
Proof.
  apply (proj2 (proj2 Provider_Policy_omits_unresolved_guards)
           empty_provider "non_existent_target" 1%nat context.Background
           always_fails w0).
  intros t Ht. discriminate Ht.
Defined.

(** ** The circuit breaker *)

Section Breaker.
Import gobreaker gobreaker_run.

Lemma rejection_is_sentinel b t e :
  rejection b t = Some e -> e = ErrOpenState \/ e = ErrTooManyRequests.
Proof.
  unfold rejection, beforeRequest.
  destruct (state (currentState b t)); simpl.
  - discriminate.
  - destruct (_ <=? _); simpl; [|discriminate]. intros [= <-]. auto.
  - intros [= <-]. auto.
Qed.

Lemma rejection_permanent b t e :
  rejection b t = Some e -> IsErrorPermanent (Some e) = true.
Proof. intros H. apply rejection_is_sentinel in H as [-> | ->]; reflexivity. Qed.

(** A rejected request is not run: only the breaker's own time-driven
    transition is stored. *)
Lemma Execute_rejects cb req w b e :
  heap w !! cb = Some b -> rejection b (now w) = Some e ->
  Execute cb req w =
  (Return (None, Some e),
   set_heap (<[cb := fst (beforeRequest b (now w))]> (heap w)) w).
Proof.
  unfold Execute, rejection. intros -> H.
  destruct (beforeRequest b (now w)) as [b1 [g err]]. simpl in H. subst err.
  reflexivity.
Qed.

Lemma withCircuitBreaker_rejects p c oper ctx w b e :
  Policy_circuitBreaker p = Some c ->
  heap w !! breaker c = Some b -> rejection b (now w) = Some e ->
  withCircuitBreaker p oper ctx w =
  (Return (None, if bool_decide (Policy_retry p <> None)
                 then Some (PermanentError e) else Some e),
   set_heap (<[breaker c := fst (beforeRequest b (now w))]> (heap w)) w).
Proof.
  intros Hc Hb He. unfold withCircuitBreaker, bind. rewrite Hc.
  rewrite (Execute_rejects _ _ _ _ _ Hb He). unfold ret.
  rewrite (rejection_permanent _ _ _ He).
  destruct (bool_decide (Policy_retry p <> None)); reflexivity.
Qed.

(** The retry loop ends on the first permanent error, whatever the
    back-off would still allow. *)
Lemma retry_loop_permanent fuel operation bo ctx w res err perr w1 :
  operation w = (Return (res, Some err), w1) ->
  As_PermanentError err = Some perr ->
  backoff.retry_loop (S fuel) operation bo ctx w = (Return (res, Some perr), w1).
Proof. intros Ho Hp. cbn [backoff.retry_loop]. rewrite Ho, Hp. reflexivity. Qed.

End Breaker.

Section BreakerSteps.
Import gobreaker gobreaker_run.

Lemma currentState_closed b t :
  state b = StateClosed -> window_open b t -> currentState b t = b.
Proof.
  unfold currentState, window_open. intros -> H.
  destruct (expiry b) as [x|]; simpl; [|reflexivity].
  destruct (Z.ltb_spec x t); [lia | reflexivity].
Qed.

Lemma currentState_open b t x :
  state b = StateOpen -> expiry b = Some x -> t <= x -> currentState b t = b.
Proof.
  unfold currentState. intros -> -> H. simpl.
  destruct (Z.ltb_spec x t); [lia | reflexivity].
Qed.

Lemma rejection_open b t x :
  state b = StateOpen -> expiry b = Some x -> t <= x ->
  rejection b t = Some ErrOpenState /\ fst (beforeRequest b t) = b.
Proof.
  intros Hs He Ht. unfold rejection, beforeRequest.
  rewrite (currentState_open _ _ _ Hs He Ht), Hs. auto.
Qed.

Lemma Execute_closed_failure cb s ctx w b el v e :
  heap w !! cb = Some b -> state b = StateClosed ->
  s ctx (now w) (length (log w)) = Returns el v (Some e) ->
  window_open b (now w + Z.of_N el) ->
  exists w',
    Execute cb (call s ctx) w = (Return (v, Some e), w')
    /\ now w' = now w + Z.of_N el
    /\ log w' = Returns el v (Some e) :: log w
    /\ heap w' !! cb = Some (after_failure b (now w + Z.of_N el))
    /\ length (heap w') = length (heap w).
Proof.
  intros Hb Hs Hbeh Hwin.
  assert (Hwin0 : window_open b (now w)).
  { unfold window_open in *. destruct (expiry b); [lia | exact I]. }
  unfold Execute. rewrite Hb. unfold beforeRequest.
  rewrite (currentState_closed _ _ Hs Hwin0), Hs.
  unfold call. cbn [now log set_heap]. rewrite Hbeh.
  eexists. split; [reflexivity|]. cbn [now log heap set_heap set_now set_log].
  split; [reflexivity|]. split; [reflexivity|].
  pose proof (lookup_lt_Some _ _ _ Hb) as Hlt.
  rewrite length_alter, length_insert. split; [|reflexivity].
  rewrite list_lookup_alter_eq, list_lookup_insert_eq by exact Hlt. simpl.
  f_equal. unfold afterRequest, after_failure.
  set (b1 := with_counts b (Counts_onRequest (counts b))).
  rewrite (currentState_closed b1 _ Hs Hwin). simpl.
  rewrite Z.eqb_refl. simpl. rewrite Hs. reflexivity.
Qed.

Lemma after_failure_trips b t F :
  state b = StateClosed -> readyToTrip b = tripFn F ->
  F <= wrap_uint32 (ConsecutiveFailures (counts b) + 1) ->
  state (after_failure b t) = StateOpen
  /\ expiry (after_failure b t) = Some (t + timeout b).
Proof.
  intros Hs Hr HF. unfold after_failure, onFailure. simpl. rewrite Hr.
  unfold tripFn. simpl.
  destruct (Z.leb_spec F (wrap_uint32 (ConsecutiveFailures (counts b) + 1)));
    [|lia].
  unfold setState. simpl. rewrite Hs. simpl. auto.
Qed.

Lemma after_failure_counts b t F :
  state b = StateClosed -> readyToTrip b = tripFn F ->
  wrap_uint32 (ConsecutiveFailures (counts b) + 1) < F ->
  state (after_failure b t) = StateClosed
  /\ expiry (after_failure b t) = expiry b
  /\ readyToTrip (after_failure b t) = tripFn F
  /\ timeout (after_failure b t) = timeout b
  /\ ConsecutiveFailures (counts (after_failure b t)) =
     wrap_uint32 (ConsecutiveFailures (counts b) + 1).
Proof.
  intros Hs Hr HF. unfold after_failure, onFailure. simpl. rewrite Hr.
  unfold tripFn. simpl.
  destruct (Z.leb_spec F (wrap_uint32 (ConsecutiveFailures (counts b) + 1)));
    [lia|]. simpl. auto.
Qed.

Lemma currentState_stays_closed b t :
  state b = StateClosed -> state (currentState b t) = StateClosed.
Proof.
  unfold currentState. intros Hs. rewrite Hs.
  destruct (_ && _); [simpl|]; exact Hs.
Qed.

Lemma Execute_closed_now cb s ctx w b el v e :
  heap w !! cb = Some b -> state b = StateClosed ->
  s ctx (now w) (length (log w)) = Returns el v e ->
  now (snd (Execute cb (call s ctx) w)) = now w + Z.of_N el.
Proof.
  intros Hb Hs Hbeh. unfold Execute. rewrite Hb. unfold beforeRequest.
  rewrite (currentState_stays_closed _ (now w) Hs).
  unfold call. cbn [now log set_heap]. rewrite Hbeh. reflexivity.
Qed.

Lemma Execute_now_mono cb s ctx w :
  now w <= now (snd (Execute cb (call s ctx) w)).
Proof.
  unfold Execute. destruct (heap w !! cb) as [b|]; [|simpl; lia].
  destruct (beforeRequest b (now w)) as [b1 [g [e|]]]; [simpl; lia|].
  set (w1 := set_heap _ w).
  pose proof (call_now s ctx w1) as H. change (now w1) with (now w) in H.
  destruct (call s ctx w1) as [[[res err]|r| |] w2]; simpl in *; exact H.
Qed.

Lemma withCircuitBreaker_snd p c s ctx w :
  Policy_circuitBreaker p = Some c ->
  snd (withCircuitBreaker p (call s) ctx w) =
  snd (Execute (breaker c) (call s ctx) w).
Proof.
  intros Hc. unfold withCircuitBreaker, bind. rewrite Hc.
  destruct (Execute (breaker c) (call s ctx) w) as [[[res err]|r| |] w'];
    reflexivity.
Qed.

Lemma calls_now_mono {A} (m : M A) :
  (forall w, now w <= now (snd (m w))) ->
  forall n w, now w <= now (calls n m w).
Proof.
  intros Hm. induction n as [|n IH]; intros w; simpl; [lia|].
  specialize (IH (snd (m w))). specialize (Hm w). lia.
Qed.

Lemma wrap_uint32_small z : 0 <= z < 2 ^ 32 -> wrap_uint32 z = z.
Proof. intros H. unfold wrap_uint32. apply Z.mod_small, H. Qed.

Section Tripping.
Variables (p : Policy) (c : circuitBreaker) (s : Script) (ctx : context.Context).
Variable F : Z.
Hypothesis Hc : Policy_circuitBreaker p = Some c.
Hypothesis Hfails : forall c' t i, fails (s c' t i).
Hypothesis HF : 0 <= F < 2 ^ 32.

Local Abbreviation op := (withCircuitBreaker p (call s) ctx).

Lemma op_now_mono w : now w <= now (snd (op w)).
Proof.
  rewrite (withCircuitBreaker_snd _ _ _ _ _ Hc).
  apply Execute_now_mono.
Qed.

Lemma trips_after : forall (m : nat) w b,
  (1 <= m)%nat ->
  heap w !! breaker c = Some b -> state b = StateClosed ->
  readyToTrip b = tripFn F ->
  0 <= ConsecutiveFailures (counts b) ->
  ConsecutiveFailures (counts b) + Z.of_nat m = Z.max 1 F ->
  window_open b (now (calls m op w)) ->
  exists b',
    heap (calls m op w) !! breaker c = Some b'
    /\ state b' = StateOpen
    /\ expiry b' = Some (now (calls m op w) + timeout b)
    /\ length (log (calls m op w)) = (length (log w) + m)%nat.
Proof.
  induction m as [|m IH]; intros w b Hm Hb Hs Hr Hcf Hsum Hwin; [lia|].
  cbn [calls] in *.
  pose proof (Hfails ctx (now w) (length (log w))) as Hbeh.
  destruct (s ctx (now w) (length (log w))) as [el v [e|] | |] eqn:Ebeh;
    try contradiction.
  pose proof (calls_now_mono op op_now_mono m (snd (op w))) as Hmono.
  assert (Hop : snd (op w) = snd (Execute (breaker c) (call s ctx) w))
    by apply (withCircuitBreaker_snd _ _ _ _ _ Hc).
  rewrite Hop in *. clear Hop.
  destruct (Execute_closed_failure (breaker c) s ctx w b el v e Hb Hs Ebeh)
    as (w1 & Hrun & Hnow & Hlog & Hheap & _).
  { rewrite (Execute_closed_now _ _ _ _ _ _ _ _ Hb Hs Ebeh) in Hmono.
    unfold window_open in *. destruct (expiry b); [lia | exact I]. }
  rewrite Hrun in *. cbn [snd] in *.
  destruct (Nat.eq_dec m 0%nat) as [-> | Hm0].
  - (* the last of the failures *)
    cbn [calls] in *. exists (after_failure b (now w + Z.of_N el)).
    destruct (after_failure_trips b (now w + Z.of_N el) F Hs Hr) as [H1 H2].
    { rewrite wrap_uint32_small by lia. lia. }
    rewrite Hlog, Hnow. cbn [length]. repeat split; auto; lia.
  - destruct (after_failure_counts b (now w + Z.of_N el) F Hs Hr)
      as (H1 & H2 & H3 & H4 & H5).
    { rewrite wrap_uint32_small by lia. lia. }
    rewrite wrap_uint32_small in H5 by lia.
    destruct (IH w1 (after_failure b (now w + Z.of_N el))) as (b' & G1 & G2 & G3 & G4);
      try assumption; try lia.
    { unfold window_open in *. rewrite H2. exact Hwin. }
    exists b'. rewrite G4, Hlog, <- H4. cbn [length].
    repeat split; auto; lia.
Qed.

End Tripping.

(** A breaker built from the configuration: closed, nothing counted, its
    threshold the configured number of failures (as 32 bits unsigned),
    its cool-down the configured timeout, or a minute when that is not
    positive. *)
Lemma newCircuitBreaker_fresh name config w interval cooldown :
  parseDuration (CircuitBreaker_Interval config) = Ok interval ->
  parseDuration (CircuitBreaker_Timeout config) = Ok cooldown ->
  exists b,
    newCircuitBreaker name config w =
    (Return (Ok {| breaker := length (heap w) |}), set_heap (heap w ++ [b]) w)
    /\ (heap w ++ [b]) !! length (heap w) = Some b
    /\ readyToTrip b = tripFn (wrap_uint32 (CircuitBreaker_Failures config))
    /\ state b = StateClosed
    /\ ConsecutiveFailures (counts b) = 0
    /\ timeout b = (if cooldown <=? 0 then 60 * time.Second else cooldown).
Proof.
  intros Hi Ht. unfold newCircuitBreaker. rewrite Hi, Ht.
  eexists. split; [reflexivity|].
  split; [apply list_lookup_middle; reflexivity|].
  repeat split.
Qed.

End BreakerSteps.

(** ** The retry loop *)

Section RetryLoop.
Import backoff.

Variable s : Script.
Variable ctx : context.Context.
Variable d N : Z.
Hypothesis Hctx : never_done ctx.
Hypothesis Hd : d <> Stop.
Hypothesis HN : 0 <= N < 2 ^ 64.

Local Abbreviation tries j :=
  (backOffContext (backOffTries (ConstantBackOff d) N j) ctx).

Lemma never_done_Err t : context.Err ctx t = None.
Proof. unfold context.Err, context.is_done. rewrite Hctx. reflexivity. Qed.

Lemma NextBackOff_tries j t :
  0 <= j <= N ->
  NextBackOff (tries j) t =
  if N <=? j then (Stop, tries j) else (d, tries (j + 1)).
Proof.
  intros Hj. cbn [NextBackOff].
  unfold context.is_done. rewrite Hctx.
  destruct (Z.eqb_spec N 0) as [H0|H0].
  - destruct (Z.leb_spec N j); [reflexivity | lia].
  - destruct (Z.leb_spec N j); [reflexivity|].
    unfold wrap_uint64. rewrite Z.mod_small by lia. reflexivity.
Qed.

(** [m] attempts are left, the [k]-th of them is the first to succeed. *)
Lemma retry_loop_attempts : forall (m : nat) (k : nat) (j : Z) (fuel : nat) (w : World),
  (1 <= m)%nat -> (1 <= k)%nat -> 0 <= j -> j + Z.of_nat m = N + 1 ->
  (m <= fuel)%nat ->
  (forall i t, (i < k - 1)%nat -> (i < m)%nat ->
     fails_retryably (s ctx t (length (log w) + i)%nat)) ->
  ((k <= m)%nat -> forall t, succeeds (s ctx t (length (log w) + (k - 1))%nat)) ->
  exists out w' b,
    retry_loop fuel (call s ctx) (tries j) ctx w = (out, w')
    /\ length (log w') = (length (log w) + Nat.min k m)%nat
    /\ hd_error (log w') = Some b /\ delivers out b
    /\ ((k <= m)%nat -> succeeds b).
Proof.
  induction m as [|m IH]; intros k j fuel w Hm Hk Hj Hjm Hfuel Hfail Hsucc; [lia|].
  destruct fuel as [|fuel]; [lia|].
  cbn [retry_loop]. unfold call at 1.
  set (b := s ctx (now w) (length (log w))).
  destruct (Nat.eq_dec k 1%nat) as [-> | Hk1].
  - (* this attempt succeeds *)
    specialize (Hsucc ltac:(lia) (now w)). replace (length (log w) + (1 - 1))%nat
      with (length (log w)) in Hsucc by lia. fold b in Hsucc.
    destruct b as [el v [e|] | |]; try contradiction.
    eexists _, _, _. split; [reflexivity|]. simpl.
    split; [lia|]. split; [reflexivity|]. split; [reflexivity|]. intros _. exact I.
  - (* this attempt fails *)
    specialize (Hfail 0%nat (now w) ltac:(lia) ltac:(lia)) as Hb.
    replace (length (log w) + 0)%nat with (length (log w)) in Hb by lia.
    fold b in Hb.
    destruct b as [el v [e|] | |] eqn:Eb; try contradiction. simpl in Hb.
    rewrite Hb. cbn [now set_now set_log].
    rewrite NextBackOff_tries by lia.
    destruct (Z.leb_spec N j) as [Hlast|Hmore].
    + (* the sequence is exhausted *)
      rewrite Z.eqb_refl, never_done_Err.
      eexists _, _, _. split; [reflexivity|]. simpl.
      assert (m = 0%nat) as -> by lia.
      split; [lia|]. split; [reflexivity|]. split; [reflexivity|]. lia.
    + destruct (Z.eqb_spec d Stop) as [|_]; [contradiction|].
      rewrite Hctx. cbn [select_first after_select is_tie].
      destruct (IH (k - 1)%nat (j + 1) fuel
                  (set_now (now w + Z.of_N el + Z.max 0 d)
                     (set_now (now w + Z.of_N el) (set_log (Returns el v (Some e) :: log w) w))))
        as (out & w' & b' & Hrun & Hlen & Hhd & Hdel & Hs); try lia.
      * intros i t Hi Him. cbn [log set_now set_log length].
        replace (S (length (log w)) + i)%nat with (length (log w) + S i)%nat by lia.
        apply Hfail; lia.
      * intros Hkm t. cbn [log set_now set_log length].
        replace (S (length (log w)) + (k - 1 - 1))%nat
          with (length (log w) + (k - 1))%nat by lia.
        apply Hsucc. lia.
      * exists out, w', b'. split; [exact Hrun|].
        cbn [log set_now set_log length] in Hlen.
        split; [lia|]. split; [exact Hhd|]. split; [exact Hdel|].
        intros Hkm. apply Hs. lia.
Qed.

End RetryLoop.

(** ** The timeout guard *)

Section TimeoutGuard.

Variables (p : Policy) (ctx : context.Context).

Local Abbreviation tctx w := (context.WithTimeout ctx (now w) (Policy_timeout p)).
Local Abbreviation t_done w := (guard_deadline ctx (now w) (Policy_timeout p)).

Lemma guard_deadline_done w :
  context.is_done (tctx w) (t_done w) = true /\ now w <= t_done w.
Proof.
  unfold guard_deadline, context.is_done, context.done_at,
    context.WithTimeout. simpl.
  destruct (context.deadline ctx), (context.cancel_at ctx); simpl;
    split; try apply Z.leb_le; lia.
Qed.

Lemma guard_deadline_Err w :
  exists e, context.Err (tctx w) (t_done w) = Some e
            /\ (e = DeadlineExceeded \/ e = Canceled)
            /\ (context.cancel_at ctx = None -> e = DeadlineExceeded).
Proof.
  unfold context.Err. rewrite (proj1 (guard_deadline_done w)).
  unfold context.WithTimeout. simpl.
  destruct (context.cancel_at ctx) as [c|]; [|eauto].
  destruct (c <? _); eexists; (split; [reflexivity|]); split; auto; discriminate.
Qed.

(** The guard around a scripted operation: it always returns, and what
    it returns is decided by which of the result and the end of the
    context comes first. *)
Local Ltac race_case :=
  eexists _, _; (split; [reflexivity|]); cbn [log heap now set_now set_log next_tie];
  (split; [reflexivity|]); (split; [reflexivity|]);
  (split; [intros; first [lia | split; reflexivity]|]);
  (split; [intros; first [lia | split; reflexivity]|]);
  auto.

Lemma withTimeout_call s w :
  let b := s (tctx w) (now w) (length (log w)) in
  exists r w',
    withTimeout p (call s) ctx w = (Return r, w')
    /\ log w' = b :: log w /\ heap w' = heap w
    /\ match completes_at (now w) b with
       | Some t =>
           (t < t_done w -> r = handed_over b /\ now w' = t)
           /\ (t_done w < t ->
               r = (None, context.Err (tctx w) (t_done w)) /\ now w' = t_done w)
           /\ (r = handed_over b \/ r = (None, context.Err (tctx w) (t_done w)))
       | None => r = (None, context.Err (tctx w) (t_done w)) /\ now w' = t_done w
       end.
Proof.
  intros b. unfold withTimeout.
  change (Z.max (now w) (default (now w) (context.done_at (tctx w))))
    with (t_done w).
  unfold call. fold b.
  destruct b as [el v e|el r|]; cbn [completes_at handed_over].
  - unfold select_first, after_select, is_tie; cbn [now sched ties set_now set_log].
    destruct (Z.ltb_spec (now w + Z.of_N el) (t_done w)) as [H|H].
    + destruct (Z.eqb_spec (now w + Z.of_N el) (t_done w)); [lia|].
      race_case.
    + destruct (Z.ltb_spec (t_done w) (now w + Z.of_N el)) as [H'|H'].
      * destruct (Z.eqb_spec (now w + Z.of_N el) (t_done w)); [lia|].
        race_case.
      * destruct (Z.eqb_spec (now w + Z.of_N el) (t_done w)); [|lia].
        destruct (sched w (ties w)); race_case.
  - unfold select_first, after_select, is_tie; cbn [now sched ties set_now set_log].
    destruct (Z.ltb_spec (now w + Z.of_N el) (t_done w)) as [H|H].
    + destruct (Z.eqb_spec (now w + Z.of_N el) (t_done w)); [lia|].
      race_case.
    + destruct (Z.ltb_spec (t_done w) (now w + Z.of_N el)) as [H'|H'].
      * destruct (Z.eqb_spec (now w + Z.of_N el) (t_done w)); [lia|].
        race_case.
      * destruct (Z.eqb_spec (now w + Z.of_N el) (t_done w)); [|lia].
        destruct (sched w (ties w)); race_case.
  - eexists _, _. split; [reflexivity|]. simpl. auto.
Qed.

(** Whatever the operation does, a panic included, the guard hands an
    ordinary result to its caller. *)
Lemma withTimeout_recovers oper w r w1 :
  oper (tctx w) w = (Panic r, w1) ->
  exists e w',
    withTimeout p oper ctx w = (Return (None, Some e), w')
    /\ (now w1 < t_done w ->
        e = errorString ("operation panicked: " +:+ r) /\ w' = w1).
Proof.
  intros Ho. unfold withTimeout.
  change (Z.max (now w) (default (now w) (context.done_at (tctx w))))
    with (t_done w).
  rewrite Ho. unfold select_first, after_select, is_tie.
  destruct (guard_deadline_Err w) as (e & He & _).
  destruct (Z.ltb_spec (now w1) (t_done w)) as [H|H].
  - destruct (Z.eqb_spec (now w1) (t_done w)); [lia|].
    eexists _, _. split; [reflexivity|]. auto.
  - destruct (Z.ltb_spec (t_done w) (now w1)) as [H'|H'].
    + rewrite He. eexists _, _. split; [reflexivity|]. lia.
    + destruct (sched w1 (ties w1)).
      * eexists _, _. split; [reflexivity|]. lia.
      * rewrite He. eexists _, _. split; [reflexivity|]. lia.
Qed.

End TimeoutGuard.

(** ** No panic leaves the guarded executor *)

Section Calm.
Import gobreaker_run.
Variable n : nat.

Lemma retry_loop_calm operation ctx :
  calm n operation ->
  forall fuel bo, calm n (backoff.retry_loop fuel operation bo ctx).
Proof.
  intros Ho. induction fuel as [|fuel IH]; intros bo w Hw; [simpl; auto|].
  cbn [backoff.retry_loop].
  destruct (Ho w Hw) as [Hq Ha].
  destruct (operation w) as [[[res [err|]]|r| |] w1]; simpl in Hq, Ha;
    try contradiction; auto.
  destruct (As_PermanentError err); [auto|].
  destruct (backoff.NextBackOff bo (now w1)) as [next bo'].
  destruct (next =? backoff.Stop).
  - destruct (context.Err ctx (now w1)); auto.
  - destruct (select_first w1 _ _).
    + apply IH. unfold allocated, after_select in *.
      destruct (is_tie _ _); exact Ha.
    + simpl. unfold allocated, after_select in *.
      destruct (is_tie _ _); auto.
Qed.

End Calm.

Section Steady.
Import gobreaker_run backoff.
Variable n : nat.

Lemma steady_calm {A} (m : M A) : steady n m -> calm n m.
Proof.
  intros Hm w Hw. destruct (Hm w Hw) as (a & w' & -> & Ha). simpl. auto.
Qed.

Lemma Execute_steady cb req :
  (cb < n)%nat -> steady n req -> steady n (Execute cb req).
Proof.
  intros Hcb Hreq w Hw. unfold Execute, allocated in *.
  destruct (lookup_lt_is_Some_2 (heap w) cb ltac:(lia)) as [b ->].
  destruct (gobreaker.beforeRequest b (now w)) as [b1 [g [e|]]].
  - eexists _, _. split; [reflexivity|]. simpl. rewrite length_insert. exact Hw.
  - set (w1 := set_heap _ w).
    destruct (Hreq w1) as ([res err] & w2 & -> & Ha).
    { unfold allocated, w1. simpl. rewrite length_insert. exact Hw. }
    eexists _, _. split; [reflexivity|]. unfold allocated in *. simpl.
    rewrite length_alter. exact Ha.
Qed.

Lemma withCircuitBreaker_steady p c oper ctx :
  Policy_circuitBreaker p = Some c -> (breaker c < n)%nat ->
  steady n (oper ctx) -> steady n (withCircuitBreaker p oper ctx).
Proof.
  intros Hc Hn Ho w Hw. unfold withCircuitBreaker, bind. rewrite Hc.
  destruct (Execute_steady (breaker c) (oper ctx) Hn Ho w Hw)
    as ([res err] & w' & -> & Ha).
  eexists _, _. split; [reflexivity|]. exact Ha.
Qed.

(** With a bound on the retries the loop returns within the bound. *)
Lemma retry_loop_steady operation ctx d N :
  steady n operation -> 0 <= N < 2 ^ 64 ->
  forall (m : nat) (j : Z) (fuel : nat) w,
    0 <= j -> j + Z.of_nat m = N + 1 -> (m <= fuel)%nat -> (1 <= m)%nat ->
    allocated n w ->
    exists a w',
      retry_loop fuel operation
        (backOffContext (backOffTries (ConstantBackOff d) N j) ctx) ctx w =
      (Return a, w') /\ allocated n w'.
Proof.
  intros Ho HN. induction m as [|m IH]; intros j fuel w Hj Hjm Hf Hm Hw; [lia|].
  destruct fuel as [|fuel]; [lia|]. cbn [retry_loop].
  destruct (Ho w Hw) as ([res [err|]] & w1 & -> & Ha); [|eauto].
  destruct (As_PermanentError err); [eauto|].
  cbn [NextBackOff].
  destruct (context.is_done ctx (now w1)).
  { rewrite Z.eqb_refl. destruct (context.Err ctx (now w1)); eauto. }
  destruct (Z.eqb_spec N 0).
  { rewrite Z.eqb_refl. destruct (context.Err ctx (now w1)); eauto. }
  destruct (Z.leb_spec N j).
  { rewrite Z.eqb_refl. destruct (context.Err ctx (now w1)); eauto. }
  cbn [NextBackOff]. destruct (d =? Stop).
  { destruct (context.Err ctx (now w1)); eauto. }
  unfold wrap_uint64. rewrite (Z.mod_small (j + 1)) by lia.
  destruct (select_first w1 _ _).
  - apply IH; try lia.
    unfold allocated, after_select in *. destruct (is_tie _ _); exact Ha.
  - eexists _, _. split; [reflexivity|].
    unfold allocated, after_select in *. destruct (is_tie _ _); exact Ha.
Qed.

End Steady.

(** ** The guards at work *)

(** C4: with a circuit breaker under a retry policy, a request that the
    breaker turns away ends the retry loop at once, in whatever state the
    back-off is: the operation is not called, and the caller gets the
    breaker's own error, open state or too many requests. *)
Theorem breaker_rejection_stops_retry :
  forall p c r oper ctx w b e,
    Policy_circuitBreaker p = Some c -> Policy_retry p = Some r ->
    heap w !! breaker c = Some b -> rejection b (now w) = Some e ->
    let w' :=
      set_heap (<[breaker c := fst (gobreaker.beforeRequest b (now w))]> (heap w))
        w in
    (e = ErrOpenState \/ e = ErrTooManyRequests)
    /\ log w' = log w /\ now w' = now w
    /\ (forall fuel bo ctx',
          backoff.retry_loop (S fuel) (withCircuitBreaker p oper ctx) bo ctx' w =
          (Return (None, Some e), w'))
    /\ (forall fuel,
          NewExecutor (S fuel) ctx (Some p) oper w = (Return (None, Some e), w')).
Proof.
  intros p c r oper ctx w b e Hc Hr Hb He w'.
  split; [exact (rejection_is_sentinel _ _ _ He)|].
  split; [reflexivity|]. split; [reflexivity|].
  assert (Hloop : forall o fuel bo ctx',
            backoff.retry_loop (S fuel) (withCircuitBreaker p o ctx) bo ctx' w =
            (Return (None, Some e), w')).
  { intros o fuel bo ctx'.
    apply retry_loop_permanent with (err := PermanentError e); [|reflexivity].
    rewrite (withCircuitBreaker_rejects _ _ _ _ _ _ _ Hc Hb He), Hr.
    reflexivity. }
  split; [apply Hloop|].
  intros fuel. unfold NewExecutor, withRetry, OperationRetry, backoff.RetryWithData.
  rewrite Hc, Hr. destruct (0 <? Policy_timeout p); apply Hloop.
Qed.

Lemma breaker_rejection_stops_retry_witness :
  NewExecutor 4 context.Background (Some all_guards) (call always_fails) w_open =
  (Return (None, Some ErrOpenState), w_open).
Proof.
  apply (proj2 (proj2 (proj2 (proj2
           (breaker_rejection_stops_retry all_guards {| breaker := 0 |}
              {| retry_duration := 10 * time.Millisecond; retry_maxRetries := 3 |}
              (call always_fails) context.Background w_open open_breaker
              ErrOpenState eq_refl eq_refl eq_refl eq_refl)))) 3%nat).
Defined.

(** C3, as amended: a breaker built from the configuration is closed, has
    counted nothing and trips at the configured number of failures.  A
    closed breaker with failure threshold [F] whose consecutive-failure
    count is zero is open after [max 1 F] failing calls in a row,
    provided they are all recorded before its counting window ends; its
    cool-down then runs from that moment.  While a
    breaker is open and its cool-down has not run out, every call through
    the executor returns the open-state error and leaves the world as it
    is: the operation is not called. *)
Theorem breaker_trips_and_fails_fast :
  (forall name config w interval cooldown,
     parseDuration (CircuitBreaker_Interval config) = Ok interval ->
     parseDuration (CircuitBreaker_Timeout config) = Ok cooldown ->
     exists b,
       newCircuitBreaker name config w =
       (Return (Ok {| breaker := length (heap w) |}), set_heap (heap w ++ [b]) w)
       /\ (heap w ++ [b]) !! length (heap w) = Some b
       /\ gobreaker.readyToTrip b =
          tripFn (wrap_uint32 (CircuitBreaker_Failures config))
       /\ gobreaker.state b = gobreaker.StateClosed
       /\ gobreaker.ConsecutiveFailures (gobreaker.counts b) = 0
       /\ gobreaker.timeout b =
          (if cooldown <=? 0 then 60 * time.Second else cooldown))
  /\ (forall p c fuel ctx s w b F,
     Policy_circuitBreaker p = Some c ->
     Policy_retry p = None -> Policy_timeout p <= 0 ->
     heap w !! breaker c = Some b ->
     gobreaker.readyToTrip b = tripFn F -> 0 <= F < 2 ^ 32 ->
     gobreaker.state b = gobreaker.StateClosed ->
     gobreaker.ConsecutiveFailures (gobreaker.counts b) = 0 ->
     (forall c' t i, fails (s c' t i)) ->
     let n := Z.to_nat (Z.max 1 F) in
     let w' := calls n (NewExecutor fuel ctx (Some p) (call s)) w in
     window_open b (now w') ->
     exists b',
       heap w' !! breaker c = Some b'
       /\ gobreaker.state b' = gobreaker.StateOpen
       /\ gobreaker.expiry b' = Some (now w' + gobreaker.timeout b)
       /\ length (log w') = (length (log w) + n)%nat)
  /\ (forall p c fuel ctx oper w b x,
        Policy_circuitBreaker p = Some c ->
        heap w !! breaker c = Some b ->
        gobreaker.state b = gobreaker.StateOpen ->
        gobreaker.expiry b = Some x -> now w <= x ->
        NewExecutor (S fuel) ctx (Some p) oper w =
        (Return (None, Some ErrOpenState), w)).
Proof.
  split; [exact newCircuitBreaker_fresh|]. split.
  - intros p c fuel ctx s w b F Hc Hr Ht Hb Hrt HF Hs Hcf Hfails n w' Hwin.
    assert (Hexec : NewExecutor fuel ctx (Some p) (call s) =
                    withCircuitBreaker p (call s) ctx).
    { rewrite NewExecutor_table, Hc, Hr.
      destruct (Z.ltb_spec 0 (Policy_timeout p)); [lia | reflexivity]. }
    subst w'. rewrite Hexec in *.
    apply (trips_after p c s ctx F Hc Hfails HF n w b); try assumption; lia.
  - intros p c fuel ctx oper w b x Hc Hb Hs He Hx.
    destruct (rejection_open b (now w) x Hs He Hx) as [Hrej Hfst].
    assert (Hcb : forall o,
              withCircuitBreaker p o ctx w =
              (Return (None, if bool_decide (Policy_retry p <> None)
                             then Some (PermanentError ErrOpenState)
                             else Some ErrOpenState), w)).
    { intros o. rewrite (withCircuitBreaker_rejects _ _ _ _ _ _ _ Hc Hb Hrej).
      rewrite Hfst, (list_insert_id _ _ _ Hb), set_heap_id. reflexivity. }
    rewrite NewExecutor_table, Hc.
    destruct (Policy_retry p) as [r|] eqn:Hr.
    + assert (Hloop : forall o,
                withRetry (S fuel) p ctx (withCircuitBreaker p o) w =
                (Return (None, Some ErrOpenState), w)).
      { intros o. unfold withRetry, OperationRetry, backoff.RetryWithData.
        rewrite Hr.
        apply retry_loop_permanent with (err := PermanentError ErrOpenState);
          [|reflexivity].
        rewrite Hcb. rewrite bool_decide_eq_true_2 by discriminate. reflexivity. }
      destruct (0 <? Policy_timeout p); apply Hloop.
    + destruct (0 <? Policy_timeout p); rewrite Hcb;
        rewrite bool_decide_eq_false_2 by (intros H; apply H; reflexivity);
        reflexivity.
Qed.

Lemma breaker_trips_and_fails_fast_witness :
  (exists b',
     heap (calls 2 (NewExecutor 1 context.Background (Some breaker_only)
                      (call always_fails))
             (w_closed 2 (10 * time.Second))) !! 0%nat = Some b'
     /\ gobreaker.state b' = gobreaker.StateOpen)
  /\ NewExecutor 1 context.Background (Some breaker_only) (call always_fails)
       w_open =
     (Return (None, Some ErrOpenState), w_open).
Proof.
  split.
  - destruct (proj1 (proj2 breaker_trips_and_fails_fast) breaker_only
                {| breaker := 0 |}
                1%nat context.Background always_fails
                (w_closed 2 (10 * time.Second))
                (gobreaker.NewCircuitBreaker (settings 2 (10 * time.Second))
                   (now w0))
                2 eq_refl eq_refl)
      as (b' & H1 & H2 & _).
    + simpl. lia.
    + reflexivity.
    + reflexivity.
    + lia.
    + reflexivity.
    + reflexivity.
    + intros c' t i. exact I.
    + vm_compute. discriminate.
    + exists b'. split; [exact H1 | exact H2].
  - apply (proj2 (proj2 breaker_trips_and_fails_fast) breaker_only
             {| breaker := 0 |}
             0%nat context.Background (call always_fails) w_open open_breaker
             (now w0 + 5 * time.Second) eq_refl eq_refl eq_refl eq_refl).
    simpl. unfold time.Second, time.Millisecond, time.Microsecond,
      time.Nanosecond. lia.
Defined.

(** C3 as stated fails: with threshold 2 and a counting window of one
    second, a failure, a pause of two seconds and a second failure are two
    recorded failures in a row, and the breaker is still closed (the
    second one opened a new window); the third call reaches the
    operation. *)
Lemma breaker_stays_closed_across_windows :
  let exec :=
    NewExecutor 1 context.Background (Some breaker_only) (call always_fails) in
  let w1 := snd (exec (w_closed 2 (1 * time.Second))) in
  let w2 := snd (exec (set_now (now w1 + 2 * time.Second) w1)) in
  fst (exec (w_closed 2 (1 * time.Second))) =
    Return (None, Some (errorString "test error"))
  /\ fst (exec (set_now (now w1 + 2 * time.Second) w1)) =
    Return (None, Some (errorString "test error"))
  /\ (gobreaker.state <$> heap w2 !! 0%nat) = Some gobreaker.StateClosed
  /\ (gobreaker.TotalFailures <$> (gobreaker.counts <$> heap w2 !! 0%nat)) = Some 1
  /\ fst (exec w2) = Return (None, Some (errorString "test error"))
  /\ length (log (snd (exec w2))) = 3%nat.
Proof. vm_compute. repeat split; reflexivity. Qed.

(** C2, as amended: under a retry policy with [maxRetries = N >= 0] whose
    delay is not the back-off's [Stop] value, with a context that is never
    done and an operation none of whose failures carries a permanent
    marker, the loop calls the operation [min k (N+1)] times when the
    [k]-th call is the first to succeed; it hands on the value and the
    error of the last call unchanged, a success when [k <= N+1] and the
    last error when every call failed.  [N+1] rounds of fuel are enough,
    and the executor of a policy with nothing but the retry is this
    loop. *)
Theorem retry_loop_invocations :
  forall fuel ctx p r s w (k : nat),
    Policy_retry p = Some r ->
    0 <= retry_maxRetries r < 2 ^ 63 ->
    retry_duration r <> backoff.Stop ->
    never_done ctx ->
    (1 <= k)%nat ->
    (Z.to_nat (retry_maxRetries r) < fuel)%nat ->
    let attempts := S (Z.to_nat (retry_maxRetries r)) in
    (forall i t, (i < k - 1)%nat -> (i < attempts)%nat ->
       fails_retryably (s ctx t (length (log w) + i)%nat)) ->
    ((k <= attempts)%nat ->
     forall t, succeeds (s ctx t (length (log w) + (k - 1))%nat)) ->
    (exists out w' b,
       withRetry fuel p ctx (call s) w = (out, w')
       /\ length (log w') = (length (log w) + Nat.min k attempts)%nat
       /\ hd_error (log w') = Some b /\ delivers out b
       /\ ((k <= attempts)%nat -> succeeds b))
    /\ (Policy_timeout p <= 0 -> Policy_circuitBreaker p = None ->
        NewExecutor fuel ctx (Some p) (call s) w =
        withRetry fuel p ctx (call s) w).
Proof.
  intros fuel ctx p r s w k Hr HN Hd Hctx Hk Hfuel attempts Hfail Hsucc.
  assert (H64 : 0 <= retry_maxRetries r < 2 ^ 64).
  { rewrite pow2_63 in HN. rewrite pow2_64. lia. }
  split.
  - assert (Hloop : withRetry fuel p ctx (call s) w =
                    backoff.retry_loop fuel (call s ctx)
                      (backoff.backOffContext
                         (backoff.backOffTries
                            (backoff.ConstantBackOff (retry_duration r))
                            (retry_maxRetries r) 0) ctx) ctx w).
    { unfold withRetry, OperationRetry, backoff.RetryWithData, retry_backoff.
      rewrite Hr. destruct (Z.leb_spec 0 (retry_maxRetries r)); [|lia].
      unfold backoff.WithContext, backoff.WithMaxRetries,
        backoff.NewConstantBackOff. cbn [backoff.Reset backoff.getContext].
      unfold wrap_uint64. rewrite Z.mod_small by exact H64. reflexivity. }
    rewrite Hloop.
    apply (retry_loop_attempts s ctx (retry_duration r) (retry_maxRetries r)
             Hctx Hd H64 attempts k 0 fuel w); unfold attempts; try lia;
      assumption.
  - intros Ht Hc. rewrite NewExecutor_table, Hc, Hr.
    destruct (Z.ltb_spec 0 (Policy_timeout p)); [lia | reflexivity].
Qed.

Lemma retry_loop_invocations_witness :
  exists out w' b,
    NewExecutor 4 context.Background (Some retry3) (call flaky) w0 = (out, w')
    /\ length (log w') = 3%nat
    /\ hd_error (log w') = Some b /\ delivers out b
    /\ ((3 <= 4)%nat -> succeeds b).
Proof.
  destruct (retry_loop_invocations 4%nat context.Background retry3
              {| retry_duration := 2 * time.Second; retry_maxRetries := 3 |}
              flaky w0 3%nat eq_refl) as [Hloop Hexec].
  - simpl. lia.
  - vm_compute. discriminate.
  - reflexivity.
  - lia.
  - simpl. lia.
  - intros i t Hi _. simpl in *.
    destruct i as [|[|i]]; [reflexivity | reflexivity | lia].
  - intros _ t. exact I.
  - rewrite Hexec; [exact Hloop | simpl; lia | reflexivity].
Defined.

(** C2 as stated fails in three ways.  An operation that fails every time
    with an error built by [backoff.Permanent] is called once, not four
    times, and the caller gets the error inside the marker; with a breaker
    that trips at the first failure under the same retry policy the
    operation is called once and the caller gets the open-state error;
    and with a delay of -1ns, the back-off's [Stop] value, an operation
    that always fails is called once. *)
Lemma retry_loop_stops_before_N_plus_1 :
  (let '(out, w') :=
     NewExecutor 4 context.Background (Some retry3) (call permanent_failure) w0 in
   length (log w') = 1%nat /\ out = Return (None, Some (errorString "fatal")))
  /\ (let '(out, w') :=
        NewExecutor 4 context.Background (Some breaker_retry3)
          (call always_fails) (w_closed 1 (10 * time.Second)) in
      length (log w') = 1%nat /\ out = Return (None, Some ErrOpenState))
  /\ (let '(out, w') :=
        NewExecutor 4 context.Background (Some retry3_minus_1ns)
          (call always_fails) w0 in
      length (log w') = 1%nat
      /\ out = Return (None, Some (errorString "test error"))).
Proof. vm_compute. repeat split; reflexivity. Qed.

(** C5, as amended: the timeout guard with duration [d > 0] calls the
    operation once and waits until its context is done, that is until
    [d] has passed, the caller's own deadline has come or the caller has
    cancelled, whichever is first.  A result that is there before that
    instant is returned as it is; when that instant comes first, or the
    operation never returns, the guard returns the context's error at that
    instant (deadline exceeded, or canceled when the caller cancelled
    first; deadline exceeded when the caller never cancels) and nothing of
    what the operation does later.  An executor with only a timeout is
    this guard. *)
Theorem timeout_guard_race :
  forall p ctx s w,
    0 < Policy_timeout p ->
    let tctx := context.WithTimeout ctx (now w) (Policy_timeout p) in
    let t_end := guard_deadline ctx (now w) (Policy_timeout p) in
    let b := s tctx (now w) (length (log w)) in
    exists r w',
      withTimeout p (call s) ctx w = (Return r, w')
      /\ log w' = b :: log w
      /\ (forall t, completes_at (now w) b = Some t -> t < t_end ->
            r = handed_over b /\ now w' = t)
      /\ (completes_at (now w) b = None \/
          (exists t, completes_at (now w) b = Some t /\ t_end < t) ->
          now w' = t_end /\
          exists e, r = (None, Some e)
                    /\ (e = DeadlineExceeded \/ e = Canceled)
                    /\ (context.cancel_at ctx = None -> e = DeadlineExceeded))
      /\ (Policy_retry p = None -> Policy_circuitBreaker p = None ->
          forall fuel,
            NewExecutor fuel ctx (Some p) (call s) w =
            withTimeout p (call s) ctx w).
Proof.
  intros p ctx s w Hd tctx t_end b.
  destruct (withTimeout_call p ctx s w) as (r & w' & Hrun & Hlog & _ & Hrace).
  fold tctx t_end b in Hlog, Hrace.
  exists r, w'. split; [exact Hrun|]. split; [exact Hlog|].
  destruct (guard_deadline_Err p ctx w) as (e & He & Hkind & Hnever).
  fold tctx t_end in He.
  split; [|split].
  - intros t Ht Hlt. rewrite Ht in Hrace. apply Hrace, Hlt.
  - intros [Hnone | (t & Ht & Hlt)].
    + rewrite Hnone in Hrace. destruct Hrace as [-> ->].
      split; [reflexivity|]. exists e. rewrite He. auto.
    + rewrite Ht in Hrace. destruct Hrace as (_ & Hlate & _).
      destruct (Hlate Hlt) as [-> ->].
      split; [reflexivity|]. exists e. rewrite He. auto.
  - intros Hr Hc fuel. rewrite NewExecutor_table, Hr, Hc.
    destruct (Z.ltb_spec 0 (Policy_timeout p)); [reflexivity | lia].
Qed.

Lemma timeout_guard_race_witness :
  exists r w',
    withTimeout timeout1 (call two_seconds) context.Background w0 =
    (Return r, w')
    /\ now w' = now w0 + 1 * time.Second
    /\ r = (None, Some DeadlineExceeded).
Proof.
  destruct (timeout_guard_race timeout1 context.Background two_seconds w0)
    as (r & w' & Hrun & _ & _ & Hlate & _).
  - vm_compute. reflexivity.
  - exists r, w'. split; [exact Hrun|].
    destruct Hlate as (Hnow & e & -> & _ & He).
    + right. exists (now w0 + 2 * time.Second). split; [reflexivity|].
      vm_compute. reflexivity.
    + split; [exact Hnow|]. rewrite (He eq_refl). reflexivity.
Defined.

(** C5 as stated fails: under a timeout of ten seconds an operation that
    returns after five seconds has completed before the deadline, yet the
    caller, who cancelled the context after one second, gets the
    cancellation error and not the operation's result. *)
Lemma timeout_guard_loses_to_cancellation :
  completes_at (now w0) (five_seconds cancelled_in_1s (now w0) 0%nat) =
    Some (now w0 + 5 * time.Second)
  /\ now w0 + 5 * time.Second < now w0 + Policy_timeout timeout10
  /\ fst (NewExecutor 1 cancelled_in_1s (Some timeout10) (call five_seconds) w0) =
     Return (None, Some Canceled).
Proof. vm_compute. repeat split; reflexivity. Qed.

(** C9: when the operation panics inside the timeout guard, the guard
    returns an error to its caller: the error made of the panic when the
    panic comes before the context is done.  An executor with a timeout
    never panics and never hangs, whatever the scripted operation does,
    and with a bound on the retries (or without retry) it returns. *)
Theorem timeout_guard_recovers_panics :
  (forall p oper ctx w r w1,
     oper (context.WithTimeout ctx (now w) (Policy_timeout p)) w = (Panic r, w1) ->
     exists e w',
       withTimeout p oper ctx w = (Return (None, Some e), w')
       /\ (now w1 < guard_deadline ctx (now w) (Policy_timeout p) ->
           e = errorString ("operation panicked: " +:+ r) /\ w' = w1))
  /\ (forall fuel ctx p s w,
        0 < Policy_timeout p ->
        (forall c, Policy_circuitBreaker p = Some c ->
                   (breaker c < length (heap w))%nat) ->
        quiet (fst (NewExecutor fuel ctx (Some p) (call s) w))
        /\ ((forall r, Policy_retry p = Some r ->
                       0 <= retry_maxRetries r < 2 ^ 63 /\
                       (Z.to_nat (retry_maxRetries r) < fuel)%nat) ->
            exists a w', NewExecutor fuel ctx (Some p) (call s) w = (Return a, w'))).
Proof.
  split; [intros p oper ctx; apply withTimeout_recovers|].
  intros fuel ctx p s w Hd Hheap.
  set (n := match Policy_circuitBreaker p with
            | Some c => S (breaker c)
            | None => 0%nat
            end).
  assert (Hw : allocated n w).
  { unfold allocated, n. destruct (Policy_circuitBreaker p) as [c|]; [|lia].
    specialize (Hheap c eq_refl). lia. }
  assert (Hguard : forall ctx', steady n (withTimeout p (call s) ctx')).
  { intros ctx' w1 Hw1.
    destruct (withTimeout_call p ctx' s w1) as (r & w' & Hrun & _ & Hh & _).
    exists r, w'. split; [exact Hrun|]. unfold allocated in *. rewrite Hh.
    exact Hw1. }
  assert (Hinner : exists operation : Operation,
            (forall ctx', steady n (operation ctx'))
            /\ NewExecutor fuel ctx (Some p) (call s) =
               match Policy_retry p with
               | None => operation ctx
               | Some _ => withRetry fuel p ctx operation
               end).
  { destruct (Policy_circuitBreaker p) as [c|] eqn:Hc.
    - exists (withCircuitBreaker p (withTimeout p (call s))). split.
      + intros ctx'. apply (withCircuitBreaker_steady n p c _ ctx' Hc);
          [unfold n; lia | apply Hguard].
      + rewrite NewExecutor_table, Hc.
        destruct (Z.ltb_spec 0 (Policy_timeout p)); [|lia].
        destruct (Policy_retry p); reflexivity.
    - exists (withTimeout p (call s)). split; [exact Hguard|].
      rewrite NewExecutor_table, Hc.
      destruct (Z.ltb_spec 0 (Policy_timeout p)); [|lia].
      destruct (Policy_retry p); reflexivity. }
  destruct Hinner as (operation & Hsteady & ->).
  destruct (Policy_retry p) as [r|] eqn:Hr.
  - unfold withRetry, OperationRetry, backoff.RetryWithData. rewrite Hr. split.
    + apply (retry_loop_calm n), Hw. apply steady_calm, Hsteady.
    + intros Hbound. destruct (Hbound r eq_refl) as [HN Hf].
      unfold retry_backoff. destruct (Z.leb_spec 0 (retry_maxRetries r)); [|lia].
      unfold backoff.WithContext, backoff.WithMaxRetries,
        backoff.NewConstantBackOff. cbn [backoff.Reset backoff.getContext].
      assert (H64 : 0 <= retry_maxRetries r < 2 ^ 64).
      { rewrite pow2_63 in HN. rewrite pow2_64. lia. }
      unfold wrap_uint64. rewrite Z.mod_small by exact H64.
      destruct (retry_loop_steady n (operation ctx) ctx (retry_duration r)
                  (retry_maxRetries r) (Hsteady ctx) H64
                  (S (Z.to_nat (retry_maxRetries r))) 0 fuel w)
        as (a & w' & Hrun & _); try lia; [exact Hw|].
      exists a, w'. exact Hrun.
  - destruct (Hsteady ctx w Hw) as (a & w' & Hrun & _). rewrite Hrun. split.
    + exact I.
    + intros _. exists a, w'. reflexivity.
Qed.

Lemma timeout_guard_recovers_panics_witness :
  fst (NewExecutor 1 context.Background (Some timeout1) (call panics) w0) =
  Return (None, Some (errorString "operation panicked: boom"))
  /\ quiet (fst (NewExecutor 4 context.Background (Some all_guards) (call panics)
                   (w_closed 2 (10 * time.Second)))).
Proof.
  split.
  - destruct (proj2 timeout_guard_recovers_panics 1%nat context.Background
                timeout1 panics w0) as [_ Hret].
    + vm_compute. reflexivity.
    + intros c [=].
    + destruct Hret as (a & w' & Hrun).
      * intros r [=].
      * rewrite Hrun. vm_compute in Hrun. injection Hrun as <- _. reflexivity.
  - apply (proj2 timeout_guard_recovers_panics 4%nat context.Background
             all_guards panics (w_closed 2 (10 * time.Second))).
    + vm_compute. reflexivity.
    + intros c [= <-]. simpl. lia.
Defined.

(** * Further properties of the guards and of the provider *)

Section TimeoutBound.
Variables (p : Policy) (ctx : context.Context).

Lemma guard_deadline_le w :
  0 <= Policy_timeout p ->
  guard_deadline ctx (now w) (Policy_timeout p) <= now w + Policy_timeout p.
Proof.
  unfold guard_deadline, context.done_at, context.WithTimeout. simpl.
  destruct (context.deadline ctx), (context.cancel_at ctx); simpl; lia.
Qed.

Lemma withTimeout_call_now s w :
  now w <= now (snd (withTimeout p (call s) ctx w))
        <= guard_deadline ctx (now w) (Policy_timeout p).
Proof.
  pose proof (guard_deadline_done p ctx w) as [_ Hle].
  unfold withTimeout.
  change (Z.max (now w) (default (now w)
            (context.done_at (context.WithTimeout ctx (now w) (Policy_timeout p)))))
    with (guard_deadline ctx (now w) (Policy_timeout p)) in *.
  set (td := guard_deadline ctx (now w) (Policy_timeout p)) in *.
  unfold call.
  destruct (s _ (now w) (length (log w))) as [el v e|el r|];
    unfold select_first, after_select, is_tie;
    cbn [now sched ties set_now set_log snd].
  - destruct (Z.ltb_spec (now w + Z.of_N el) td);
      [destruct (Z.eqb_spec (now w + Z.of_N el) td); simpl; lia|].
    destruct (Z.ltb_spec td (now w + Z.of_N el));
      [destruct (Z.eqb_spec (now w + Z.of_N el) td); simpl; lia|].
    destruct (Z.eqb_spec (now w + Z.of_N el) td); [|lia].
    destruct (sched w (ties w)); simpl; lia.
  - destruct (Z.ltb_spec (now w + Z.of_N el) td);
      [destruct (Z.eqb_spec (now w + Z.of_N el) td); simpl; lia|].
    destruct (Z.ltb_spec td (now w + Z.of_N el));
      [destruct (Z.eqb_spec (now w + Z.of_N el) td); simpl; lia|].
    destruct (Z.eqb_spec (now w + Z.of_N el) td); [|lia].
    destruct (sched w (ties w)); simpl; lia.
  - simpl. lia.
Qed.

End TimeoutBound.

(** X1: the timeout guard answers by its deadline.  Whatever the operation
    does, the guarded call returns, and no later than the end of the
    timeout or of the caller's context, whichever comes first; with a
    timeout that is not negative that is at most the timeout after the
    call started.  The operation is called once and no breaker is
    touched. *)
Theorem timeout_guard_returns_by_deadline :
  forall p ctx s w,
    exists r w',
      withTimeout p (call s) ctx w = (Return r, w')
      /\ now w <= now w' <= guard_deadline ctx (now w) (Policy_timeout p)
      /\ (0 <= Policy_timeout p -> now w' <= now w + Policy_timeout p)
      /\ length (log w') = S (length (log w))
      /\ heap w' = heap w.
Proof.
  intros p ctx s w.
  destruct (withTimeout_call p ctx s w) as (r & w' & Hrun & Hlog & Hheap & _).
  pose proof (withTimeout_call_now p ctx s w) as Hnow. rewrite Hrun in Hnow.
  simpl in Hnow.
  exists r, w'. split; [exact Hrun|]. split; [exact Hnow|].
  split; [intros Ht; pose proof (guard_deadline_le p ctx w Ht); lia|].
  rewrite Hlog. split; [reflexivity | exact Hheap].
Qed.

(** ** One round of the retry loop *)

Section Rounds.
Import backoff.

Variables (operation : M (any * option error)) (ctx : context.Context).
Variables (w w1 : World) (res : any) (err : error).
Hypothesis Hop : operation w = (Return (res, Some err), w1).
Hypothesis Herr : As_PermanentError err = None.

(** The attempt failed and the context is not done when the wait would
    end: the next attempt starts after the wait. *)
Lemma retry_loop_again fuel bo bo' next :
  NextBackOff bo (now w1) = (next, bo') -> next <> Stop ->
  match context.done_at ctx with
  | Some tc => now w1 + Z.max 0 next < tc
  | None => True
  end ->
  retry_loop (S fuel) operation bo ctx w =
  retry_loop fuel operation bo' ctx (set_now (now w1 + Z.max 0 next) w1).
Proof.
  intros Hn Hs Hc. cbn [retry_loop]. rewrite Hop, Herr, Hn.
  destruct (Z.eqb_spec next Stop); [contradiction|].
  unfold select_first, after_select, is_tie.
  destruct (context.done_at ctx) as [tc|]; [|reflexivity].
  destruct (Z.ltb_spec (now w1 + Z.max 0 next) tc); [|lia].
  destruct (Z.eqb_spec (now w1 + Z.max 0 next) tc); [lia | reflexivity].
Qed.

(** The attempt failed and the back-off has nothing left. *)
Lemma retry_loop_exhausted fuel bo bo' :
  NextBackOff bo (now w1) = (Stop, bo') ->
  retry_loop (S fuel) operation bo ctx w =
  (Return (res, Some (default err (context.Err ctx (now w1)))), w1).
Proof.
  intros Hn. cbn [retry_loop]. rewrite Hop, Herr, Hn. rewrite Z.eqb_refl.
  destruct (context.Err ctx (now w1)); reflexivity.
Qed.

(** The attempt failed and the context is done before the wait ends. *)
Lemma retry_loop_interrupted fuel bo bo' next tc :
  NextBackOff bo (now w1) = (next, bo') -> next <> Stop ->
  context.done_at ctx = Some tc -> tc < now w1 + Z.max 0 next ->
  retry_loop (S fuel) operation bo ctx w =
  (Return (res, context.Err ctx (Z.max (now w1) tc)),
   set_now (Z.max (now w1) tc) w1).
Proof.
  intros Hn Hs Hc Ht. cbn [retry_loop]. rewrite Hop, Herr, Hn.
  destruct (Z.eqb_spec next Stop); [contradiction|].
  unfold select_first, after_select, is_tie. rewrite Hc.
  destruct (Z.ltb_spec (now w1 + Z.max 0 next) tc); [lia|].
  destruct (Z.ltb_spec tc (now w1 + Z.max 0 next)); [|lia].
  destruct (Z.eqb_spec (now w1 + Z.max 0 next) tc); [lia | reflexivity].
Qed.

End Rounds.

Lemma retry_loop_success fuel operation bo ctx w res w1 :
  operation w = (Return (res, None), w1) ->
  backoff.retry_loop (S fuel) operation bo ctx w = (Return (res, None), w1).
Proof. intros Ho. cbn [backoff.retry_loop]. rewrite Ho. reflexivity. Qed.

(** The back-off that [retry.backoff] builds, as the loop gets it. *)
Lemma withRetry_loop fuel p r ctx oper :
  Policy_retry p = Some r ->
  withRetry fuel p ctx oper =
  backoff.retry_loop fuel (oper ctx)
    (if 0 <=? retry_maxRetries r
     then backoff.backOffContext
            (backoff.backOffTries (backoff.ConstantBackOff (retry_duration r))
               (wrap_uint64 (retry_maxRetries r)) 0) ctx
     else backoff.backOffContext (backoff.ConstantBackOff (retry_duration r)) ctx)
    ctx.
Proof.
  intros Hr. unfold withRetry, OperationRetry, backoff.RetryWithData, retry_backoff.
  rewrite Hr. destruct (0 <=? retry_maxRetries r); reflexivity.
Qed.

Lemma call_Returns s ctx w el v e :
  s ctx (now w) (length (log w)) = Returns el v e ->
  call s ctx w =
  (Return (v, e), set_now (now w + Z.of_N el) (set_log (Returns el v e :: log w) w)).
Proof. intros H. unfold call. rewrite H. reflexivity. Qed.

(** ** A negative [maxRetries] *)

Section Unbounded.
Import backoff.
Variables (s : Script) (ctx : context.Context) (d : Z).
Hypothesis Hctx : never_done ctx.
Hypothesis Hd : d <> Stop.

Local Abbreviation forever := (backOffContext (ConstantBackOff d) ctx).

Lemma NextBackOff_forever t : NextBackOff forever t = (d, forever).
Proof. cbn [NextBackOff]. unfold context.is_done. rewrite Hctx. reflexivity. Qed.

Lemma retry_loop_forever_succeeds : forall (k fuel : nat) w,
  (1 <= k <= fuel)%nat ->
  (forall i t, (i < k - 1)%nat -> fails_retryably (s ctx t (length (log w) + i)%nat)) ->
  (forall t, succeeds (s ctx t (length (log w) + (k - 1))%nat)) ->
  exists out w' b,
    retry_loop fuel (call s ctx) forever ctx w = (out, w')
    /\ length (log w') = (length (log w) + k)%nat
    /\ hd_error (log w') = Some b /\ delivers out b /\ succeeds b.
Proof.
  induction k as [|k IH]; intros fuel w Hk Hfail Hsucc; [lia|].
  destruct fuel as [|fuel]; [lia|].
  destruct (Nat.eq_dec k 0%nat) as [-> | Hk0].
  - specialize (Hsucc (now w)).
    replace (length (log w) + (1 - 1))%nat with (length (log w)) in Hsucc by lia.
    destruct (s ctx (now w) (length (log w))) as [el v [e|] | |] eqn:Eb;
      try contradiction.
    rewrite (retry_loop_success _ _ _ _ _ _ _ (call_Returns _ _ _ _ _ _ Eb)).
    eexists _, _, _. split; [reflexivity|]. simpl.
    split; [lia|]. split; [reflexivity|]. split; [reflexivity | exact I].
  - pose proof (Hfail 0%nat (now w) ltac:(lia)) as Hb.
    replace (length (log w) + 0)%nat with (length (log w)) in Hb by lia.
    destruct (s ctx (now w) (length (log w))) as [el v [e|] | |] eqn:Eb;
      try contradiction. simpl in Hb.
    rewrite (retry_loop_again _ _ _ _ _ _ (call_Returns _ _ _ _ _ _ Eb) Hb
               fuel forever forever d (NextBackOff_forever _) Hd)
      by (rewrite Hctx; exact I).
    match goal with |- context [retry_loop fuel _ _ _ ?w2] =>
      destruct (IH fuel w2) as (out & w' & b' & Hrun & Hlen & Hhd & Hdel & Hs)
    end.
    + lia.
    + intros i t Hi. cbn [log set_now set_log length].
      replace (S (length (log w)) + i)%nat with (length (log w) + S i)%nat by lia.
      apply Hfail. lia.
    + intros t. cbn [log set_now set_log length].
      replace (S (length (log w)) + (k - 1))%nat
        with (length (log w) + (S k - 1))%nat by lia.
      apply Hsucc.
    + exists out, w', b'. split; [exact Hrun|].
      cbn [log set_now set_log length] in Hlen. split; [lia|]. auto.
Qed.

Lemma retry_loop_forever_fails :
  (forall t i, fails_retryably (s ctx t i)) ->
  forall (fuel : nat) w,
  exists w',
    retry_loop fuel (call s ctx) forever ctx w = (OutOfFuel, w')
    /\ length (log w') = (length (log w) + fuel)%nat.
Proof.
  intros Hfail. induction fuel as [|fuel IH]; intros w.
  - exists w. split; [reflexivity | simpl; lia].
  - pose proof (Hfail (now w) (length (log w))) as Hb.
    destruct (s ctx (now w) (length (log w))) as [el v [e|] | |] eqn:Eb;
      try contradiction. simpl in Hb.
    rewrite (retry_loop_again _ _ _ _ _ _ (call_Returns _ _ _ _ _ _ Eb) Hb
               fuel forever forever d (NextBackOff_forever _) Hd)
      by (rewrite Hctx; exact I).
    match goal with |- context [retry_loop fuel _ _ _ ?w2] =>
      destruct (IH w2) as (w' & Hrun & Hlen)
    end.
    exists w'. split; [exact Hrun|].
    cbn [log set_now set_log length] in Hlen. lia.
Qed.

End Unbounded.

(** X2: a retry with a negative [maxRetries] puts no bound on the
    attempts.  With a delay other than the stop sentinel and a context
    that is never done, an operation that succeeds first at its [k]-th
    call is called [k] times, however large [k] is, and the caller gets
    that result; and an operation that always fails with a retryable error
    is called again and again: the executor never returns, the run ends
    only with the fuel, whatever the fuel. *)
Theorem negative_maxRetries_retries_without_bound :
  forall ctx p r s,
    Policy_retry p = Some r -> retry_maxRetries r < 0 ->
    retry_duration r <> backoff.Stop ->
    Policy_timeout p <= 0 -> Policy_circuitBreaker p = None ->
    never_done ctx ->
    (forall (k fuel : nat) w,
       (1 <= k <= fuel)%nat ->
       (forall i t, (i < k - 1)%nat ->
          fails_retryably (s ctx t (length (log w) + i)%nat)) ->
       (forall t, succeeds (s ctx t (length (log w) + (k - 1))%nat)) ->
       exists out w' b,
         NewExecutor fuel ctx (Some p) (call s) w = (out, w')
         /\ length (log w') = (length (log w) + k)%nat
         /\ hd_error (log w') = Some b /\ delivers out b /\ succeeds b)
    /\ ((forall t i, fails_retryably (s ctx t i)) ->
        forall (fuel : nat) w,
        exists w',
          NewExecutor fuel ctx (Some p) (call s) w = (OutOfFuel, w')
          /\ length (log w') = (length (log w) + fuel)%nat).
Proof.
  intros ctx p r s Hr HN Hd Ht Hc Hctx.
  assert (Hexec : forall fuel,
            NewExecutor fuel ctx (Some p) (call s) =
            backoff.retry_loop fuel (call s ctx)
              (backoff.backOffContext (backoff.ConstantBackOff (retry_duration r)) ctx)
              ctx).
  { intros fuel. rewrite NewExecutor_table, Hc, Hr.
    destruct (Z.ltb_spec 0 (Policy_timeout p)); [lia|].
    rewrite (withRetry_loop _ _ _ _ _ Hr).
    destruct (Z.leb_spec 0 (retry_maxRetries r)); [lia | reflexivity]. }
  split.
  - intros k fuel w Hk Hfail Hsucc. rewrite Hexec.
    apply retry_loop_forever_succeeds; assumption.
  - intros Hfail fuel w. rewrite Hexec.
    apply retry_loop_forever_fails; assumption.
Qed.

Lemma negative_maxRetries_retries_without_bound_witness :
  (exists out w' b,
     NewExecutor 5 context.Background (Some retry_forever) (call flaky) w0 = (out, w')
     /\ length (log w') = (length (log w0) + 3)%nat
     /\ hd_error (log w') = Some b /\ delivers out b /\ succeeds b)
  /\ (forall (fuel : nat),
      exists w',
        NewExecutor fuel context.Background (Some retry_forever)
          (call always_fails) w0 = (OutOfFuel, w')
        /\ length (log w') = (length (log w0) + fuel)%nat).
Proof.
  split.
  - apply (proj1 (negative_maxRetries_retries_without_bound context.Background
                    retry_forever
                    {| retry_duration := 10 * time.Millisecond;
                       retry_maxRetries := -1 |}
                    flaky eq_refl ltac:(simpl; lia) ltac:(vm_compute; discriminate)
                    ltac:(simpl; lia) eq_refl eq_refl) 3%nat 5%nat w0).
    + lia.
    + intros i t Hi. simpl in *. destruct i as [|[|i]]; [reflexivity | reflexivity | lia].
    + intros t. exact I.
  - intros fuel.
    apply (proj2 (negative_maxRetries_retries_without_bound context.Background
                    retry_forever
                    {| retry_duration := 10 * time.Millisecond;
                       retry_maxRetries := -1 |}
                    always_fails eq_refl ltac:(simpl; lia)
                    ltac:(vm_compute; discriminate)
                    ltac:(simpl; lia) eq_refl eq_refl)).
    intros t i. reflexivity.
Defined.

Lemma wrap_uint64_small z : 0 <= z < 2 ^ 64 -> wrap_uint64 z = z.
Proof. intros H. unfold wrap_uint64. apply Z.mod_small, H. Qed.

Lemma context_Err_done ctx t tc :
  context.done_at ctx = Some tc -> tc <= t ->
  exists e, context.Err ctx t = Some e /\ (e = Canceled \/ e = DeadlineExceeded).
Proof.
  unfold context.Err, context.is_done. intros -> Ht.
  destruct (Z.leb_spec tc t); [|lia].
  destruct (context.deadline ctx), (context.cancel_at ctx);
    try destruct (_ <? _); eauto.
Qed.

(** The first delay of the back-off of a retry that has retries left,
    asked for while the context is not done. *)
Lemma NextBackOff_first r ctx t :
  retry_maxRetries r <> 0 -> - 2 ^ 63 <= retry_maxRetries r < 2 ^ 63 ->
  context.is_done ctx t = false ->
  exists bo',
    backoff.NextBackOff
      (if 0 <=? retry_maxRetries r
       then backoff.backOffContext
              (backoff.backOffTries (backoff.ConstantBackOff (retry_duration r))
                 (wrap_uint64 (retry_maxRetries r)) 0) ctx
       else backoff.backOffContext (backoff.ConstantBackOff (retry_duration r)) ctx)
      t = (retry_duration r, bo').
Proof.
  intros H0 HN Hdone. rewrite pow2_63 in HN.
  destruct (Z.leb_spec 0 (retry_maxRetries r)); cbn [backoff.NextBackOff];
    rewrite Hdone; [|eauto].
  rewrite wrap_uint64_small by (rewrite pow2_64; lia).
  destruct (Z.eqb_spec (retry_maxRetries r) 0); [contradiction|].
  destruct (Z.leb_spec (retry_maxRetries r) 0); [lia|]. eauto.
Qed.

Lemma NextBackOff_done r ctx t :
  context.is_done ctx t = true ->
  exists bo',
    backoff.NextBackOff
      (if 0 <=? retry_maxRetries r
       then backoff.backOffContext
              (backoff.backOffTries (backoff.ConstantBackOff (retry_duration r))
                 (wrap_uint64 (retry_maxRetries r)) 0) ctx
       else backoff.backOffContext (backoff.ConstantBackOff (retry_duration r)) ctx)
      t = (backoff.Stop, bo').
Proof.
  intros Hdone.
  destruct (0 <=? retry_maxRetries r); cbn [backoff.NextBackOff];
    rewrite Hdone; eauto.
Qed.

(** X3: the retry loop gives up when the caller's context is done.  The
    first attempt fails with a retryable error; the context is done by
    the end of that attempt, or, retries being left, before the wait for
    the second attempt is over.  Then the executor returns after that one
    attempt, at the later of the two instants, with the value of the
    attempt and with the error of the context, cancelled or deadline
    exceeded, in place of the operation's error. *)
Theorem retry_gives_up_when_context_is_done :
  forall fuel ctx p r s w tc el v e,
    Policy_retry p = Some r ->
    Policy_timeout p <= 0 -> Policy_circuitBreaker p = None ->
    context.done_at ctx = Some tc ->
    s ctx (now w) (length (log w)) = Returns el v (Some e) ->
    As_PermanentError e = None ->
    tc <= now w + Z.of_N el
    \/ (tc < now w + Z.of_N el + Z.max 0 (retry_duration r)
        /\ retry_duration r <> backoff.Stop
        /\ retry_maxRetries r <> 0
        /\ - 2 ^ 63 <= retry_maxRetries r < 2 ^ 63) ->
    exists cerr w',
      NewExecutor (S fuel) ctx (Some p) (call s) w = (Return (v, Some cerr), w')
      /\ (cerr = Canceled \/ cerr = DeadlineExceeded)
      /\ context.Err ctx (now w') = Some cerr
      /\ log w' = Returns el v (Some e) :: log w
      /\ now w' = Z.max (now w + Z.of_N el) tc.
Proof.
  intros fuel ctx p r s w tc el v e Hr Ht Hc Hdone Hbeh Hperm Hcase.
  rewrite NewExecutor_table, Hc, Hr.
  destruct (Z.ltb_spec 0 (Policy_timeout p)); [lia|].
  rewrite (withRetry_loop _ _ _ _ _ Hr).
  pose proof (call_Returns _ _ _ _ _ _ Hbeh) as Hcall.
  set (w1 := set_now (now w + Z.of_N el) (set_log (Returns el v (Some e) :: log w) w))
    in *.
  assert (Hnow1 : now w1 = now w + Z.of_N el) by reflexivity.
  destruct (Z.le_gt_cases tc (now w + Z.of_N el)) as [Hle|Hgt].
  - (* done when the attempt ends *)
    destruct (context_Err_done ctx (now w1) tc Hdone) as (cerr & Hcerr & Hkind);
      [rewrite Hnow1; exact Hle|].
    destruct (NextBackOff_done r ctx (now w1)) as [bo' Hnext].
    { unfold context.is_done. rewrite Hdone. apply Z.leb_le. rewrite Hnow1. exact Hle. }
    rewrite (retry_loop_exhausted _ _ _ _ _ _ Hcall Hperm fuel _ _ Hnext).
    rewrite Hcerr. exists cerr, w1. split; [reflexivity|].
    split; [exact Hkind|]. split; [exact Hcerr|]. split; [reflexivity|].
    rewrite Hnow1. lia.
  - (* done during the wait *)
    destruct Hcase as [Hle | (Hlt & Hd & H0 & HN)]; [lia|].
    destruct (NextBackOff_first r ctx (now w1) H0 HN) as [bo' Hnext].
    { unfold context.is_done. rewrite Hdone. apply Z.leb_gt. rewrite Hnow1. lia. }
    rewrite (retry_loop_interrupted _ _ _ _ _ _ Hcall Hperm fuel _ _ _ tc Hnext Hd Hdone)
      by (rewrite Hnow1; exact Hlt).
    destruct (context_Err_done ctx (Z.max (now w1) tc) tc Hdone)
      as (cerr & Hcerr & Hkind); [lia|].
    rewrite Hcerr. eexists _, _. split; [reflexivity|].
    split; [exact Hkind|]. split; [exact Hcerr|]. split; reflexivity.
Qed.

Lemma retry_gives_up_when_context_is_done_witness :
  exists cerr w',
    NewExecutor 4 cancelled_in_1s (Some retry3) (call always_fails) w0 =
    (Return (None, Some cerr), w')
    /\ (cerr = Canceled \/ cerr = DeadlineExceeded)
    /\ context.Err cancelled_in_1s (now w') = Some cerr
    /\ log w' = Returns 0 None (Some (errorString "test error")) :: log w0
    /\ now w' = Z.max (now w0 + Z.of_N 0) (now w0 + 1 * time.Second).
Proof.
  apply (retry_gives_up_when_context_is_done 3%nat cancelled_in_1s retry3
           {| retry_duration := 2 * time.Second; retry_maxRetries := 3 |}
           always_fails w0 (now w0 + 1 * time.Second) 0%N None
           (errorString "test error") eq_refl);
    [simpl; lia | reflexivity | reflexivity | reflexivity | reflexivity |].
  right. split; [vm_compute; reflexivity|].
  split; [vm_compute; discriminate|]. split; [simpl; lia|].
  vm_compute. split; [discriminate | reflexivity].
Defined.

(** ** The time the retry loop takes *)

Section RetryTime.
Import backoff.
Variables (s : Script) (ctx : context.Context) (d N : Z).
Hypothesis Hctx : never_done ctx.
Hypothesis Hd : d <> Stop.
Hypothesis HN : 0 <= N < 2 ^ 64.

Local Abbreviation tries j :=
  (backOffContext (backOffTries (ConstantBackOff d) N j) ctx).

Lemma retry_loop_time : forall (m : nat) (k : nat) (j : Z) (fuel : nat) (w : World),
  (1 <= m)%nat -> (1 <= k)%nat -> 0 <= j -> j + Z.of_nat m = N + 1 ->
  (m <= fuel)%nat ->
  (forall i t, (i < k - 1)%nat -> (i < m)%nat ->
     fails_retryably (s ctx t (length (log w) + i)%nat)) ->
  ((k <= m)%nat -> forall t, succeeds (s ctx t (length (log w) + (k - 1))%nat)) ->
  exists out w' new,
    retry_loop fuel (call s ctx) (tries j) ctx w = (out, w')
    /\ log w' = new ++ log w
    /\ length new = Nat.min k m
    /\ now w' = now w + busy new + (Z.of_nat (Nat.min k m) - 1) * Z.max 0 d.
Proof.
  induction m as [|m IH]; intros k j fuel w Hm Hk Hj Hjm Hfuel Hfail Hsucc; [lia|].
  destruct fuel as [|fuel]; [lia|].
  destruct (Nat.eq_dec k 1%nat) as [-> | Hk1].
  - specialize (Hsucc ltac:(lia) (now w)).
    replace (length (log w) + (1 - 1))%nat with (length (log w)) in Hsucc by lia.
    destruct (s ctx (now w) (length (log w))) as [el v [e|] | |] eqn:Eb;
      try contradiction.
    rewrite (retry_loop_success _ _ _ _ _ _ _ (call_Returns _ _ _ _ _ _ Eb)).
    eexists _, _, [_]. split; [reflexivity|]. split; [reflexivity|].
    split; [simpl; lia|]. simpl. lia.
  - pose proof (Hfail 0%nat (now w) ltac:(lia) ltac:(lia)) as Hb.
    replace (length (log w) + 0)%nat with (length (log w)) in Hb by lia.
    destruct (s ctx (now w) (length (log w))) as [el v [e|] | |] eqn:Eb;
      try contradiction. simpl in Hb.
    pose proof (call_Returns _ _ _ _ _ _ Eb) as Hcall.
    pose proof (NextBackOff_tries ctx d N Hctx HN j
                  (now w + Z.of_N el) ltac:(lia)) as Hnext.
    destruct (Z.leb_spec N j) as [Hlast|Hmore].
    + rewrite (retry_loop_exhausted _ _ _ _ _ _ Hcall Hb fuel _ _ Hnext).
      rewrite (never_done_Err ctx Hctx).
      assert (m = 0%nat) as -> by lia.
      eexists _, _, [_]. split; [reflexivity|]. split; [reflexivity|].
      split; [simpl; lia|]. simpl. lia.
    + rewrite (retry_loop_again _ _ _ _ _ _ Hcall Hb fuel _ _ _ Hnext Hd)
        by (rewrite Hctx; exact I).
      match goal with |- context [retry_loop fuel _ _ _ ?w2] =>
        destruct (IH (k - 1)%nat (j + 1) fuel w2)
          as (out & w' & new & Hrun & Hlog & Hlen & Hnow)
      end; try lia.
      * intros i t Hi Him. cbn [log set_now set_log length].
        replace (S (length (log w)) + i)%nat with (length (log w) + S i)%nat by lia.
        apply Hfail; lia.
      * intros Hkm t. cbn [log set_now set_log length].
        replace (S (length (log w)) + (k - 1 - 1))%nat
          with (length (log w) + (k - 1))%nat by lia.
        apply Hsucc. lia.
      * exists out, w', (new ++ [Returns el v (Some e)]).
        split; [exact Hrun|]. cbn [log now set_now set_log] in Hlog, Hnow.
        split; [rewrite Hlog, <- app_assoc; reflexivity|].
        split; [rewrite length_app; simpl; lia|].
        rewrite Hnow. unfold busy. rewrite foldr_app. simpl.
        fold (busy new).
        assert (Hb' : forall l a, foldr (fun b acc => took b + acc) a l = busy l + a).
        { clear. induction l as [|x l IHl]; intros a; simpl; [lia|].
          rewrite IHl. unfold busy. fold (busy l). lia. }
        rewrite Hb'. lia.
Qed.

End RetryTime.

(** X4: the time the retry loop takes.  Under the conditions of a bounded
    retry (a delay other than the stop sentinel, a context that is never
    done), the executor returns after the time that the attempts
    themselves took plus one delay between every two attempts, a negative
    delay counting as none: there is no wait before the first attempt and
    none after the last. *)
Theorem retry_waits_between_attempts_only :
  forall fuel ctx p r s w (k : nat),
    Policy_retry p = Some r ->
    0 <= retry_maxRetries r < 2 ^ 63 ->
    retry_duration r <> backoff.Stop ->
    Policy_timeout p <= 0 -> Policy_circuitBreaker p = None ->
    never_done ctx ->
    (1 <= k)%nat ->
    (Z.to_nat (retry_maxRetries r) < fuel)%nat ->
    let attempts := S (Z.to_nat (retry_maxRetries r)) in
    (forall i t, (i < k - 1)%nat -> (i < attempts)%nat ->
       fails_retryably (s ctx t (length (log w) + i)%nat)) ->
    ((k <= attempts)%nat ->
     forall t, succeeds (s ctx t (length (log w) + (k - 1))%nat)) ->
    exists out w' new,
      NewExecutor fuel ctx (Some p) (call s) w = (out, w')
      /\ log w' = new ++ log w
      /\ length new = Nat.min k attempts
      /\ now w' =
         now w + busy new
         + (Z.of_nat (Nat.min k attempts) - 1) * Z.max 0 (retry_duration r).
Proof.
  intros fuel ctx p r s w k Hr HN Hd Ht Hc Hctx Hk Hfuel attempts Hfail Hsucc.
  assert (H64 : 0 <= retry_maxRetries r < 2 ^ 64).
  { rewrite pow2_63 in HN. rewrite pow2_64. lia. }
  rewrite NewExecutor_table, Hc, Hr.
  destruct (Z.ltb_spec 0 (Policy_timeout p)); [lia|].
  rewrite (withRetry_loop _ _ _ _ _ Hr).
  destruct (Z.leb_spec 0 (retry_maxRetries r)); [|lia].
  rewrite wrap_uint64_small by exact H64.
  apply (retry_loop_time s ctx (retry_duration r) (retry_maxRetries r)
           Hctx Hd H64 attempts k 0 fuel w); unfold attempts; try lia;
    assumption.
Qed.

Lemma retry_waits_between_attempts_only_witness :
  exists out w' new,
    NewExecutor 4 context.Background (Some retry3) (call flaky) w0 = (out, w')
    /\ log w' = new ++ log w0
    /\ length new = Nat.min 3 (S (Z.to_nat 3))
    /\ now w' =
       now w0 + busy new
       + (Z.of_nat (Nat.min 3 (S (Z.to_nat 3))) - 1) * Z.max 0 (2 * time.Second).
Proof.
  apply (retry_waits_between_attempts_only 4%nat context.Background retry3
           {| retry_duration := 2 * time.Second; retry_maxRetries := 3 |}
           flaky w0 3%nat eq_refl).
  - simpl. lia.
  - vm_compute. discriminate.
  - simpl. lia.
  - reflexivity.
  - reflexivity.
  - lia.
  - simpl. lia.
  - intros i t Hi _. simpl in *.
    destruct i as [|[|i]]; [reflexivity | reflexivity | lia].
  - intros _ t. exact I.
Defined.

(** ** One retry budget for every call *)

Section Budget.
Variables (fuel : nat) (ctx : context.Context) (p : Policy) (r : retry) (s : Script).
Hypothesis Hr : Policy_retry p = Some r.
Hypothesis HN : 0 <= retry_maxRetries r < 2 ^ 63.
Hypothesis Hd : retry_duration r <> backoff.Stop.
Hypothesis Ht : Policy_timeout p <= 0.
Hypothesis Hc : Policy_circuitBreaker p = None.
Hypothesis Hctx : never_done ctx.
Hypothesis Hfuel : (Z.to_nat (retry_maxRetries r) < fuel)%nat.
Hypothesis Hfail : forall t i, fails_retryably (s ctx t i).

Lemma NewExecutor_exhausts w :
  exists out w',
    NewExecutor fuel ctx (Some p) (call s) w = (out, w')
    /\ length (log w') = (length (log w) + S (Z.to_nat (retry_maxRetries r)))%nat.
Proof.
  assert (H64 : 0 <= retry_maxRetries r < 2 ^ 64).
  { rewrite pow2_63 in HN. rewrite pow2_64. lia. }
  rewrite NewExecutor_table, Hc, Hr.
  destruct (Z.ltb_spec 0 (Policy_timeout p)); [lia|].
  rewrite (withRetry_loop _ _ _ _ _ Hr).
  destruct (Z.leb_spec 0 (retry_maxRetries r)); [|lia].
  rewrite wrap_uint64_small by exact H64.
  set (m := S (Z.to_nat (retry_maxRetries r))).
  destruct (retry_loop_attempts s ctx (retry_duration r) (retry_maxRetries r)
              Hctx Hd H64 m (S m) 0 fuel w)
    as (out & w' & b & Hrun & Hlen & _); unfold m; try lia.
  - intros i t _ _. apply Hfail.
  - exists out, w'. split; [exact Hrun|]. rewrite Hlen. lia.
Qed.

End Budget.

(** X5: every call of an executor has the whole retry budget: the
    back-off is built anew for each call, so [n] calls of the executor
    around an operation that always fails with a retryable error call the
    operation [n * (maxRetries + 1)] times. *)
Theorem every_call_has_the_whole_retry_budget :
  forall fuel ctx p r s,
    Policy_retry p = Some r ->
    0 <= retry_maxRetries r < 2 ^ 63 ->
    retry_duration r <> backoff.Stop ->
    Policy_timeout p <= 0 -> Policy_circuitBreaker p = None ->
    never_done ctx ->
    (Z.to_nat (retry_maxRetries r) < fuel)%nat ->
    (forall t i, fails_retryably (s ctx t i)) ->
    forall (n : nat) w,
      length (log (calls n (NewExecutor fuel ctx (Some p) (call s)) w)) =
      (length (log w) + n * S (Z.to_nat (retry_maxRetries r)))%nat.
Proof.
  intros fuel ctx p r s Hr HN Hd Ht Hc Hctx Hfuel Hfail.
  induction n as [|n IH]; intros w; cbn [calls]; [lia|].
  destruct (NewExecutor_exhausts fuel ctx p r s Hr HN Hd Ht Hc Hctx Hfuel Hfail w)
    as (out & w' & Hrun & Hlen).
  rewrite Hrun. cbn [snd]. rewrite IH, Hlen. lia.
Qed.

Lemma every_call_has_the_whole_retry_budget_witness :
  length (log (calls 2 (NewExecutor 4 context.Background (Some retry3)
                          (call always_fails)) w0)) =
  (length (log w0) + 2 * S (Z.to_nat 3))%nat.
Proof.
  apply (every_call_has_the_whole_retry_budget 4%nat context.Background retry3
           {| retry_duration := 2 * time.Second; retry_maxRetries := 3 |}
           always_fails eq_refl).
  - simpl. lia.
  - vm_compute. discriminate.
  - simpl. lia.
  - reflexivity.
  - reflexivity.
  - simpl. lia.
  - intros t i. reflexivity.
Defined.

(** X6: an operation error that carries the permanent marker is not
    retried.  Under a retry alone, when the operation returns an error
    with a permanent marker on its unwrap chain, the executor returns
    after that one call, whatever retries are left, with the value of the
    call and with the error inside the first marker: the marker and what
    was wrapped around it are dropped. *)
Theorem permanent_operation_error_is_not_retried :
  forall fuel p r ctx s w el v e inner,
    Policy_retry p = Some r ->
    Policy_timeout p <= 0 -> Policy_circuitBreaker p = None ->
    s ctx (now w) (length (log w)) = Returns el v (Some e) ->
    As_PermanentError e = Some inner ->
    NewExecutor (S fuel) ctx (Some p) (call s) w =
    (Return (v, Some inner),
     set_now (now w + Z.of_N el) (set_log (Returns el v (Some e) :: log w) w)).
Proof.
  intros fuel p r ctx s w el v e inner Hr Ht Hc Hbeh Hperm.
  rewrite NewExecutor_table, Hc, Hr.
  destruct (Z.ltb_spec 0 (Policy_timeout p)); [lia|].
  rewrite (withRetry_loop _ _ _ _ _ Hr).
  apply retry_loop_permanent with (err := e); [|exact Hperm].
  apply call_Returns, Hbeh.
Qed.

Lemma permanent_operation_error_is_not_retried_witness :
  NewExecutor 4 context.Background (Some retry3) (call permanent_failure) w0 =
  (Return (None, Some (errorString "fatal")),
   set_now (now w0 + Z.of_N 0)
     (set_log (Returns 0 None (Some (PermanentError (errorString "fatal")))
               :: log w0) w0)).
Proof.
  apply (permanent_operation_error_is_not_retried 3%nat retry3
           {| retry_duration := 2 * time.Second; retry_maxRetries := 3 |}
           context.Background permanent_failure w0 0%N None
           (PermanentError (errorString "fatal")) (errorString "fatal") eq_refl).
  - simpl. lia.
  - reflexivity.
  - reflexivity.
  - reflexivity.
Defined.

(** ** The timeout guard under the retry loop *)

Lemma never_done_fields ctx :
  never_done ctx -> context.deadline ctx = None /\ context.cancel_at ctx = None.
Proof.
  unfold never_done, context.done_at.
  destruct (context.deadline ctx), (context.cancel_at ctx); intros H;
    try discriminate; auto.
Qed.

Section SlowOperation.
Import backoff.
Variables (p : Policy) (s : Script) (ctx : context.Context).
Hypothesis Hctx : never_done ctx.
Hypothesis Ht : 0 < Policy_timeout p.
Hypothesis Hslow : forall c t i, slower_than (Policy_timeout p) (s c t i).

Lemma withTimeout_slow w :
  exists w',
    withTimeout p (call s) ctx w = (Return (None, Some DeadlineExceeded), w')
    /\ length (log w') = S (length (log w))
    /\ heap w' = heap w
    /\ now w' = now w + Policy_timeout p.
Proof.
  destruct (never_done_fields ctx Hctx) as [Hdl Hca].
  assert (Hgd : guard_deadline ctx (now w) (Policy_timeout p) =
                now w + Policy_timeout p).
  { unfold guard_deadline, context.done_at, context.WithTimeout. simpl.
    rewrite Hdl, Hca. simpl. lia. }
  destruct (guard_deadline_Err p ctx w) as (e & He & _ & Hde).
  rewrite (Hde Hca) in He. clear Hde.
  destruct (withTimeout_call p ctx s w) as (r & w' & Hrun & Hlog & Hheap & Hrace).
  cbv zeta in Hrace. rewrite Hgd, He in *.
  pose proof (Hslow (context.WithTimeout ctx (now w) (Policy_timeout p)) (now w)
                (length (log w))) as Hb.
  destruct (s _ (now w) (length (log w))) as [el v e'|el r'|];
    cbn [completes_at slower_than] in *.
  - destruct Hrace as (_ & H2 & _). destruct H2 as [-> Hnow]; [lia|].
    exists w'. rewrite Hlog. auto.
  - destruct Hrace as (_ & H2 & _). destruct H2 as [-> Hnow]; [lia|].
    exists w'. rewrite Hlog. auto.
  - destruct Hrace as [-> Hnow]. exists w'. rewrite Hlog. auto.
Qed.

Variables d N : Z.
Hypothesis Hd : d <> Stop.
Hypothesis HN : 0 <= N < 2 ^ 64.

Lemma retry_loop_slow : forall (m : nat) (j : Z) (fuel : nat) w,
  (1 <= m)%nat -> 0 <= j -> j + Z.of_nat m = N + 1 -> (m <= fuel)%nat ->
  exists w',
    retry_loop fuel (withTimeout p (call s) ctx)
      (backOffContext (backOffTries (ConstantBackOff d) N j) ctx) ctx w =
    (Return (None, Some DeadlineExceeded), w')
    /\ length (log w') = (length (log w) + m)%nat
    /\ heap w' = heap w
    /\ now w' = now w + Z.of_nat m * Policy_timeout p
                + (Z.of_nat m - 1) * Z.max 0 d.
Proof.
  induction m as [|m IH]; intros j fuel w Hm Hj Hjm Hfuel; [lia|].
  destruct fuel as [|fuel]; [lia|].
  destruct (withTimeout_slow w) as (w1 & Hrun & Hlog & Hheap & Hnow).
  pose proof (NextBackOff_tries ctx d N Hctx HN j (now w1) ltac:(lia)) as Hnext.
  destruct (Z.leb_spec N j) as [Hlast|Hmore].
  - rewrite (retry_loop_exhausted _ _ _ _ _ _ Hrun eq_refl fuel _ _ Hnext).
    rewrite (never_done_Err ctx Hctx). assert (m = 0%nat) as -> by lia.
    exists w1. split; [reflexivity|]. split; [lia|]. split; [exact Hheap|]. lia.
  - rewrite (retry_loop_again _ _ _ _ _ _ Hrun eq_refl fuel _ _ _ Hnext Hd)
      by (rewrite Hctx; exact I).
    destruct (IH (j + 1) fuel (set_now (now w1 + Z.max 0 d) w1))
      as (w' & Hrun' & Hlog' & Hheap' & Hnow'); try lia.
    exists w'. split; [exact Hrun'|].
    cbn [log heap now set_now] in *.
    split; [lia|]. split; [congruence|]. lia.
Qed.

End SlowOperation.

(** X7: the timeout bounds each attempt, not the whole call.  With a
    timeout and a bounded retry, and an operation that never has a result
    within the timeout, every one of the [maxRetries + 1] attempts is cut
    off at the timeout, the caller gets the deadline error, and the call
    takes [maxRetries + 1] timeouts plus [maxRetries] delays. *)
Theorem retry_repeats_attempts_that_time_out :
  forall fuel ctx p r s w,
    Policy_retry p = Some r ->
    0 <= retry_maxRetries r < 2 ^ 63 ->
    retry_duration r <> backoff.Stop ->
    0 < Policy_timeout p -> Policy_circuitBreaker p = None ->
    never_done ctx ->
    (Z.to_nat (retry_maxRetries r) < fuel)%nat ->
    (forall c t i, slower_than (Policy_timeout p) (s c t i)) ->
    exists w',
      NewExecutor fuel ctx (Some p) (call s) w =
      (Return (None, Some DeadlineExceeded), w')
      /\ length (log w') = (length (log w) + S (Z.to_nat (retry_maxRetries r)))%nat
      /\ now w' = now w + (retry_maxRetries r + 1) * Policy_timeout p
                  + retry_maxRetries r * Z.max 0 (retry_duration r).
Proof.
  intros fuel ctx p r s w Hr HN Hd Ht Hc Hctx Hfuel Hslow.
  assert (H64 : 0 <= retry_maxRetries r < 2 ^ 64).
  { rewrite pow2_63 in HN. rewrite pow2_64. lia. }
  rewrite NewExecutor_table, Hc, Hr.
  destruct (Z.ltb_spec 0 (Policy_timeout p)); [|lia].
  rewrite (withRetry_loop _ _ _ _ _ Hr).
  destruct (Z.leb_spec 0 (retry_maxRetries r)); [|lia].
  rewrite wrap_uint64_small by exact H64.
  destruct (retry_loop_slow p s ctx Hctx Ht Hslow (retry_duration r)
              (retry_maxRetries r) Hd H64 (S (Z.to_nat (retry_maxRetries r))) 0
              fuel w) as (w' & Hrun & Hlog & _ & Hnow); try lia.
  exists w'. split; [exact Hrun|]. split; [exact Hlog|].
  rewrite Hnow. rewrite Nat2Z.inj_succ, Z2Nat.id by lia. lia.
Qed.

Lemma retry_repeats_attempts_that_time_out_witness :
  exists w',
    NewExecutor 4 context.Background (Some timeout_retry3) (call five_seconds) w0 =
    (Return (None, Some DeadlineExceeded), w')
    /\ length (log w') = (length (log w0) + S (Z.to_nat 3))%nat
    /\ now w' = now w0 + (3 + 1) * (1 * time.Second)
                + 3 * Z.max 0 (10 * time.Millisecond).
Proof.
  apply (retry_repeats_attempts_that_time_out 4%nat context.Background
           timeout_retry3
           {| retry_duration := 10 * time.Millisecond; retry_maxRetries := 3 |}
           five_seconds w0 eq_refl).
  - simpl. lia.
  - vm_compute. discriminate.
  - reflexivity.
  - reflexivity.
  - reflexivity.
  - simpl. lia.
  - intros c t i. reflexivity.
Defined.

Section Admission.
Import gobreaker gobreaker_run.

(** A request that the breaker admits runs once, and its result is
    handed on. *)
Lemma Execute_admits cb s ctx w b el v e :
  heap w !! cb = Some b -> rejection b (now w) = None ->
  s ctx (now w) (length (log w)) = Returns el v e ->
  exists w',
    Execute cb (call s ctx) w = (Return (v, e), w')
    /\ log w' = Returns el v e :: log w
    /\ now w' = now w + Z.of_N el
    /\ length (heap w') = length (heap w).
Proof.
  intros Hb Hrej Hbeh. unfold Execute, rejection in *. rewrite Hb.
  destruct (beforeRequest b (now w)) as [b1 [g err]]. simpl in Hrej. subst err.
  unfold call. cbn [now log set_heap]. rewrite Hbeh.
  eexists. split; [reflexivity|]. cbn [now log heap set_heap set_now set_log].
  rewrite length_alter, length_insert. auto.
Qed.

End Admission.

(** X8: under a retry the breaker guard marks as permanent every error
    for which [IsErrorPermanent] holds, not only the rejections of its
    own breaker.  When the breaker lets the call through and the
    operation itself returns an error that has the open-state or the
    too-many-requests error on its unwrap chain, the retry loop ends
    after that one call and the caller gets the operation's error as it
    was. *)
Theorem operation_error_wrapping_a_rejection_stops_retry :
  forall fuel p c r s ctx w b el v e,
    Policy_circuitBreaker p = Some c -> Policy_retry p = Some r ->
    Policy_timeout p <= 0 ->
    heap w !! breaker c = Some b -> rejection b (now w) = None ->
    s ctx (now w) (length (log w)) = Returns el v (Some e) ->
    IsErrorPermanent (Some e) = true ->
    exists w',
      NewExecutor (S fuel) ctx (Some p) (call s) w = (Return (v, Some e), w')
      /\ log w' = Returns el v (Some e) :: log w
      /\ now w' = now w + Z.of_N el.
Proof.
  intros fuel p c r s ctx w b el v e Hc Hr Ht Hb Hrej Hbeh Hperm.
  destruct (Execute_admits (breaker c) s ctx w b el v (Some e) Hb Hrej Hbeh)
    as (w' & Hrun & Hlog & Hnow & _).
  exists w'. split; [|auto].
  rewrite NewExecutor_table, Hc, Hr.
  destruct (Z.ltb_spec 0 (Policy_timeout p)); [lia|].
  rewrite (withRetry_loop _ _ _ _ _ Hr).
  apply retry_loop_permanent with (err := PermanentError e); [|reflexivity].
  unfold withCircuitBreaker, bind. rewrite Hc, Hrun, Hr, Hperm. reflexivity.
Qed.

Lemma operation_error_wrapping_a_rejection_stops_retry_witness :
  exists w',
    NewExecutor 4 context.Background (Some breaker_retry3)
      (call downstream_rejection) (w_closed 2 (10 * time.Second)) =
    (Return (None, Some (wrapError "downstream: " ErrOpenState)), w')
    /\ log w' =
       Returns 0 None (Some (wrapError "downstream: " ErrOpenState))
       :: log (w_closed 2 (10 * time.Second))
    /\ now w' = now (w_closed 2 (10 * time.Second)) + Z.of_N 0.
Proof.
  apply (operation_error_wrapping_a_rejection_stops_retry 3%nat breaker_retry3
           {| breaker := 0 |}
           {| retry_duration := 10 * time.Millisecond; retry_maxRetries := 3 |}
           downstream_rejection context.Background (w_closed 2 (10 * time.Second))
           (gobreaker.NewCircuitBreaker (settings 2 (10 * time.Second)) (now w0))
           0%N None (wrapError "downstream: " ErrOpenState) eq_refl eq_refl).
  - simpl. lia.
  - reflexivity.
  - reflexivity.
  - reflexivity.
  - reflexivity.
Defined.

(** ** The breaker around the timeout guard *)

Section TimeoutsTrip.
Import gobreaker gobreaker_run.
Variables (p : Policy) (c : circuitBreaker) (s : Script) (ctx : context.Context).
Variable F : Z.
Hypothesis Hc : Policy_circuitBreaker p = Some c.
Hypothesis Hctx : never_done ctx.
Hypothesis Ht : 0 < Policy_timeout p.
Hypothesis Hslow : forall c' t i, slower_than (Policy_timeout p) (s c' t i).
Hypothesis HF : 0 <= F < 2 ^ 32.

Local Abbreviation guarded := (withCircuitBreaker p (withTimeout p (call s)) ctx).

Lemma withCircuitBreaker_timeout w b :
  heap w !! breaker c = Some b -> state b = StateClosed ->
  window_open b (now w + Policy_timeout p) ->
  exists w',
    guarded w = (Return (None, Some DeadlineExceeded), w')
    /\ now w' = now w + Policy_timeout p
    /\ length (log w') = S (length (log w))
    /\ heap w' !! breaker c = Some (after_failure b (now w + Policy_timeout p)).
Proof.
  intros Hb Hs Hwin.
  assert (Hwin0 : window_open b (now w)).
  { unfold window_open in *. destruct (expiry b); [lia | exact I]. }
  unfold withCircuitBreaker, bind. rewrite Hc. unfold Execute. rewrite Hb.
  unfold beforeRequest. rewrite (currentState_closed _ _ Hs Hwin0), Hs.
  set (b1 := with_counts b (Counts_onRequest (counts b))).
  set (w1 := set_heap (<[breaker c := b1]> (heap w)) w).
  destruct (withTimeout_slow p s ctx Hctx Ht Hslow w1)
    as (w2 & Hrun & Hlog & Hheap & Hnow).
  rewrite Hrun. cbn [isSuccessful]. unfold ret.
  change (IsErrorPermanent (Some DeadlineExceeded)) with false.
  rewrite andb_false_r.
  eexists. split; [reflexivity|]. cbn [now log heap set_heap].
  split; [exact Hnow|]. split; [exact Hlog|].
  pose proof (lookup_lt_Some _ _ _ Hb) as Hlt.
  rewrite Hheap. unfold w1. cbn [heap set_heap].
  rewrite list_lookup_alter_eq, list_lookup_insert_eq by exact Hlt. simpl.
  f_equal. unfold afterRequest, after_failure. fold w1. rewrite Hnow.
  change (now w1) with (now w).
  rewrite (currentState_closed b1 _ Hs Hwin). simpl.
  rewrite Z.eqb_refl. simpl. rewrite Hs. reflexivity.
Qed.

Lemma timeouts_trip_after : forall (m : nat) w b,
  (1 <= m)%nat ->
  heap w !! breaker c = Some b -> state b = StateClosed ->
  readyToTrip b = tripFn F ->
  0 <= ConsecutiveFailures (counts b) ->
  ConsecutiveFailures (counts b) + Z.of_nat m = Z.max 1 F ->
  window_open b (now w + Z.of_nat m * Policy_timeout p) ->
  exists b',
    heap (calls m guarded w) !! breaker c = Some b'
    /\ state b' = StateOpen
    /\ expiry b' = Some (now (calls m guarded w) + timeout b)
    /\ now (calls m guarded w) = now w + Z.of_nat m * Policy_timeout p
    /\ length (log (calls m guarded w)) = (length (log w) + m)%nat.
Proof.
  induction m as [|m IH]; intros w b Hm Hb Hs Hrt Hcf Hsum Hwin; [lia|].
  cbn [calls].
  destruct (withCircuitBreaker_timeout w b Hb Hs) as (w1 & Hrun & Hnow & Hlog & Hheap).
  { unfold window_open in *. destruct (expiry b); [nia | exact I]. }
  rewrite Hrun. cbn [snd].
  destruct (Nat.eq_dec m 0%nat) as [-> | Hm0].
  - cbn [calls]. exists (after_failure b (now w + Policy_timeout p)).
    destruct (after_failure_trips b (now w + Policy_timeout p) F Hs Hrt) as [H1 H2].
    { rewrite wrap_uint32_small by lia. lia. }
    rewrite Hnow, Hlog. repeat split; auto; lia.
  - destruct (after_failure_counts b (now w + Policy_timeout p) F Hs Hrt)
      as (H1 & H2 & H3 & H4 & H5).
    { rewrite wrap_uint32_small by lia. lia. }
    rewrite wrap_uint32_small in H5 by lia.
    destruct (IH w1 (after_failure b (now w + Policy_timeout p)))
      as (b' & G1 & G2 & G3 & G4 & G5); try assumption; try lia.
    { unfold window_open in *. rewrite H2, Hnow.
      destruct (expiry b); [nia | exact I]. }
    exists b'. rewrite G3, G4, G5, Hnow, Hlog, H4.
    repeat split; auto; lia.
Qed.

End TimeoutsTrip.

(** X9: a timeout counts as a failure for the breaker.  With a timeout
    and a breaker and no retry, every call of an operation that never has
    a result within the timeout returns the deadline error after exactly
    the timeout, and [max 1 F] such calls in a row, recorded within the
    counting window, open a closed breaker with threshold [F] that had
    counted nothing; its cool-down runs from the end of the last call. *)
Theorem timeouts_trip_the_breaker :
  forall fuel p c s ctx w b F,
    Policy_circuitBreaker p = Some c -> Policy_retry p = None ->
    0 < Policy_timeout p ->
    never_done ctx ->
    (forall c' t i, slower_than (Policy_timeout p) (s c' t i)) ->
    0 <= F < 2 ^ 32 ->
    heap w !! breaker c = Some b ->
    gobreaker.state b = gobreaker.StateClosed ->
    gobreaker.readyToTrip b = tripFn F ->
    gobreaker.ConsecutiveFailures (gobreaker.counts b) = 0 ->
    window_open b (now w + Z.max 1 F * Policy_timeout p) ->
    let exec := NewExecutor fuel ctx (Some p) (call s) in
    let w' := calls (Z.to_nat (Z.max 1 F)) exec w in
    fst (exec w) = Return (None, Some DeadlineExceeded)
    /\ length (log w') = (length (log w) + Z.to_nat (Z.max 1 F))%nat
    /\ now w' = now w + Z.max 1 F * Policy_timeout p
    /\ exists b',
         heap w' !! breaker c = Some b'
         /\ gobreaker.state b' = gobreaker.StateOpen
         /\ gobreaker.expiry b' = Some (now w' + gobreaker.timeout b).
Proof.
  intros fuel p c s ctx w b F Hc Hr Ht Hctx Hslow HF Hb Hs Hrt Hcf Hwin exec w'.
  assert (Hexec : exec = withCircuitBreaker p (withTimeout p (call s)) ctx).
  { unfold exec. rewrite NewExecutor_table, Hc, Hr.
    destruct (Z.ltb_spec 0 (Policy_timeout p)); [reflexivity | lia]. }
  unfold w'. rewrite Hexec. split.
  - destruct (withCircuitBreaker_timeout p c s ctx Hc Hctx Ht Hslow w b Hb Hs)
      as (w1 & -> & _); [|reflexivity].
    unfold window_open in *. destruct (gobreaker.expiry b); [nia | exact I].
  - destruct (timeouts_trip_after p c s ctx F Hc Hctx Ht Hslow HF
                (Z.to_nat (Z.max 1 F)) w b) as (b' & G1 & G2 & G3 & G4 & G5);
      try assumption; try lia.
    { rewrite Z2Nat.id by lia. exact Hwin. }
    rewrite Z2Nat.id in G4 by lia.
    split; [exact G5|]. split; [exact G4|]. exists b'. auto.
Qed.

Lemma timeouts_trip_the_breaker_witness :
  let exec := NewExecutor 1 context.Background (Some timeout_breaker)
                (call five_seconds) in
  let w' := calls (Z.to_nat (Z.max 1 2)) exec (w_closed 2 (10 * time.Second)) in
  fst (exec (w_closed 2 (10 * time.Second))) = Return (None, Some DeadlineExceeded)
  /\ length (log w') =
     (length (log (w_closed 2 (10 * time.Second))) + Z.to_nat (Z.max 1 2))%nat
  /\ now w' = now (w_closed 2 (10 * time.Second)) + Z.max 1 2 * (1 * time.Second)
  /\ exists b',
       heap w' !! 0%nat = Some b'
       /\ gobreaker.state b' = gobreaker.StateOpen
       /\ gobreaker.expiry b' = Some (now w' + 5 * time.Second).
Proof.
  apply (timeouts_trip_the_breaker 1%nat timeout_breaker {| breaker := 0 |}
           five_seconds context.Background (w_closed 2 (10 * time.Second))
           (gobreaker.NewCircuitBreaker (settings 2 (10 * time.Second)) (now w0))
           2 eq_refl eq_refl).
  - reflexivity.
  - reflexivity.
  - intros c t i. reflexivity.
  - lia.
  - reflexivity.
  - reflexivity.
  - reflexivity.
  - reflexivity.
  - vm_compute. discriminate.
Defined.

(** ** The breaker under the retry loop *)

Section RetryTrips.
Import gobreaker gobreaker_run backoff.
Variables (p : Policy) (c : circuitBreaker) (r : retry) (ctx : context.Context).
Variable F : Z.
Hypothesis Hc : Policy_circuitBreaker p = Some c.
Hypothesis Hr : Policy_retry p = Some r.
Hypothesis Hctx : never_done ctx.
Hypothesis HF : 0 <= F < 2 ^ 32.
Hypothesis Hd : retry_duration r <> Stop.
Hypothesis HN : 0 <= retry_maxRetries r < 2 ^ 64.

Local Abbreviation budget j :=
  (backOffContext
     (backOffTries (ConstantBackOff (retry_duration r)) (retry_maxRetries r) j)
     ctx).

(** The breaker is open and its cool-down runs: the guard turns the call
    away and marks the error. *)
Lemma withCircuitBreaker_open oper w b x :
  heap w !! breaker c = Some b -> state b = StateOpen ->
  expiry b = Some x -> now w <= x ->
  withCircuitBreaker p oper ctx w =
  (Return (None, Some (PermanentError ErrOpenState)), w).
Proof.
  intros Hb Hs He Hx.
  destruct (rejection_open b (now w) x Hs He Hx) as [Hrej Hfst].
  rewrite (withCircuitBreaker_rejects _ _ _ _ _ _ _ Hc Hb Hrej), Hfst.
  rewrite bool_decide_eq_true_2 by (rewrite Hr; discriminate).
  rewrite list_insert_id by exact Hb. rewrite set_heap_id. reflexivity.
Qed.

(** [oper] fails whenever the closed breaker lets it run, with an error
    that the loop retries, and the breaker records the failure. *)
Variable oper : Operation.
Hypothesis Hclosed : forall w b,
  heap w !! breaker c = Some b -> state b = StateClosed -> expiry b = None ->
  exists w1 v e,
    withCircuitBreaker p oper ctx w = (Return (v, Some e), w1)
    /\ As_PermanentError e = None
    /\ now w <= now w1
    /\ length (log w1) = S (length (log w))
    /\ heap w1 !! breaker c = Some (after_failure b (now w1)).

Lemma retry_loop_trips : forall (m : nat) (j : Z) (fuel : nat) w b,
  (1 <= m)%nat ->
  heap w !! breaker c = Some b -> state b = StateClosed -> expiry b = None ->
  readyToTrip b = tripFn F ->
  0 <= ConsecutiveFailures (counts b) ->
  ConsecutiveFailures (counts b) + Z.of_nat m = Z.max 1 F ->
  Z.max 0 (retry_duration r) <= timeout b ->
  0 <= j -> j + Z.of_nat m <= retry_maxRetries r -> (m < fuel)%nat ->
  exists w' b',
    retry_loop fuel (withCircuitBreaker p oper ctx) (budget j) ctx w =
    (Return (None, Some ErrOpenState), w')
    /\ length (log w') = (length (log w) + m)%nat
    /\ heap w' !! breaker c = Some b' /\ state b' = StateOpen.
Proof.
  induction m as [|m IH];
    intros j fuel w b Hm Hb Hs He Hrt Hcf Hsum Hcool Hj Hjm Hfuel; [lia|].
  destruct fuel as [|fuel]; [lia|].
  destruct (Hclosed w b Hb Hs He)
    as (w1 & v & e & Hrun & Hperm & Hmono & Hlog & Hheap).
  pose proof (NextBackOff_tries ctx (retry_duration r) (retry_maxRetries r) Hctx HN
                j (now w1) ltac:(lia)) as Hnext.
  destruct (Z.leb_spec (retry_maxRetries r) j); [lia|].
  rewrite (retry_loop_again _ _ _ _ _ _ Hrun Hperm fuel _ _ _ Hnext Hd)
    by (rewrite Hctx; exact I).
  set (w2 := set_now (now w1 + Z.max 0 (retry_duration r)) w1).
  destruct (Nat.eq_dec m 0%nat) as [-> | Hm0].
  - destruct (after_failure_trips b (now w1) F Hs Hrt) as [H1 H2].
    { rewrite wrap_uint32_small by lia. lia. }
    destruct fuel as [|fuel]; [lia|].
    rewrite (retry_loop_permanent fuel (withCircuitBreaker p oper ctx) _ ctx w2 None
               (PermanentError ErrOpenState) ErrOpenState w2).
    + exists w2, (after_failure b (now w1)). split; [reflexivity|].
      unfold w2. cbn [log heap set_now]. split; [lia|]. auto.
    + apply (withCircuitBreaker_open oper w2 (after_failure b (now w1))
               (now w1 + timeout b)); auto.
      unfold w2. cbn [now set_now]. lia.
    + reflexivity.
  - destruct (after_failure_counts b (now w1) F Hs Hrt) as (H1 & H2 & H3 & H4 & H5).
    { rewrite wrap_uint32_small by lia. lia. }
    rewrite wrap_uint32_small in H5 by lia.
    destruct (IH (j + 1) fuel w2 (after_failure b (now w1)))
      as (w' & b' & Hrun' & Hlog' & Hb' & Hs'); try assumption; try lia.
    { rewrite H2. exact He. }
    exists w', b'. split; [exact Hrun'|].
    unfold w2 in Hlog'. cbn [log set_now] in Hlog'. split; [lia|]. auto.
Qed.

End RetryTrips.

Section ClosedFailures.
Import gobreaker gobreaker_run.
Variables (p : Policy) (c : circuitBreaker) (s : Script) (ctx : context.Context).
Hypothesis Hc : Policy_circuitBreaker p = Some c.

Lemma withCircuitBreaker_closed_failure :
  (forall c' t i, fails_transiently (s c' t i)) ->
  forall w b,
  heap w !! breaker c = Some b -> state b = StateClosed -> expiry b = None ->
  exists w1 v e,
    withCircuitBreaker p (call s) ctx w = (Return (v, Some e), w1)
    /\ As_PermanentError e = None
    /\ now w <= now w1
    /\ length (log w1) = S (length (log w))
    /\ heap w1 !! breaker c = Some (after_failure b (now w1)).
Proof.
  intros Hfail w b Hb Hs He.
  pose proof (Hfail ctx (now w) (length (log w))) as Hbeh.
  destruct (s ctx (now w) (length (log w))) as [el v [e|] | |] eqn:Ebeh;
    try contradiction. destruct Hbeh as [Hperm Hrej].
  destruct (Execute_closed_failure (breaker c) s ctx w b el v e Hb Hs Ebeh)
    as (w1 & Hrun & Hnow & Hlog & Hheap & _).
  { unfold window_open. rewrite He. exact I. }
  exists w1, v, e. unfold withCircuitBreaker, bind. rewrite Hc, Hrun, Hrej.
  rewrite andb_false_r. split; [reflexivity|]. split; [exact Hperm|].
  rewrite Hnow, Hlog. split; [lia|]. split; [reflexivity | exact Hheap].
Qed.

Lemma withCircuitBreaker_closed_timeout :
  never_done ctx -> 0 < Policy_timeout p ->
  (forall c' t i, slower_than (Policy_timeout p) (s c' t i)) ->
  forall w b,
  heap w !! breaker c = Some b -> state b = StateClosed -> expiry b = None ->
  exists w1 v e,
    withCircuitBreaker p (withTimeout p (call s)) ctx w = (Return (v, Some e), w1)
    /\ As_PermanentError e = None
    /\ now w <= now w1
    /\ length (log w1) = S (length (log w))
    /\ heap w1 !! breaker c = Some (after_failure b (now w1)).
Proof.
  intros Hctx Ht Hslow w b Hb Hs He.
  destruct (withCircuitBreaker_timeout p c s ctx Hc Hctx Ht Hslow w b Hb Hs)
    as (w1 & Hrun & Hnow & Hlog & Hheap).
  { unfold window_open. rewrite He. exact I. }
  exists w1, None, DeadlineExceeded. split; [exact Hrun|].
  split; [reflexivity|]. rewrite Hnow. split; [lia|]. auto.
Qed.

End ClosedFailures.

(** X10: the breaker cuts the retry loop short.  With a breaker and a
    retry that allows at least [max 1 F] retries, an operation that
    always fails with a retryable error other than a rejection is called
    [max 1 F] times within one call of the executor: the failures open
    the breaker (closed, threshold [F], nothing counted, no counting
    interval), the next attempt, made before the cool-down is over, is
    turned away, and the caller gets the open-state error. *)
Theorem breaker_cuts_the_retry_loop_short :
  forall fuel p c r s ctx w b F,
    Policy_circuitBreaker p = Some c -> Policy_retry p = Some r ->
    Policy_timeout p <= 0 ->
    never_done ctx ->
    (forall c' t i, fails_transiently (s c' t i)) ->
    0 <= F < 2 ^ 32 ->
    heap w !! breaker c = Some b ->
    gobreaker.state b = gobreaker.StateClosed ->
    gobreaker.expiry b = None ->
    gobreaker.readyToTrip b = tripFn F ->
    gobreaker.ConsecutiveFailures (gobreaker.counts b) = 0 ->
    Z.max 1 F <= retry_maxRetries r < 2 ^ 63 ->
    retry_duration r <> backoff.Stop ->
    Z.max 0 (retry_duration r) <= gobreaker.timeout b ->
    (Z.to_nat (Z.max 1 F) < fuel)%nat ->
    exists w' b',
      NewExecutor fuel ctx (Some p) (call s) w =
      (Return (None, Some ErrOpenState), w')
      /\ length (log w') = (length (log w) + Z.to_nat (Z.max 1 F))%nat
      /\ heap w' !! breaker c = Some b'
      /\ gobreaker.state b' = gobreaker.StateOpen.
Proof.
  intros fuel p c r s ctx w b F Hc Hr Ht Hctx Hfail HF Hb Hs He Hrt Hcf HN Hd
    Hcool Hfuel.
  assert (H64 : 0 <= retry_maxRetries r < 2 ^ 64).
  { rewrite pow2_63 in HN. rewrite pow2_64. lia. }
  rewrite NewExecutor_table, Hc, Hr.
  destruct (Z.ltb_spec 0 (Policy_timeout p)); [lia|].
  rewrite (withRetry_loop _ _ _ _ _ Hr).
  destruct (Z.leb_spec 0 (retry_maxRetries r)); [|lia].
  rewrite wrap_uint64_small by exact H64.
  apply (retry_loop_trips p c r ctx F Hc Hr Hctx HF Hd H64 (call s)
           (withCircuitBreaker_closed_failure p c s ctx Hc Hfail)
           (Z.to_nat (Z.max 1 F)) 0 fuel w b); try assumption; try lia.
Qed.

Lemma breaker_cuts_the_retry_loop_short_witness :
  exists w' b',
    NewExecutor 4 context.Background (Some breaker_retry3) (call always_fails)
      (w_closed 2 0) =
    (Return (None, Some ErrOpenState), w')
    /\ length (log w') = (length (log (w_closed 2 0)) + Z.to_nat (Z.max 1 2))%nat
    /\ heap w' !! 0%nat = Some b'
    /\ gobreaker.state b' = gobreaker.StateOpen.
Proof.
  apply (breaker_cuts_the_retry_loop_short 4%nat breaker_retry3 {| breaker := 0 |}
           {| retry_duration := 10 * time.Millisecond; retry_maxRetries := 3 |}
           always_fails context.Background (w_closed 2 0)
           (gobreaker.NewCircuitBreaker (settings 2 0) (now w0)) 2 eq_refl eq_refl).
  - simpl. lia.
  - reflexivity.
  - intros c t i. split; reflexivity.
  - lia.
  - reflexivity.
  - reflexivity.
  - reflexivity.
  - reflexivity.
  - reflexivity.
  - simpl. lia.
  - vm_compute. discriminate.
  - vm_compute. discriminate.
  - simpl. lia.
Defined.

(** X11: the three guards together.  With a timeout, a breaker and a
    retry that allows at least [max 1 F] retries, an operation that never
    has a result within the timeout is called [max 1 F] times within one
    call of the executor: every attempt is cut off by the timeout, the
    breaker records each as a failure and opens, and the retry loop ends
    with the open-state error. *)
Theorem slow_operation_under_all_guards :
  forall fuel p c r s ctx w b F,
    Policy_circuitBreaker p = Some c -> Policy_retry p = Some r ->
    0 < Policy_timeout p ->
    never_done ctx ->
    (forall c' t i, slower_than (Policy_timeout p) (s c' t i)) ->
    0 <= F < 2 ^ 32 ->
    heap w !! breaker c = Some b ->
    gobreaker.state b = gobreaker.StateClosed ->
    gobreaker.expiry b = None ->
    gobreaker.readyToTrip b = tripFn F ->
    gobreaker.ConsecutiveFailures (gobreaker.counts b) = 0 ->
    Z.max 1 F <= retry_maxRetries r < 2 ^ 63 ->
    retry_duration r <> backoff.Stop ->
    Z.max 0 (retry_duration r) <= gobreaker.timeout b ->
    (Z.to_nat (Z.max 1 F) < fuel)%nat ->
    exists w' b',
      NewExecutor fuel ctx (Some p) (call s) w =
      (Return (None, Some ErrOpenState), w')
      /\ length (log w') = (length (log w) + Z.to_nat (Z.max 1 F))%nat
      /\ heap w' !! breaker c = Some b'
      /\ gobreaker.state b' = gobreaker.StateOpen.
Proof.
  intros fuel p c r s ctx w b F Hc Hr Ht Hctx Hslow HF Hb Hs He Hrt Hcf HN Hd
    Hcool Hfuel.
  assert (H64 : 0 <= retry_maxRetries r < 2 ^ 64).
  { rewrite pow2_63 in HN. rewrite pow2_64. lia. }
  rewrite NewExecutor_table, Hc, Hr.
  destruct (Z.ltb_spec 0 (Policy_timeout p)); [|lia].
  rewrite (withRetry_loop _ _ _ _ _ Hr).
  destruct (Z.leb_spec 0 (retry_maxRetries r)); [|lia].
  rewrite wrap_uint64_small by exact H64.
  apply (retry_loop_trips p c r ctx F Hc Hr Hctx HF Hd H64 (withTimeout p (call s))
           (withCircuitBreaker_closed_timeout p c s ctx Hc Hctx Ht Hslow)
           (Z.to_nat (Z.max 1 F)) 0 fuel w b); try assumption; try lia.
Qed.

Lemma slow_operation_under_all_guards_witness :
  exists w' b',
    NewExecutor 4 context.Background (Some all_guards) (call five_seconds)
      (w_closed 2 0) =
    (Return (None, Some ErrOpenState), w')
    /\ length (log w') = (length (log (w_closed 2 0)) + Z.to_nat (Z.max 1 2))%nat
    /\ heap w' !! 0%nat = Some b'
    /\ gobreaker.state b' = gobreaker.StateOpen.
Proof.
  apply (slow_operation_under_all_guards 4%nat all_guards {| breaker := 0 |}
           {| retry_duration := 10 * time.Millisecond; retry_maxRetries := 3 |}
           five_seconds context.Background (w_closed 2 0)
           (gobreaker.NewCircuitBreaker (settings 2 0) (now w0)) 2 eq_refl eq_refl).
  - reflexivity.
  - reflexivity.
  - intros c t i. reflexivity.
  - lia.
  - reflexivity.
  - reflexivity.
  - reflexivity.
  - reflexivity.
  - reflexivity.
  - simpl. lia.
  - vm_compute. discriminate.
  - vm_compute. discriminate.
  - simpl. lia.
Defined.

(** ** Panics *)

Section Panicking.
Import gobreaker_run.

Lemma Execute_panics cb s ctx w b el r :
  heap w !! cb = Some b -> rejection b (now w) = None ->
  s ctx (now w) (length (log w)) = Panics el r ->
  exists w',
    Execute cb (call s ctx) w = (Panic r, w')
    /\ log w' = Panics el r :: log w.
Proof.
  intros Hb Hrej Hbeh. unfold Execute, rejection in *. rewrite Hb.
  destruct (gobreaker.beforeRequest b (now w)) as [b1 [g err]].
  simpl in Hrej. subst err.
  unfold call. cbn [now log set_heap]. rewrite Hbeh.
  eexists. split; reflexivity.
Qed.

Lemma retry_loop_panics fuel operation bo ctx w r w1 :
  operation w = (Panic r, w1) ->
  backoff.retry_loop (S fuel) operation bo ctx w = (Panic r, w1).
Proof. intros Ho. cbn [backoff.retry_loop]. rewrite Ho. reflexivity. Qed.

End Panicking.

(** X12: only the timeout guard recovers a panic.  When the policy has
    no positive timeout, a panic of the operation leaves the executor as
    a panic, with or without a retry, and with a breaker that lets the
    call through or without one; the operation is not called again. *)
Theorem panic_escapes_without_timeout_guard :
  forall fuel p ctx s w el r,
    Policy_timeout p <= 0 ->
    match Policy_circuitBreaker p with
    | Some c => exists b, heap w !! breaker c = Some b /\ rejection b (now w) = None
    | None => True
    end ->
    s ctx (now w) (length (log w)) = Panics el r ->
    exists w',
      NewExecutor (S fuel) ctx (Some p) (call s) w = (Panic r, w')
      /\ log w' = Panics el r :: log w.
Proof.
  intros fuel p ctx s w el r Ht Hcb Hbeh.
  assert (Hraw : exists w', call s ctx w = (Panic r, w')
                            /\ log w' = Panics el r :: log w).
  { unfold call. rewrite Hbeh. eexists. split; reflexivity. }
  assert (Hop : exists w',
            (match Policy_circuitBreaker p with
             | Some _ => withCircuitBreaker p (call s) ctx
             | None => call s ctx
             end) w = (Panic r, w') /\ log w' = Panics el r :: log w).
  { destruct (Policy_circuitBreaker p) as [c|] eqn:Hc; [|exact Hraw].
    destruct Hcb as (b & Hb & Hrej).
    destruct (Execute_panics _ s ctx w b el r Hb Hrej Hbeh) as (w' & Hrun & Hlog).
    exists w'. split; [|exact Hlog].
    unfold withCircuitBreaker, bind. rewrite Hc, Hrun. reflexivity. }
  destruct Hop as (w' & Hrun & Hlog). exists w'. split; [|exact Hlog].
  rewrite NewExecutor_table.
  destruct (Z.ltb_spec 0 (Policy_timeout p)); [lia|].
  destruct (Policy_circuitBreaker p) as [c|], (Policy_retry p) as [rt|] eqn:Hr;
    try exact Hrun;
    rewrite (withRetry_loop _ _ _ _ _ Hr); apply retry_loop_panics, Hrun.
Qed.

Lemma panic_escapes_without_timeout_guard_witness :
  exists w',
    NewExecutor 4 context.Background (Some retry3) (call panics) w0 =
    (Panic "boom", w')
    /\ log w' = Panics 0 "boom" :: log w0.
Proof.
  apply (panic_escapes_without_timeout_guard 3%nat retry3 context.Background
           panics w0 0%N "boom").
  - simpl. lia.
  - exact I.
  - reflexivity.
Defined.

(** ** What an executor leaves alone *)

Section Frame.
Import gobreaker_run.

Variable keep : nat -> Prop.

Lemma later_refl w : later keep w w.
Proof. repeat split; [lia | exists []; reflexivity]. Qed.

Lemma later_trans w1 w2 w3 : later keep w1 w2 -> later keep w2 w3 -> later keep w1 w3.
Proof.
  intros (H1 & [n1 H2] & H3 & H4) (G1 & [n2 G2] & G3 & G4).
  split; [lia|]. split; [exists (n2 ++ n1); rewrite G2, H2, app_assoc; reflexivity|].
  split; [congruence|]. intros a Ha. rewrite G4, H4 by exact Ha. reflexivity.
Qed.

Lemma later_set_now w t : now w <= t -> later keep w (set_now t w).
Proof. intros H. repeat split; [exact H | exists []; reflexivity]. Qed.

Lemma later_after_select a b w : later keep w (after_select a b w).
Proof.
  unfold after_select. destruct (is_tie a b); [|apply later_refl].
  repeat split; [simpl; lia | exists []; reflexivity].
Qed.

Lemma call_later s ctx w : later keep w (snd (call s ctx w)).
Proof.
  split; [apply call_now|]. split; [eexists [_]; apply call_log|].
  rewrite call_heap. auto.
Qed.

Lemma withTimeout_later p s ctx w : later keep w (snd (withTimeout p (call s) ctx w)).
Proof.
  destruct (withTimeout_call p ctx s w) as (r & w' & Hrun & Hlog & Hheap & _).
  pose proof (withTimeout_call_now p ctx s w) as Hnow.
  rewrite Hrun in *. cbn [snd] in *.
  split; [lia|]. split; [eexists [_]; exact Hlog|]. rewrite Hheap. auto.
Qed.

Lemma Execute_later cb req w :
  ~ keep cb -> (forall w1, later keep w1 (snd (req w1))) ->
  later keep w (snd (Execute cb req w)).
Proof.
  intros Hcb Hreq. unfold Execute.
  destruct (heap w !! cb) as [b|]; [|apply later_refl].
  destruct (gobreaker.beforeRequest b (now w)) as [b1 [g err]].
  set (w1 := set_heap (<[cb := b1]> (heap w)) w).
  assert (H1 : later keep w w1).
  { unfold w1. split; [simpl; lia|]. split; [exists []; reflexivity|].
    cbn [heap set_heap]. split; [apply length_insert|].
    intros a Ha. apply list_lookup_insert_ne. intros ->. contradiction. }
  destruct err as [e|]; [exact H1|].
  specialize (Hreq w1).
  assert (Hrec : forall ok w2,
            later keep w2
              (set_heap (alter (fun b2 => gobreaker.afterRequest b2 (now w2) g ok)
                           cb (heap w2)) w2)).
  { intros ok w2. split; [simpl; lia|]. split; [exists []; reflexivity|].
    cbn [heap set_heap]. split; [apply length_alter|].
    intros a Ha. apply list_lookup_alter_ne. intros ->. contradiction. }
  destruct (req w1) as [[[res err]|r| |] w2]; cbn [snd] in *;
    eauto using later_trans.
Qed.

Lemma withCircuitBreaker_later p c oper ctx w :
  Policy_circuitBreaker p = Some c -> ~ keep (breaker c) ->
  (forall w1, later keep w1 (snd (oper ctx w1))) ->
  later keep w (snd (withCircuitBreaker p oper ctx w)).
Proof.
  intros Hc Hk Ho. unfold withCircuitBreaker, bind. rewrite Hc.
  pose proof (Execute_later (breaker c) (oper ctx) w Hk Ho) as H.
  destruct (Execute (breaker c) (oper ctx) w) as [[[res err]|r| |] w'];
    exact H.
Qed.

Lemma retry_loop_later operation ctx :
  (forall w, later keep w (snd (operation w))) ->
  forall fuel bo w, later keep w (snd (backoff.retry_loop fuel operation bo ctx w)).
Proof.
  intros Ho. induction fuel as [|fuel IH]; intros bo w; [apply later_refl|].
  cbn [backoff.retry_loop]. specialize (Ho w).
  destruct (operation w) as [[[res [err|]]|r| |] w1]; cbn [snd] in *; try exact Ho.
  destruct (As_PermanentError err); [exact Ho|].
  destruct (backoff.NextBackOff bo (now w1)) as [next bo'].
  destruct (next =? backoff.Stop).
  - destruct (context.Err ctx (now w1)); exact Ho.
  - destruct (select_first w1 _ _).
    + eapply later_trans; [exact Ho|].
      eapply later_trans; [apply later_after_select|].
      eapply later_trans; [|apply IH].
      apply later_set_now. unfold after_select.
      destruct (is_tie _ _); simpl; lia.
    + cbn [snd]. eapply later_trans; [exact Ho|].
      eapply later_trans; [apply later_after_select|].
      apply later_set_now. unfold after_select.
      destruct (is_tie _ _); simpl; lia.
Qed.

Lemma NewExecutor_later fuel ctx p s w :
  (forall c, Policy_circuitBreaker p = Some c -> ~ keep (breaker c)) ->
  later keep w (snd (NewExecutor fuel ctx (Some p) (call s) w)).
Proof.
  intros Hk. rewrite NewExecutor_table.
  destruct (0 <? Policy_timeout p), (Policy_circuitBreaker p) as [c|] eqn:Hc,
    (Policy_retry p) as [r|] eqn:Hr;
    try rewrite (withRetry_loop _ _ _ _ _ Hr);
    repeat first
      [ apply retry_loop_later; intros ?
      | apply (withCircuitBreaker_later p c);
          [exact Hc | apply Hk; reflexivity |]; intros ?
      | apply withTimeout_later
      | apply call_later ].
Qed.

End Frame.

(** X13: an executor touches no breaker but its own.  Whatever the policy
    and the operation, a call of the executor leaves every breaker other
    than the policy's own as it was and creates none; time does not go
    back and the log of calls only grows. *)
Theorem executor_touches_only_its_own_breaker :
  forall fuel ctx p s w a,
    (forall c, Policy_circuitBreaker p = Some c -> a <> breaker c) ->
    let w' := snd (NewExecutor fuel ctx (Some p) (call s) w) in
    heap w' !! a = heap w !! a
    /\ length (heap w') = length (heap w)
    /\ now w <= now w'
    /\ exists new, log w' = new ++ log w.
Proof.
  intros fuel ctx p s w a Ha w'.
  destruct (NewExecutor_later (fun a' => a' = a) fuel ctx p s w)
    as (H1 & H2 & H3 & H4).
  - intros c Hc Heq. exact (Ha c Hc (eq_sym Heq)).
  - split; [apply H4; reflexivity|]. auto.
Qed.

Lemma executor_touches_only_its_own_breaker_witness :
  let w' := snd (NewExecutor 1 context.Background (Some breaker_only)
                   (call always_fails) w_two_closed) in
  heap w' !! 1%nat = heap w_two_closed !! 1%nat
  /\ length (heap w') = length (heap w_two_closed)
  /\ now w_two_closed <= now w'
  /\ exists new, log w' = new ++ log w_two_closed.
Proof.
  apply (executor_touches_only_its_own_breaker 1%nat context.Background
           breaker_only always_fails w_two_closed 1%nat).
  intros c [= <-]. discriminate.
Defined.

(** ** What a provider holds *)

Section Provided.

Lemma configure_timeouts_Ok l : forall acc m,
  NoDup l.*1 -> configure_timeouts l acc = Ok m ->
  (forall name val, (name, val) ∈ l ->
     exists d, parseDuration val = Ok d /\ m !! name = Some d)
  /\ (forall name, name ∉ l.*1 -> m !! name = acc !! name).
Proof.
  induction l as [|[n v] l IH]; simpl; intros acc m Hnd Hrun.
  - injection Hrun as <-. split; [|auto].
    intros name val Hin. inversion Hin.
  - apply NoDup_cons in Hnd as [Hn Hnd].
    destruct (parseDuration v) as [t|e0] eqn:Ev; [|discriminate].
    destruct (IH _ _ Hnd Hrun) as [Hin Hout]. split.
    + intros name val H. apply elem_of_cons in H as [[= -> ->] | H].
      * exists t. split; [exact Ev|]. rewrite (Hout _ Hn).
        apply lookup_insert_eq.
      * apply Hin, H.
    + intros name H. apply not_elem_of_cons in H as [Hne H].
      rewrite (Hout _ H). apply lookup_insert_ne. congruence.
Qed.

Lemma configure_retries_Ok l : forall acc m,
  NoDup l.*1 -> configure_retries l acc = Ok m ->
  (forall name rc, (name, rc) ∈ l ->
     exists d, parseDuration (Retry_Duration rc) = Ok d
               /\ m !! name = Some {| retry_duration := d;
                                      retry_maxRetries := Retry_MaxRetries rc |})
  /\ (forall name, name ∉ l.*1 -> m !! name = acc !! name).
Proof.
  induction l as [|[n rc0] l IH]; simpl; intros acc m Hnd Hrun.
  - injection Hrun as <-. split; [|auto].
    intros name val Hin. inversion Hin.
  - apply NoDup_cons in Hnd as [Hn Hnd]. unfold newRetry in Hrun.
    destruct (parseDuration (Retry_Duration rc0)) as [t|e0] eqn:Ev; [|discriminate].
    destruct (IH _ _ Hnd Hrun) as [Hin Hout]. split.
    + intros name val H. apply elem_of_cons in H as [[= -> ->] | H].
      * exists t. split; [exact Ev|]. rewrite (Hout _ Hn).
        apply lookup_insert_eq.
      * apply Hin, H.
    + intros name H. apply not_elem_of_cons in H as [Hne H].
      rewrite (Hout _ H). apply lookup_insert_ne. congruence.
Qed.

Lemma not_elem_of_fst_map_to_list {V} (m : gmap string V) name :
  name ∉ (map_to_list m).*1 <-> m !! name = None.
Proof.
  rewrite list_elem_of_fmap. split.
  - intros H. destruct (m !! name) as [v|] eqn:E; [|reflexivity].
    exfalso. apply H. exists (name, v). split; [reflexivity|].
    apply elem_of_map_to_list, E.
  - intros Hm ([k v] & -> & Hin). apply elem_of_map_to_list in Hin.
    simpl in Hm. congruence.
Qed.

Lemma targets_fold (ts : gmap string PolicyNames) :
  map_fold
    (fun k n acc =>
       <[k := {| target_timeout := PolicyNames_Timeout n;
                 target_retry := PolicyNames_Retry n;
                 target_circuitBreaker := PolicyNames_CircuitBreaker n |}]> acc)
    ∅ ts =
  (fun n => {| target_timeout := PolicyNames_Timeout n;
               target_retry := PolicyNames_Retry n;
               target_circuitBreaker := PolicyNames_CircuitBreaker n |}) <$> ts.
Proof.
  apply (map_fold_weak_ind (fun r m => r = _ <$> m)).
  - rewrite fmap_empty. reflexivity.
  - intros i x m r _ ->. rewrite fmap_insert. reflexivity.
Qed.

(** The four loops of [configure], when [FromConfig] succeeds. *)
Lemma FromConfig_Ok cfg w p w' :
  FromConfig cfg w = (Return (Ok p), w') ->
  configure_timeouts (map_to_list (Timeouts cfg)) ∅ = Ok (timeouts p)
  /\ configure_retries (map_to_list (Retries cfg)) ∅ = Ok (retries p)
  /\ configure_circuitBreakers (map_to_list (CircuitBreakers cfg)) ∅ w =
     (Return (Ok (circuitBreakers p)), w')
  /\ targets p =
     (fun n => {| target_timeout := PolicyNames_Timeout n;
                  target_retry := PolicyNames_Retry n;
                  target_circuitBreaker := PolicyNames_CircuitBreaker n |})
     <$> Targets cfg.
Proof.
  unfold FromConfig, configure. cbn [timeouts retries circuitBreakers targets].
  destruct (configure_timeouts _ _) as [ts|e]; [|intros [=]].
  destruct (configure_retries _ _) as [rs|e]; [|intros [=]].
  unfold bind, ret.
  destruct (configure_circuitBreakers _ _ w) as [[[cbs|e]|r| |] w1];
    try (intros [=]; fail).
  intros [= <- <-]. cbn [timeouts retries circuitBreakers targets].
  rewrite targets_fold. auto.
Qed.

End Provided.

(** X14: the provider that [FromConfig] returns holds the configuration:
    under a name it has a timeout exactly when the configuration has a
    duration string under that name, and the timeout is the parsed
    string; it has a retry exactly when the configuration has one, with
    the parsed delay and the same [maxRetries]; and it has a target
    exactly when the configuration has one, with the same three names. *)
Theorem FromConfig_keeps_the_configuration :
  forall cfg w p w',
    FromConfig cfg w = (Return (Ok p), w') ->
    (forall name d,
       timeouts p !! name = Some d <->
       exists val, Timeouts cfg !! name = Some val /\ parseDuration val = Ok d)
    /\ (forall name r,
          retries p !! name = Some r <->
          exists rc, Retries cfg !! name = Some rc
                     /\ parseDuration (Retry_Duration rc) = Ok (retry_duration r)
                     /\ retry_maxRetries r = Retry_MaxRetries rc)
    /\ (forall name t,
          targets p !! name = Some t <->
          exists n, Targets cfg !! name = Some n
                    /\ target_timeout t = PolicyNames_Timeout n
                    /\ target_retry t = PolicyNames_Retry n
                    /\ target_circuitBreaker t = PolicyNames_CircuitBreaker n).
Proof.
  intros cfg w p w' Hrun.
  destruct (FromConfig_Ok _ _ _ _ Hrun) as (Hts & Hrs & _ & Htg).
  destruct (configure_timeouts_Ok _ _ _ (NoDup_fst_map_to_list _) Hts)
    as [Htin Htout].
  destruct (configure_retries_Ok _ _ _ (NoDup_fst_map_to_list _) Hrs)
    as [Hrin Hrout].
  split; [|split].
  - intros name d. split.
    + intros Hp. destruct (Timeouts cfg !! name) as [val|] eqn:E.
      * exists val. split; [reflexivity|].
        destruct (Htin name val) as (d' & Hd' & Hm);
          [apply elem_of_map_to_list, E|]. congruence.
      * rewrite Htout in Hp by (apply not_elem_of_fst_map_to_list, E).
        rewrite lookup_empty in Hp. discriminate.
    + intros (val & E & Hd).
      destruct (Htin name val) as (d' & Hd' & Hm);
        [apply elem_of_map_to_list, E|]. congruence.
  - intros name r. split.
    + intros Hp. destruct (Retries cfg !! name) as [rc|] eqn:E.
      * exists rc. split; [reflexivity|].
        destruct (Hrin name rc) as (d' & Hd' & Hm);
          [apply elem_of_map_to_list, E|].
        rewrite Hp in Hm. injection Hm as ->. auto.
      * rewrite Hrout in Hp by (apply not_elem_of_fst_map_to_list, E).
        rewrite lookup_empty in Hp. discriminate.
    + intros (rc & E & Hd & Hn).
      destruct (Hrin name rc) as (d' & Hd' & Hm);
        [apply elem_of_map_to_list, E|].
      rewrite Hm. destruct r as [rd rn]. simpl in *. congruence.
  - intros name t. rewrite Htg, lookup_fmap. split.
    + destruct (Targets cfg !! name) as [n|]; [|discriminate].
      intros [= <-]. exists n. auto.
    + intros (n & -> & H1 & H2 & H3). destruct t. simpl in *. congruence.
Qed.

Lemma FromConfig_keeps_the_configuration_witness :
  match FromConfig cfg_tests w0 with
  | (Return (Ok p), _) =>
      timeouts p !! "short" = Some (1 * time.Second)
      /\ retries p !! "example_retry" =
         Some {| retry_duration := 2 * time.Second; retry_maxRetries := 3 |}
  | _ => False
  end.
Proof.
  destruct (FromConfig cfg_tests w0) as [[[p|e]|r| |] w'] eqn:E;
    try (vm_compute in E; discriminate E).
  destruct (FromConfig_keeps_the_configuration cfg_tests w0 p w' E) as (Ht & Hr & _).
  split.
  - apply Ht. exists "1s". split; vm_compute; reflexivity.
  - apply Hr. exists {| Retry_Duration := "2s"; Retry_MaxRetries := 3 |}.
    split; [vm_compute; reflexivity|]. split; vm_compute; reflexivity.
Defined.

Section ProvidedBreakers.

Lemma newCircuitBreaker_Ok name c w cb w' :
  newCircuitBreaker name c w = (Return (Ok cb), w') ->
  exists b,
    cb = {| breaker := length (heap w) |} /\ w' = set_heap (heap w ++ [b]) w
    /\ built_from c b.
Proof.
  unfold newCircuitBreaker.
  destruct (parseDuration (CircuitBreaker_Interval c)) as [i|e1]; [|intros [=]].
  destruct (parseDuration (CircuitBreaker_Timeout c)) as [t|e2]; [|intros [=]].
  unfold bind, ret, gobreaker_run.NewCircuitBreaker. intros [= <- <-].
  eexists. split; [reflexivity|]. split; [reflexivity|].
  repeat split.
Qed.

Lemma configure_circuitBreakers_Ok l : forall acc w m w',
  NoDup l.*1 ->
  configure_circuitBreakers l acc w = (Return (Ok m), w') ->
  exists bs,
    heap w' = heap w ++ bs /\ now w' = now w /\ log w' = log w
    /\ (forall (i : nat) name c, l !! i = Some (name, c) ->
          m !! name = Some {| breaker := length (heap w) + i |}
          /\ exists b, bs !! i = Some b /\ built_from c b)
    /\ (forall name, name ∉ l.*1 -> m !! name = acc !! name).
Proof.
  induction l as [|[n c] l IH]; simpl; intros acc w m w' Hnd Hrun.
  - injection Hrun as <- <-. exists []. rewrite app_nil_r.
    split; [reflexivity|]. split; [reflexivity|]. split; [reflexivity|].
    split; [|auto]. intros i name c Hi. discriminate.
  - apply NoDup_cons in Hnd as [Hn Hnd]. unfold bind in Hrun.
    destruct (newCircuitBreaker n c w) as [[[cb|e]|r| |] w1] eqn:Enew;
      try discriminate.
    destruct (newCircuitBreaker_Ok _ _ _ _ _ Enew) as (b & -> & -> & Hb).
    destruct (IH _ _ _ _ Hnd Hrun) as (bs & Hheap & Hnow & Hlog & Hin & Hout).
    cbn [heap now log set_heap] in *.
    exists (b :: bs). split; [rewrite Hheap, <- app_assoc; reflexivity|].
    split; [exact Hnow|]. split; [exact Hlog|]. split.
    + intros [|i] name c' Hi; simpl in Hi.
      * injection Hi as <- <-. rewrite (Hout _ Hn), lookup_insert_eq.
        rewrite Nat.add_0_r. split; [reflexivity|]. exists b. auto.
      * destruct (Hin i name c' Hi) as [Hm Hbs]. rewrite length_app in Hm.
        simpl in Hm. rewrite Hm. split; [do 2 f_equal; lia | exact Hbs].
    + intros name H. apply not_elem_of_cons in H as [Hne H].
      rewrite (Hout _ H). apply lookup_insert_ne. congruence.
Qed.

Lemma configured_breaker_at cfg p (base : nat) name cb :
  (forall (i : nat) name c,
     map_to_list (CircuitBreakers cfg) !! i = Some (name, c) ->
     circuitBreakers p !! name = Some {| breaker := base + i |}) ->
  (forall name, name ∉ (map_to_list (CircuitBreakers cfg)).*1 ->
     circuitBreakers p !! name = (∅ : gmap string circuitBreaker) !! name) ->
  circuitBreakers p !! name = Some cb ->
  exists (i : nat) c,
    map_to_list (CircuitBreakers cfg) !! i = Some (name, c)
    /\ cb = {| breaker := base + i |}.
Proof.
  intros Hin Hout Hp.
  destruct (CircuitBreakers cfg !! name) as [c|] eqn:E.
  - apply elem_of_map_to_list, list_elem_of_lookup in E as [i Hi].
    exists i, c. split; [exact Hi|].
    rewrite (Hin i name c Hi) in Hp. congruence.
  - rewrite Hout in Hp by (apply not_elem_of_fst_map_to_list, E).
    rewrite lookup_empty in Hp. discriminate.
Qed.

(** The breaker that a provider has for a name of the configuration. *)
Lemma FromConfig_breaker_of_name cfg w p w' name c :
  FromConfig cfg w = (Return (Ok p), w') ->
  CircuitBreakers cfg !! name = Some c ->
  exists cb b,
    circuitBreakers p !! name = Some cb
    /\ (length (heap w) <= breaker cb)%nat
    /\ heap w' !! breaker cb = Some b /\ built_from c b.
Proof.
  intros Hrun E. destruct (FromConfig_Ok _ _ _ _ Hrun) as (_ & _ & Hcbs & _).
  destruct (configure_circuitBreakers_Ok _ _ _ _ _ (NoDup_fst_map_to_list _) Hcbs)
    as (bs & Hheap & _ & _ & Hin & _).
  apply elem_of_map_to_list, list_elem_of_lookup in E as [i Hi].
  destruct (Hin i name c Hi) as (Hm & b & Hb & Hbuilt).
  exists {| breaker := length (heap w) + i |}, b. split; [exact Hm|].
  simpl. split; [lia|]. split; [|exact Hbuilt].
  rewrite Hheap, lookup_app_r by lia.
  replace (length (heap w) + i - length (heap w))%nat with i by lia. exact Hb.
Qed.

End ProvidedBreakers.

(** X15: [FromConfig] builds one breaker for every breaker of the
    configuration and no other: the breaker of a name is new (closed,
    nothing counted, tripping at the configured number of failures),
    different names have different breakers, the breakers that existed
    before are as they were, and no operation has run and no time has
    passed. *)
Theorem FromConfig_builds_one_breaker_per_name :
  forall cfg w p w',
    FromConfig cfg w = (Return (Ok p), w') ->
    (forall name, CircuitBreakers cfg !! name = None ->
       circuitBreakers p !! name = None)
    /\ (forall name c, CircuitBreakers cfg !! name = Some c ->
          exists cb b,
            circuitBreakers p !! name = Some cb
            /\ (length (heap w) <= breaker cb)%nat
            /\ heap w' !! breaker cb = Some b /\ built_from c b)
    /\ (forall n1 n2 cb1 cb2,
          n1 <> n2 ->
          circuitBreakers p !! n1 = Some cb1 ->
          circuitBreakers p !! n2 = Some cb2 -> breaker cb1 <> breaker cb2)
    /\ (forall a b, heap w !! a = Some b -> heap w' !! a = Some b)
    /\ log w' = log w /\ now w' = now w.
Proof.
  intros cfg w p w' Hrun.
  destruct (FromConfig_Ok _ _ _ _ Hrun) as (_ & _ & Hcbs & _).
  destruct (configure_circuitBreakers_Ok _ _ _ _ _ (NoDup_fst_map_to_list _) Hcbs)
    as (bs & Hheap & Hnow & Hlog & Hin & Hout).
  split; [|split; [|split; [|split]]].
  - intros name E. rewrite Hout by (apply not_elem_of_fst_map_to_list, E).
    apply lookup_empty.
  - intros name c E. exact (FromConfig_breaker_of_name _ _ _ _ _ _ Hrun E).
  - intros n1 n2 cb1 cb2 Hne H1 H2.
    assert (Hat : forall (i : nat) name c,
              map_to_list (CircuitBreakers cfg) !! i = Some (name, c) ->
              circuitBreakers p !! name =
              Some {| breaker := length (heap w) + i |}).
    { intros i name c Hi. apply (Hin i name c Hi). }
    destruct (configured_breaker_at cfg p _ n1 cb1 Hat Hout H1)
      as (i1 & c1 & Hi1 & ->).
    destruct (configured_breaker_at cfg p _ n2 cb2 Hat Hout H2)
      as (i2 & c2 & Hi2 & ->).
    simpl. intros Heq. assert (i1 = i2) as -> by lia. congruence.
  - intros a b Ha. rewrite Hheap. apply lookup_app_l_Some, Ha.
  - auto.
Qed.

Lemma FromConfig_builds_one_breaker_per_name_witness :
  match FromConfig cfg_tests w0 with
  | (Return (Ok p), w') =>
      exists cb b,
        circuitBreakers p !! "test_cb" = Some cb
        /\ (length (heap w0) <= breaker cb)%nat
        /\ heap w' !! breaker cb = Some b
        /\ built_from {| CircuitBreaker_MaxRequests := 1;
                         CircuitBreaker_Interval := "10s";
                         CircuitBreaker_Timeout := "2s";
                         CircuitBreaker_Failures := 2 |} b
  | _ => False
  end.
Proof.
  destruct (FromConfig cfg_tests w0) as [[[p|e]|r| |] w'] eqn:E;
    try (vm_compute in E; discriminate E).
  apply (proj1 (proj2 (FromConfig_builds_one_breaker_per_name cfg_tests w0 p w' E))).
  vm_compute. reflexivity.
Defined.

Lemma Provider_Policy_target p t cfg n :
  targets p =
    (fun n => {| target_timeout := PolicyNames_Timeout n;
                 target_retry := PolicyNames_Retry n;
                 target_circuitBreaker := PolicyNames_CircuitBreaker n |})
    <$> Targets cfg ->
  Targets cfg !! t = Some n ->
  Provider_Policy p t =
  {| Policy_timeout :=
       if bool_decide (PolicyNames_Timeout n <> "")
       then default 0 (timeouts p !! PolicyNames_Timeout n) else 0;
     Policy_retry :=
       if bool_decide (PolicyNames_Retry n <> "")
       then retries p !! PolicyNames_Retry n else None;
     Policy_circuitBreaker :=
       if bool_decide (PolicyNames_CircuitBreaker n <> "")
       then circuitBreakers p !! PolicyNames_CircuitBreaker n else None |}.
Proof.
  intros Htg Ht. unfold Provider_Policy. rewrite Htg, lookup_fmap, Ht. simpl.
  destruct (timeouts p !! PolicyNames_Timeout n); reflexivity.
Qed.

(** X16: from the configuration to the policy.  For a target of the
    configuration whose guard names are not empty and are defined, the
    policy that the provider returns has the parsed timeout, the retry
    with the parsed delay and the configured [maxRetries], and the
    breaker built for the name; two targets that name the same breaker
    share that one breaker. *)
Theorem Policy_of_a_configured_target :
  forall cfg w p w' t n,
    FromConfig cfg w = (Return (Ok p), w') ->
    Targets cfg !! t = Some n ->
    (forall val,
       PolicyNames_Timeout n <> "" ->
       Timeouts cfg !! PolicyNames_Timeout n = Some val ->
       parseDuration val = Ok (Policy_timeout (Provider_Policy p t)))
    /\ (forall rc,
          PolicyNames_Retry n <> "" ->
          Retries cfg !! PolicyNames_Retry n = Some rc ->
          exists r,
            Policy_retry (Provider_Policy p t) = Some r
            /\ parseDuration (Retry_Duration rc) = Ok (retry_duration r)
            /\ retry_maxRetries r = Retry_MaxRetries rc)
    /\ (forall c,
          PolicyNames_CircuitBreaker n <> "" ->
          CircuitBreakers cfg !! PolicyNames_CircuitBreaker n = Some c ->
          exists cb b,
            Policy_circuitBreaker (Provider_Policy p t) = Some cb
            /\ heap w' !! breaker cb = Some b /\ built_from c b)
    /\ (forall t2 n2,
          Targets cfg !! t2 = Some n2 ->
          PolicyNames_CircuitBreaker n2 = PolicyNames_CircuitBreaker n ->
          Policy_circuitBreaker (Provider_Policy p t2) =
          Policy_circuitBreaker (Provider_Policy p t)).
Proof.
  intros cfg w p w' t n Hrun Ht.
  destruct (FromConfig_Ok _ _ _ _ Hrun) as (Hts & Hrs & _ & Htg).
  destruct (configure_timeouts_Ok _ _ _ (NoDup_fst_map_to_list _) Hts) as [Htin _].
  destruct (configure_retries_Ok _ _ _ (NoDup_fst_map_to_list _) Hrs) as [Hrin _].
  rewrite (Provider_Policy_target p t cfg n Htg Ht). simpl.
  split; [|split; [|split]].
  - intros val Hne E. rewrite bool_decide_eq_true_2 by exact Hne.
    destruct (Htin (PolicyNames_Timeout n) val) as (d & Hd & ->);
      [apply elem_of_map_to_list, E|].
    exact Hd.
  - intros rc Hne E. rewrite bool_decide_eq_true_2 by exact Hne.
    destruct (Hrin (PolicyNames_Retry n) rc) as (d & Hd & ->);
      [apply elem_of_map_to_list, E|].
    eexists. split; [reflexivity|]. auto.
  - intros c Hne E. rewrite bool_decide_eq_true_2 by exact Hne.
    destruct (FromConfig_breaker_of_name _ _ _ _ _ _ Hrun E)
      as (cb & b & -> & _ & Hb & Hbuilt). eauto.
  - intros t2 n2 Ht2 Hsame.
    rewrite (Provider_Policy_target p t2 cfg n2 Htg Ht2). simpl.
    rewrite Hsame. reflexivity.
Qed.

Lemma Policy_of_a_configured_target_witness :
  match FromConfig cfg_tests w0 with
  | (Return (Ok p), _) =>
      parseDuration "1s" = Ok (Policy_timeout (Provider_Policy p "guarded_target"))
      /\ Policy_circuitBreaker (Provider_Policy p "breaker_target") =
         Policy_circuitBreaker (Provider_Policy p "guarded_target")
  | _ => False
  end.
Proof.
  destruct (FromConfig cfg_tests w0) as [[[p|e]|r| |] w'] eqn:E;
    try (vm_compute in E; discriminate E).
  destruct (Policy_of_a_configured_target cfg_tests w0 p w' "guarded_target"
              {| PolicyNames_Timeout := "short"; PolicyNames_Retry := "";
                 PolicyNames_CircuitBreaker := "test_cb" |} E)
    as (Ht & _ & _ & Hshare); [vm_compute; reflexivity|].
  split.
  - apply Ht; [discriminate | vm_compute; reflexivity].
  - apply (Hshare "breaker_target"
             {| PolicyNames_Timeout := ""; PolicyNames_Retry := "";
                PolicyNames_CircuitBreaker := "test_cb" |});
      [vm_compute; reflexivity | reflexivity].
Defined.

(** ** The error of [FromConfig] *)

Section ConfigurationErrors.

Lemma parseDuration_Err val e :
  parseDuration val = Err e ->
  time.ParseDuration val = Err e /\ is_Err (strconv.ParseInt val) = true.
Proof.
  unfold parseDuration. destruct (bool_decide (val = "")); [discriminate|].
  destruct (strconv.ParseInt val); [discriminate | auto].
Qed.

Lemma chain_self e : e ∈ chain e.
Proof. destruct e; simpl; left. Qed.

Lemma configure_timeouts_Err_chain l : forall acc e,
  configure_timeouts l acc = Err e ->
  exists name val e0 msg e1,
    (name, val) ∈ l /\ parseDuration val = Err e0
    /\ e = wrapError msg e1 /\ e0 ∈ chain e1.
Proof.
  induction l as [|[n v] l IH]; simpl; intros acc e Hrun; [discriminate|].
  destruct (parseDuration v) as [t|e0] eqn:Ev.
  - destruct (IH _ _ Hrun) as (name & val & e1 & msg & e2 & Hin & H).
    exists name, val, e1, msg, e2. split; [right; exact Hin | exact H].
  - injection Hrun as <-. exists n, v, e0. eexists _, _. split; [left|].
    split; [exact Ev|]. split; [reflexivity | apply chain_self].
Qed.

Lemma configure_retries_Err_chain l : forall acc e,
  configure_retries l acc = Err e ->
  exists name rc e0 msg e1,
    (name, rc) ∈ l /\ parseDuration (Retry_Duration rc) = Err e0
    /\ e = wrapError msg e1 /\ e0 ∈ chain e1.
Proof.
  induction l as [|[n rc0] l IH]; simpl; intros acc e Hrun; [discriminate|].
  unfold newRetry in Hrun.
  destruct (parseDuration (Retry_Duration rc0)) as [t|e0] eqn:Ev.
  - destruct (IH _ _ Hrun) as (name & val & e1 & msg & e2 & Hin & H).
    exists name, val, e1, msg, e2. split; [right; exact Hin | exact H].
  - injection Hrun as <-. exists n, rc0, e0. eexists _, _. split; [left|].
    split; [exact Ev|]. split; [reflexivity|]. simpl. right. apply chain_self.
Qed.

Lemma configure_circuitBreakers_Err_chain l : forall acc w e w',
  configure_circuitBreakers l acc w = (Return (Err e), w') ->
  exists name c e0 msg e1,
    (name, c) ∈ l
    /\ (parseDuration (CircuitBreaker_Interval c) = Err e0
        \/ parseDuration (CircuitBreaker_Timeout c) = Err e0)
    /\ e = wrapError msg e1 /\ e0 ∈ chain e1.
Proof.
  induction l as [|[n c0] l IH]; simpl; intros acc w e w' Hrun; [discriminate|].
  unfold bind, newCircuitBreaker in Hrun.
  destruct (parseDuration (CircuitBreaker_Interval c0)) as [i|e0] eqn:Ei.
  - destruct (parseDuration (CircuitBreaker_Timeout c0)) as [t|e0] eqn:Et.
    + cbn in Hrun.
      destruct (IH _ _ _ _ Hrun) as (name & val & e1 & msg & e2 & Hin & H).
      exists name, val, e1, msg, e2. split; [right; exact Hin | exact H].
    + injection Hrun as <- <-. exists n, c0, e0. eexists _, _. split; [left|].
      split; [right; exact Et|]. split; [reflexivity | apply chain_self].
  - injection Hrun as <- <-. exists n, c0, e0. eexists _, _. split; [left|].
    split; [left; exact Ei|]. split; [reflexivity | apply chain_self].
Qed.

End ConfigurationErrors.

(** X17: the error of [FromConfig] wraps the parse error.  When
    [FromConfig] fails, some duration string of the configuration is
    neither an integer for [strconv.ParseInt] nor a duration for
    [time.ParseDuration], and the error returned is a [fmt.Errorf]
    wrapping that has the error of [time.ParseDuration] for that string
    on its unwrap chain. *)
Theorem FromConfig_error_wraps_the_parse_error :
  forall cfg w e w',
    FromConfig cfg w = (Return (Err e), w') ->
    exists val e0 msg e1,
      configured_duration cfg val
      /\ time.ParseDuration val = Err e0
      /\ is_Err (strconv.ParseInt val) = true
      /\ e = wrapError msg e1 /\ e0 ∈ chain e1.
Proof.
  intros cfg w e w'. unfold FromConfig, configure.
  cbn [timeouts retries circuitBreakers targets].
  destruct (configure_timeouts _ _) as [ts|e'] eqn:Ets.
  - destruct (configure_retries _ _) as [rs|e'] eqn:Ers.
    + unfold bind, ret.
      destruct (configure_circuitBreakers _ _ w) as [[[cbs|e']|r| |] w1] eqn:Ecb;
        try (intros [=]; fail).
      intros [= <- <-].
      destruct (configure_circuitBreakers_Err_chain _ _ _ _ _ Ecb)
        as (name & c & e0 & msg & e1 & Hin & Hbad & He & Hch).
      apply elem_of_map_to_list in Hin.
      destruct Hbad as [Hbad|Hbad];
        destruct (parseDuration_Err _ _ Hbad) as [Hp Hi].
      * exists (CircuitBreaker_Interval c), e0, msg, e1.
        split; [right; right; exists name, c; auto|]. auto.
      * exists (CircuitBreaker_Timeout c), e0, msg, e1.
        split; [right; right; exists name, c; auto|]. auto.
    + intros [= <- <-].
      destruct (configure_retries_Err_chain _ _ _ Ers)
        as (name & rc & e0 & msg & e1 & Hin & Hbad & He & Hch).
      apply elem_of_map_to_list in Hin.
      destruct (parseDuration_Err _ _ Hbad) as [Hp Hi].
      exists (Retry_Duration rc), e0, msg, e1.
      split; [right; left; exists name, rc; auto|]. auto.
  - intros [= <- <-].
    destruct (configure_timeouts_Err_chain _ _ _ Ets)
      as (name & val & e0 & msg & e1 & Hin & Hbad & He & Hch).
    apply elem_of_map_to_list in Hin.
    destruct (parseDuration_Err _ _ Hbad) as [Hp Hi].
    exists val, e0, msg, e1. split; [left; eauto|]. auto.
Qed.

Lemma FromConfig_error_wraps_the_parse_error_witness :
  match FromConfig cfg_invalid_retry w0 with
  | (Return (Err e), _) =>
      exists val e0 msg e1,
        configured_duration cfg_invalid_retry val
        /\ time.ParseDuration val = Err e0
        /\ is_Err (strconv.ParseInt val) = true
        /\ e = wrapError msg e1 /\ e0 ∈ chain e1
  | _ => False
  end.
Proof.
  destruct (FromConfig cfg_invalid_retry w0) as [[[p|e]|r| |] w'] eqn:E;
    try (vm_compute in E; discriminate E).
  exact (FromConfig_error_wraps_the_parse_error cfg_invalid_retry w0 e w' E).
Defined.

(** ** After the cool-down *)

Section Probe.
Import gobreaker gobreaker_run.

(** The breaker is open and its cool-down is over: the next request is
    let through as a probe, and its outcome decides the state. *)
Lemma Execute_probe cb s ctx w b x el v e :
  heap w !! cb = Some b -> state b = StateOpen ->
  expiry b = Some x -> x < now w -> 0 < maxRequests b ->
  s ctx (now w) (length (log w)) = Returns el v e ->
  exists w' b',
    Execute cb (call s ctx) w = (Return (v, e), w')
    /\ log w' = Returns el v e :: log w
    /\ now w' = now w + Z.of_N el
    /\ heap w' !! cb = Some b'
    /\ timeout b' = timeout b
    /\ match e with
       | Some _ => state b' = StateOpen /\ expiry b' = Some (now w' + timeout b)
       | None =>
           state b' = (if maxRequests b <=? 1 then StateClosed else StateHalfOpen)
           /\ ConsecutiveFailures (counts b') = 0
       end.
Proof.
  intros Hb Hs He Hx Hmax Hbeh.
  pose proof (lookup_lt_Some _ _ _ Hb) as Hlt.
  unfold Execute. rewrite Hb. unfold beforeRequest, currentState.
  rewrite Hs, He. cbn [expiry_Before].
  destruct (Z.ltb_spec x (now w)); [|lia].
  unfold setState. rewrite Hs. cbn [State_eqb].
  cbn [toNewGeneration with_state state counts Counts_clear Requests maxRequests
       generation with_counts].
  destruct (Z.leb_spec (maxRequests b) 0); [lia|].
  unfold call. cbn [now log set_heap]. rewrite Hbeh.
  eexists _, _. split; [reflexivity|].
  cbn [now log heap set_heap set_now set_log].
  split; [reflexivity|]. split; [reflexivity|].
  rewrite list_lookup_alter_eq, list_lookup_insert_eq by exact Hlt.
  cbn [fmap option_fmap option_map].
  split; [reflexivity|].
  unfold afterRequest, currentState.
  cbn [state with_counts toNewGeneration with_state generation].
  rewrite Z.eqb_refl. cbn [negb].
  destruct e as [e|]; cbn [isSuccessful onFailure onSuccess].
  - unfold setState. cbn. auto.
  - cbn [with_counts maxRequests counts Counts_onSuccess ConsecutiveSuccesses
         Counts_onRequest Counts_clear].
    change (wrap_uint32 (0 + 1)) with 1. unfold setState. cbn.
    destruct (maxRequests b <=? 1); cbn; auto.
Qed.

End Probe.

(** X18: after the cool-down the breaker lets a call through again.  A
    breaker is open, its cool-down is over and it allows at least one
    probe: the next call of the executor runs the operation and hands on
    its result.  If the operation failed the breaker is open again, with
    a cool-down that runs from the end of the call; if it succeeded the
    breaker is closed when it allows one probe only, and half-open
    otherwise, with no consecutive failure counted. *)
Theorem breaker_lets_a_probe_through_after_cool_down :
  forall fuel p c s ctx w b x el v e,
    Policy_circuitBreaker p = Some c -> Policy_retry p = None ->
    Policy_timeout p <= 0 ->
    heap w !! breaker c = Some b ->
    gobreaker.state b = gobreaker.StateOpen ->
    gobreaker.expiry b = Some x -> x < now w ->
    0 < gobreaker.maxRequests b ->
    s ctx (now w) (length (log w)) = Returns el v e ->
    exists w' b',
      NewExecutor fuel ctx (Some p) (call s) w = (Return (v, e), w')
      /\ log w' = Returns el v e :: log w
      /\ heap w' !! breaker c = Some b'
      /\ match e with
         | Some _ =>
             gobreaker.state b' = gobreaker.StateOpen
             /\ gobreaker.expiry b' = Some (now w' + gobreaker.timeout b)
         | None =>
             gobreaker.state b' =
             (if gobreaker.maxRequests b <=? 1
              then gobreaker.StateClosed else gobreaker.StateHalfOpen)
             /\ gobreaker.ConsecutiveFailures (gobreaker.counts b') = 0
         end.
Proof.
  intros fuel p c s ctx w b x el v e Hc Hr Ht Hb Hs He Hx Hmax Hbeh.
  destruct (Execute_probe (breaker c) s ctx w b x el v e Hb Hs He Hx Hmax Hbeh)
    as (w' & b' & Hrun & Hlog & Hnow & Hb' & _ & Hst).
  exists w', b'. rewrite NewExecutor_table, Hc, Hr.
  destruct (Z.ltb_spec 0 (Policy_timeout p)); [lia|].
  unfold withCircuitBreaker, bind. rewrite Hc, Hrun, Hr.
  rewrite bool_decide_eq_false_2 by (intros H'; apply H'; reflexivity).
  auto.
Qed.

Lemma breaker_lets_a_probe_through_after_cool_down_witness :
  exists w' b',
    NewExecutor 1 context.Background (Some breaker_only) (call two_seconds)
      (set_now (now w0 + 6 * time.Second) w_open) =
    (Return (Some "", None), w')
    /\ log w' = Returns 2000000000 (Some "") None
                :: log (set_now (now w0 + 6 * time.Second) w_open)
    /\ heap w' !! 0%nat = Some b'
    /\ gobreaker.state b' = (if 1 <=? 1 then gobreaker.StateClosed
                             else gobreaker.StateHalfOpen)
       /\ gobreaker.ConsecutiveFailures (gobreaker.counts b') = 0.
Proof.
  apply (breaker_lets_a_probe_through_after_cool_down 1%nat breaker_only
           {| breaker := 0 |} two_seconds context.Background
           (set_now (now w0 + 6 * time.Second) w_open) open_breaker
           (now w0 + 5 * time.Second) 2000000000%N (Some "") None
           eq_refl eq_refl).
  - simpl. lia.
  - reflexivity.
  - reflexivity.
  - reflexivity.
  - vm_compute. reflexivity.
  - reflexivity.
  - reflexivity.
Defined.

(** ** The policies of a provider are safe to run *)

Section Safe.
Variable n : nat.




End Safe.




